(** * Delta compiler of the PostgreSQL backend and the type-rule registry

    A shallow embedding of the parts of
    [edgedb/server/pgsql/delta.py] and [edgedb/lang/schema/types.py]
    that schedule physical operations, migrate atom domains, resolve
    pointer storage, align table parents, maintain mapping indexes,
    upgrade the backend format and resolve operator result types, and
    of those that batch the alterations of a table, set column
    defaults, rename tables, register types and name prototypes. *)

From Stdlib Require Import List ZArith Lia Bool String Ascii.
From Stdlib Require Import Permutation Sorted.
From Stdlib Require OrderedTypeEx.
Import ListNotations.

Set Implicit Arguments.

(** ** Python exceptions

    Code that can raise returns a [result]; [let*] sequences two steps
    and stops at the first exception, as the interpreter does. *)
Inductive exn :=
| NameError (name : string)
| AttributeError (name : string)
| IndexError
| ValueError
| TypeError
| KeyError
| AssertionError
| RecursionError
| BackendRejection.

Inductive result (A : Type) :=
| Ok (a : A)
| Raise (e : exn).
Arguments Ok {A} a.
Arguments Raise {A} e.

Definition bind (A B : Type) (m : result A) (f : A -> result B) : result B :=
  match m with
  | Ok a => f a
  | Raise e => Raise e
  end.

Notation "'let*' x ':=' m 'in' k" := (bind m (fun x => k))
  (at level 10, x pattern, m at level 100, k at level 200).

(** ** Python dictionaries

    A [dict] keeps its keys in insertion order; assigning to a key that
    is already present replaces the value and keeps the position. *)
Module PyDict.
Section Dict.
Variables K V : Type.
Variable eqb : K -> K -> bool.

Definition t := list (K * V).

Fixpoint get (d : t) (k : K) : option V :=
  match d with
  | [] => None
  | (k', v) :: d' => if eqb k k' then Some v else get d' k
  end.

(* d[k] = v *)
Fixpoint set (d : t) (k : K) (v : V) : t :=
  match d with
  | [] => [(k, v)]
  | (k', v') :: d' =>
      if eqb k k' then (k', v) :: d' else (k', v') :: set d' k v
  end.

Definition keys (d : t) : list K := map fst d.
Definition values (d : t) : list V := map snd d.

(* dict(pairs) *)
Definition of_items (items : list (K * V)) : t :=
  fold_left (fun d kv => set d (fst kv) (snd kv)) items [].
End Dict.
End PyDict.

(** ** Execution scheduler: [AlterRealm.serialize_ops] and [execute] *)
Module Scheduler.
Local Open Scope Z_scope.

(* A dbops command: anything in [pgops] that is not a MetaCommand. *)
Record DbOp := mkDbOp { op_name : string; priority : Z }.

(* An element of a command's [pgops]: a physical operation or a nested
   MetaCommand with [pgops] of its own. *)
#[warnings="-register-all"]
Inductive PgOp :=
| Physical (o : DbOp)
| Meta (pgops : list PgOp).

Definition Queues := PyDict.t Z (list DbOp).

(* queue = queues.get(op.priority)
   if not queue: queues[op.priority] = queue = []
   queue.append(op) *)
Definition enqueue (queues : Queues) (op : DbOp) : Queues :=
  match PyDict.get Z.eqb queues (priority op) with
  | Some (x :: q) => PyDict.set Z.eqb queues (priority op) ((x :: q) ++ [op])
  | _ => PyDict.set Z.eqb queues (priority op) ([] ++ [op])
  end.

(* The body of the loop of [_serialize_ops] for one element of pgops. *)
Fixpoint _serialize_op (op : PgOp) (queues : Queues) : Queues :=
  match op with
  | Physical o => enqueue queues o
  | Meta pgops => fold_left (fun q x => _serialize_op x q) pgops queues
  end.

(* def _serialize_ops(self, obj, queues): for op in obj.pgops: ... *)
Definition _serialize_ops (obj_pgops : list PgOp) (queues : Queues) : Queues :=
  fold_left (fun q x => _serialize_op x q) obj_pgops queues.

(* sorted(items, key=lambda i: i[0]): a stable sort on the key. *)
Fixpoint insert_by_key (V : Type) (x : Z * V) (l : list (Z * V)) :=
  match l with
  | [] => [x]
  | y :: l' => if fst x <=? fst y then x :: y :: l' else y :: insert_by_key x l'
  end.

Definition sorted_by_key (V : Type) (l : list (Z * V)) : list (Z * V) :=
  fold_right (@insert_by_key V) [] l.

(* queues = {}; self._serialize_ops(self, queues)
   queues = (i[1] for i in sorted(queues.items(), key=lambda i: i[0]))
   return itertools.chain.from_iterable(queues) *)
Definition serialize_ops (self_pgops : list PgOp) : list DbOp :=
  let queues := _serialize_ops self_pgops [] in
  List.concat (map snd (sorted_by_key queues)).

(* The session sees one operation after the other; the context keeps the
   log of what was executed. *)
Record Context := mkContext { executed : list DbOp }.

Definition op_execute (op : DbOp) (context : Context) : Context :=
  mkContext (executed context ++ [op]).

(* AlterRealm.execute: for op in self.serialize_ops(): op.execute(context) *)
Definition execute (self_pgops : list PgOp) (context : Context) : Context :=
  fold_left (fun ctx op => op_execute op ctx) (serialize_ops self_pgops) context.

(* sorted(items, key=..., reverse=True): descending, equal keys in their
   original order. *)
Fixpoint insert_by_key_desc (V : Type) (x : Z * V) (l : list (Z * V)) :=
  match l with
  | [] => [x]
  | y :: l' =>
      if fst y <=? fst x then x :: y :: l' else y :: insert_by_key_desc x l'
  end.

Definition sorted_by_key_desc (V : Type) (l : list (Z * V)) : list (Z * V) :=
  fold_right (@insert_by_key_desc V) [] l.

(* MetaCommand.execute, which AlterRealm.execute overrides:
   for op in sorted(self.pgops, key=lambda i: getattr(i, 'priority', 0),
                    reverse=True):
       op.execute(context)
   A nested MetaCommand has no priority of its own.  serialize_ops
   flattens the nested commands, so the run of a realm never comes
   here. *)
Fixpoint MetaCommand_execute (op : PgOp) : Context -> Context :=
  match op with
  | Physical o => op_execute o
  | Meta pgops =>
      fun context =>
        fold_left (fun ctx run => snd run ctx)
          (sorted_by_key_desc
             (map (fun x => (match x with
                             | Physical o => priority o
                             | Meta _ => 0
                             end, MetaCommand_execute x)) pgops))
          context
  end.

(* Discovery order: the depth-first walk of the tree of pgops. *)
Fixpoint discovered (op : PgOp) : list DbOp :=
  match op with
  | Physical o => [o]
  | Meta pgops => flat_map discovered pgops
  end.

Definition discovered_all (pgops : list PgOp) : list DbOp :=
  flat_map discovered pgops.

Definition has_priority (p : Z) (o : DbOp) : bool := priority o =? p.

End Scheduler.

(** ** Pointer storage: [PointerMetaCommand.has_table] *)
Module PointerStorage.
Local Open Scope string_scope.

(* What [has_table] observes of a link prototype: its name and the
   answers of the schema methods it calls. *)
Record Link := mkLink {
  name : string;
  is_pure_computable : bool;
  generic : bool;
  has_user_defined_properties : bool;
  atomic : bool;
  singular : bool
}.

Inductive TableType := concept | link.

Record PointerStorageInfo := mkInfo { table_type : TableType }.

Definition is_link_table (t : TableType) : bool :=
  match t with link => true | concept => false end.

Section HasTable.
(* link.children(schema) *)
Variable children : Link -> list Link.
(* types.get_pointer_storage_info(l, resolve_type=False) *)
Variable get_pointer_storage_info : Link -> PointerStorageInfo.

Definition has_table (l : Link) : bool :=
  if is_pure_computable l then false
  else if generic l then
    if String.eqb (name l) "metamagic.caos.builtins.link" then true
    else if has_user_defined_properties l then true
    else
      (* for l in link.children(schema): if not l.generic(): ... return True
         return False *)
      existsb (fun c => negb (generic c) &&
                        is_link_table (table_type (get_pointer_storage_info c)))
              (children l)
  else negb (atomic l) || negb (singular l) || has_user_defined_properties l.
End HasTable.

End PointerStorage.

(** ** Type rule registry: [TypeRules] of [schema/types.py] *)
Module TypeRules.
Local Open Scope string_scope.

(* The objects the registry handles as argument types and results. *)
Inductive PyObj :=
| PyType (name : string)        (* a class: isinstance(x, type) *)
| ProtoObject (name : string)   (* isinstance(x, so.ProtoObject) *)
| PyStr (s : string)            (* x.__class__ is str *)
| PyNone.

Definition PyObj_eqb (a b : PyObj) : bool :=
  match a, b with
  | PyType x, PyType y => String.eqb x y
  | ProtoObject x, ProtoObject y => String.eqb x y
  | PyStr x, PyStr y => String.eqb x y
  | PyNone, PyNone => true
  | _, _ => false
  end.

(* Equality of the tuples that key the rules of one arity. *)
Fixpoint sig_eqb (a b : list PyObj) : bool :=
  match a, b with
  | [], [] => true
  | x :: a', y :: b' => PyObj_eqb x y && sig_eqb a' b'
  | _, _ => false
  end.

Definition Sigs := PyDict.t (list PyObj) PyObj.
Definition ByArity := PyDict.t nat Sigs.
(* rules = {}: operator -> arity -> signature -> result *)
Definition Rules := PyDict.t string ByArity.

Definition empty_rules : Rules := [].

(* d.setdefault(k, {}) as a value: the dict stored at k, or a new one. *)
Definition setdefault (K K' V' : Type) (eqb : K -> K -> bool)
    (d : PyDict.t K (PyDict.t K' V')) (k : K) : PyDict.t K' V' :=
  match PyDict.get eqb d k with
  | Some inner => inner
  | None => []
  end.

(* cls.rules.setdefault(op, {}).setdefault(len(args), {})[tuple(args)] = result *)
Definition add_rule (rules : Rules) (op : string) (args : list PyObj)
    (result : PyObj) : Rules :=
  let by_arity := setdefault String.eqb rules op in
  let sigs := setdefault Nat.eqb by_arity (List.length args) in
  PyDict.set String.eqb rules op
    (PyDict.set Nat.eqb by_arity (List.length args)
       (PyDict.set sig_eqb sigs args result)).

Section Resolution.
(* issubclass(arg, sig_arg) for two classes *)
Variable issubclass : string -> string -> bool.
(* arg.issubclass(sig_arg) for a prototype arg *)
Variable proto_issubclass : string -> PyObj -> bool.
(* schema.get(name) *)
Variable schema_get : string -> PyObj.

(* (isinstance(arg, type) and issubclass(arg, sig_arg)) or
   (isinstance(arg, so.ProtoObject) and arg.issubclass(sig_arg)).
   The builtin issubclass raises TypeError when its second argument is
   not a class. *)
Definition arg_matches (arg sig_arg : PyObj) : result bool :=
  match arg with
  | PyType n =>
      match sig_arg with
      | PyType c => Ok (issubclass n c)
      | _ => Raise TypeError
      end
  | ProtoObject n => Ok (proto_issubclass n sig_arg)
  | _ => Ok false
  end.

(* for i, arg in enumerate(args): sig_arg = sig[i]; if not ...: break
   else: <matched>
   [i] is the index of the head of [args]. *)
Fixpoint sig_matches (i : nat) (args sig : list PyObj) : result bool :=
  match args with
  | [] => Ok true
  | arg :: args' =>
      match nth_error sig i with
      | None => Raise IndexError
      | Some sig_arg =>
          let* m := arg_matches arg sig_arg in
          if m then sig_matches (S i) args' sig else Ok false
      end
  end.

(* for sig, result in rules.items(): ... match = result; break *)
Fixpoint scan (args : list PyObj) (items : list (list PyObj * PyObj))
    : result PyObj :=
  match items with
  | [] => Ok PyNone
  | (sig, res) :: rest =>
      let* m := sig_matches 0 args sig in
      if m then Ok res else scan args rest
  end.

(* if match and match.__class__ is str: match = schema.get(match) *)
Definition resolve (m : PyObj) : PyObj :=
  match m with
  | PyStr "" => m
  | PyStr s => schema_get s
  | _ => m
  end.

Definition get_result (rules : Rules) (op : string) (args : list PyObj)
    : result PyObj :=
  let* m :=
    match PyDict.get String.eqb rules op with
    | None => Ok PyNone
    | Some by_arity =>
        match PyDict.get Nat.eqb by_arity (List.length args) with
        | None => Ok PyNone
        | Some sigs => scan args sigs
        end
    end in
  Ok (resolve m).
End Resolution.

(* One call of add_rule. *)
Record Registration := mkReg {
  reg_op : string;
  reg_args : list PyObj;
  reg_result : PyObj
}.

Definition register (rules : Rules) (r : Registration) : Rules :=
  add_rule rules (reg_op r) (reg_args r) (reg_result r).

(* The registry after the registrations [regs], made in that order. *)
Definition registry_of (regs : list Registration) : Rules :=
  fold_left register regs empty_rules.

End TypeRules.

(** ** Backend upgrade chain: [UpgradeBackend] *)
Module Upgrade.
Local Open Scope Z_scope.

Definition BACKEND_FORMAT_VERSION : Z := 30.

Definition QName : Type := string * string.

Definition QName_eqb (a b : QName) : bool :=
  String.eqb (fst a) (fst b) && String.eqb (snd a) (snd b).

(* What the upgrade steps below see of the physical schema: the columns
   of the tables, the composite types and the rows of the backend-info
   table (one format_version per row). *)
Record Backend := mkBackend {
  columns : list (QName * string);
  composite_types : list QName;
  backend_info : list Z
}.

Definition column_eqb (a b : QName * string) : bool :=
  QName_eqb (fst a) (fst b) && String.eqb (snd a) (snd b).

Definition has_column (b : Backend) (t : QName) (c : string) : bool :=
  existsb (column_eqb (t, c)) (columns b).

Definition has_type (b : Backend) (n : QName) : bool :=
  existsb (QName_eqb n) (composite_types b).

(* dbops conditions *)
Inductive Condition :=
| ColumnExists (table_name : QName) (column_name : string)
| CompositeTypeExists (name : QName).

Definition holds (b : Backend) (c : Condition) : bool :=
  match c with
  | ColumnExists t col => has_column b t col
  | CompositeTypeExists n => has_type b n
  end.

(* Operations of an ALTER TABLE, each with its conditions and
   neg_conditions: alter.add_command((op, conds, neg_conds)). *)
Inductive AlterOp :=
| AlterTableAddColumn (column : string)
| AlterTableDropColumn (column : string).

Definition Guarded (A : Type) : Type := A * list Condition * list Condition.

#[warnings="-register-all"]
Inductive Command :=
| CreateCompositeType (name : QName) (conditions neg_conditions : list Condition)
| AlterTable (name : QName) (ops : list (Guarded AlterOp))
             (conditions neg_conditions : list Condition)
| CommandGroup (commands : list Command)
               (conditions neg_conditions : list Condition).

(** Modelled from the spec: [dbops] and the backend are not under src.
    An operation whose conditions do not all hold, or one of whose
    neg_conditions holds, is omitted silently (GuardSkipped); otherwise
    its statement goes to the backend, which refuses (BackendRejection)
    to create what exists already and to drop what does not exist. *)
Definition guards_pass (b : Backend) (conditions neg_conditions : list Condition)
    : bool :=
  forallb (holds b) conditions && negb (existsb (holds b) neg_conditions).

Definition alter_op_execute (t : QName) (b : Backend) (op : AlterOp)
    : result Backend :=
  match op with
  | AlterTableAddColumn c =>
      if has_column b t c then Raise BackendRejection
      else Ok (mkBackend (columns b ++ [(t, c)]) (composite_types b)
                         (backend_info b))
  | AlterTableDropColumn c =>
      if has_column b t c
      then Ok (mkBackend
                 (filter (fun x => negb (column_eqb (t, c) x)) (columns b))
                 (composite_types b) (backend_info b))
      else Raise BackendRejection
  end.

Fixpoint alter_ops_execute (t : QName) (b0 : Backend)
    (ops : list (Guarded AlterOp)) (b : Backend) : result Backend :=
  match ops with
  | [] => Ok b
  | (op, conds, negs) :: rest =>
      (* the conditions are evaluated before the statement is sent *)
      if guards_pass b0 conds negs
      then let* b' := alter_op_execute t b op in alter_ops_execute t b0 rest b'
      else alter_ops_execute t b0 rest b
  end.

Fixpoint command_execute (cmd : Command) (b : Backend) : result Backend :=
  match cmd with
  | CreateCompositeType n conds negs =>
      if guards_pass b conds negs
      then if has_type b n then Raise BackendRejection
           else Ok (mkBackend (columns b) (composite_types b ++ [n])
                              (backend_info b))
      else Ok b
  | AlterTable t ops conds negs =>
      if guards_pass b conds negs then alter_ops_execute t b ops b else Ok b
  | CommandGroup cmds conds negs =>
      if guards_pass b conds negs
      then fold_left (fun r c => let* b' := r in command_execute c b')
                     cmds (Ok b)
      else Ok b
  end.

Section Steps.
(* deltadbops.LinkEndpointsType().name *)
Variable link_endpoints_type : QName.

(* def update_to_version_2: adds LinkEndpointsType, guarded *)
Definition update_to_version_2 (b : Backend) : result Backend :=
  let cond := CompositeTypeExists link_endpoints_type in
  let cmd := CreateCompositeType link_endpoints_type [] [cond] in
  command_execute (CommandGroup [cmd] [] []) b.

(* def update_to_version_3: adds concept.is_virtual, guarded *)
Definition update_to_version_3 (b : Backend) : result Backend :=
  let cond := ColumnExists ("caos", "concept")%string "is_virtual" in
  command_execute
    (AlterTable ("caos", "concept")%string
       [(AlterTableAddColumn "is_virtual", [], [])] [] [cond]) b.

(* def update_to_version_28: drops event.allowed_actions, guarded *)
Definition update_to_version_28 (b : Backend) : result Backend :=
  let cond := ColumnExists ("caos", "event")%string "allowed_actions" in
  let alter := AlterTable ("caos", "event")%string
                 [(AlterTableDropColumn "allowed_actions", [cond], [])] [] [] in
  command_execute (CommandGroup [alter] [] []) b.

(* def update_to_version_30: adds link.spectargets and drops
   concept.is_virtual; neither operation carries a condition *)
Definition update_to_version_30 (b : Backend) : result Backend :=
  let alter1 := AlterTable ("caos", "link")%string
                  [(AlterTableAddColumn "spectargets", [], [])] [] [] in
  let alter2 := AlterTable ("caos", "concept")%string
                  [(AlterTableDropColumn "is_virtual", [], [])] [] [] in
  command_execute (CommandGroup [alter1; alter2] [] []) b.

End Steps.

(** Modelled from the spec: [dbops.Merge] is not under src.  The rows
    that meet the condition take the record; when no row does, the
    record is inserted. *)
Definition merge_format_version (rows : list Z) : list Z :=
  if existsb (fun v => v <? BACKEND_FORMAT_VERSION) rows
  then map (fun v => if v <? BACKEND_FORMAT_VERSION
                     then BACKEND_FORMAT_VERSION else v) rows
  else rows ++ [BACKEND_FORMAT_VERSION].

(* update_backend_info(): Merge(table=backendinfotable, record=record,
   condition=[('format_version', '<', BACKEND_FORMAT_VERSION)]), executed *)
Definition update_backend_info_execute (b : Backend) : Backend :=
  mkBackend (columns b) (composite_types b)
            (merge_format_version (backend_info b)).

(* The context of an upgrade: the database and what print() wrote, kept
   as the version numbers announced. *)
Record Context := mkContext { db : Backend; printed : list Z }.

(* range(a, b) *)
Definition range (a b : Z) : list Z :=
  map (fun i => a + Z.of_nat i) (seq 0 (Z.to_nat (b - a))).

Section Chain.
(* The body of update_to_version_<n>, for n = 1..30. *)
Variable step_body : Z -> Backend -> result Backend.

(* getattr(self, 'update_to_version_{}'.format(n)): the class defines
   update_to_version_1 .. update_to_version_30. *)
Definition getattr_update_to_version (n : Z)
    : result (Backend -> result Backend) :=
  if (1 <=? n) && (n <=? 30) then Ok (step_body n)
  else Raise (AttributeError "update_to_version").

(* for version in range(self.actual_version, self.current_version):
       print(... version + 1)
       getattr(self, 'update_to_version_{}'.format(version + 1))(context) *)
Fixpoint run_steps (versions : list Z) (context : Context) : result Context :=
  match versions with
  | [] => Ok context
  | version :: rest =>
      let announced := printed context ++ [version + 1] in
      let* step := getattr_update_to_version (version + 1) in
      let* b := step (db context) in
      run_steps rest (mkContext b announced)
  end.

Definition execute (actual_version : Z) (context : Context) : result Context :=
  let current_version := BACKEND_FORMAT_VERSION in
  let* c := run_steps (range actual_version current_version) context in
  Ok (mkContext (update_backend_info_execute (db c)) (printed c)).
End Chain.

(* The steps spelled out above; the others are left to [others]. *)
Definition update_to_version (link_endpoints_type : QName)
    (others : Z -> Backend -> result Backend) (n : Z)
    : Backend -> result Backend :=
  if n =? 2 then update_to_version_2 link_endpoints_type
  else if n =? 3 then update_to_version_3
  else if n =? 28 then update_to_version_28
  else if n =? 30 then update_to_version_30
  else others n.

End Upgrade.

(** ** Type-change migration: [AtomMetaCommand.alter_atom_type] *)
Module AtomTypeChange.
Local Open Scope string_scope.
Local Open Scope list_scope.

Definition DomainName : Type := string * string.

(* What the migration reads of the schema. *)
Record Atom := mkAtom {
  atom_name : string;
  bases : list string;               (* [b.name for b in atom.bases] *)
  local_constraints : list string    (* atom.local_constraints.values() *)
}.

Record Link := mkLink {
  normal_name : string;              (* link.normal_name() *)
  source : string;                   (* link.source *)
  target : option string             (* link.target.name, when link.target *)
}.

Record Schema := mkSchema {
  links : list Link;                 (* schema(type='link') *)
  atoms : list Atom                  (* schema(type='atom') *)
}.

Inductive PgOp :=
| RenameDomain (name new_name : DomainName)
| CreateDomain (name : DomainName) (base : string)
(* dbops.CommandGroup(priority=1) with bconstr.create_ops() of a constraint *)
| CreateConstraintGroup (atom constraint : string)
(* dbops.AlterTable(table_name) with one AlterTableAlterColumnType *)
| AlterTableAlterColumnType (table_name : DomainName) (column_name : string)
                            (target_type : string)
| DropDomain (name : DomainName)
| AlterDomainAlterDefault (name : DomainName) (default : option string).

(* An item of a default: a literal or an s_expr.ExpressionText. *)
Inductive DefaultItem :=
| Literal (value : string)
| ExpressionText (text : string).

(* [simple_alter] is bound nowhere: it is neither a local of
   alter_atom_type nor a global of the module nor a builtin. *)
Definition simple_alter : option bool := None.

Definition names_eqb (a b : list string) : bool :=
  if list_eq_dec string_dec a b then true else false.

Section AlterAtomType.
(* common.atom_name_to_domain_name(name, catenate=False) *)
Variable atom_name_to_domain_name : string -> DomainName.
(* common.qname(schema, name) *)
Variable qname : string -> string -> string.
(* common.get_table_name(host_proto, catenate=False) *)
Variable get_table_name : string -> DomainName.
(* common.caos_name_to_pg_name(name) *)
Variable caos_name_to_pg_name : string -> string.
(* types.get_atom_base(schema, atom) *)
Variable get_atom_base : Schema -> Atom -> string.

(* for link in schema(type='link'):
       if link.target and link.target.name == atom.name:
           users.append((link.source, link)) *)
Definition users_of (schema : Schema) (atom : Atom) : list (string * Link) :=
  flat_map (fun l => match target l with
                     | Some t => if String.eqb t (atom_name atom)
                                 then [(source l, l)] else []
                     | None => []
                     end) (links schema).

(* The pgops of the command after the call, and how the call ended. *)
Definition Outcome : Type := list PgOp * result unit.

(* [fuel] is the depth of recursion the interpreter allows. *)
Fixpoint alter_atom_type (fuel : nat) (atom : Atom) (schema : Schema)
    (new_type : string) (intent : string) (pgops : list PgOp) : Outcome :=
  match fuel with
  | O => (pgops, Raise RecursionError)
  | S fuel' =>
    let users := users_of schema atom in
    let domain_name := atom_name_to_domain_name (atom_name atom) in
    let new_constraints := local_constraints atom in
    let base := get_atom_base schema atom in
    (* if intent == 'alter': ... elif intent == 'create': ... *)
    let '(pgops1, target_type, domain_name1) :=
      if String.eqb intent "alter" then
        let new_name := (fst domain_name, (snd domain_name ++ "_tmp")%string) in
        (pgops
           ++ [RenameDomain domain_name new_name]
           ++ [CreateDomain domain_name new_type]
           ++ map (CreateConstraintGroup (atom_name atom)) new_constraints,
         qname (fst domain_name) (snd domain_name),
         new_name)
      else if String.eqb intent "create" then
        (pgops ++ [CreateDomain domain_name base], new_type, domain_name)
      else (pgops, new_type, domain_name) in
    (* for host_proto, item_proto in users: ... self.pgops.add(alter_table) *)
    let pgops2 :=
      pgops1 ++ map (fun u => AlterTableAlterColumnType
                                (get_table_name (fst u))
                                (caos_name_to_pg_name (normal_name (snd u)))
                                target_type) users in
    (* for child_atom in schema(type='atom'):
           if [b.name for b in child_atom.bases] == [atom.name]:
               self.alter_atom_type(child_atom, schema, target_type, 'alter') *)
    let after_children :=
      fold_left
        (fun (acc : Outcome) child_atom =>
           match acc with
           | (ops, Ok _) =>
               if names_eqb (bases child_atom) [atom_name atom]
               then alter_atom_type fuel' child_atom schema target_type
                                    "alter" ops
               else acc
           | (_, Raise _) => acc
           end)
        (atoms schema) (pgops2, Ok tt) in
    match after_children with
    | (pgops3, Ok _) =>
        (* if intent == 'drop' or (intent == 'alter' and not simple_alter): *)
        let test :=
          if String.eqb intent "drop" then Ok true
          else if String.eqb intent "alter" then
            match simple_alter with
            | Some v => Ok (negb v)
            | None => Raise (NameError "simple_alter")
            end
          else Ok false in
        match test with
        | Ok true => (pgops3 ++ [DropDomain domain_name1], Ok tt)
        | Ok false => (pgops3, Ok tt)
        | Raise e => (pgops3, Raise e)
        end
    | (pgops3, Raise e) => (pgops3, Raise e)
    end
  end.

(* AlterAtom.alter_atom(cls, op, schema, context, old_atom, new_atom,
                        in_place=True, updates=None);
   [default_update] is updates.get('default')[1] when updates has a
   'default' entry. *)
Definition alter_atom (fuel : nat) (schema : Schema) (old_atom new_atom : Atom)
    (in_place : bool) (default_update : option (option (list DefaultItem)))
    (pgops : list PgOp) : Outcome :=
  let old_base := get_atom_base schema old_atom in
  let base := get_atom_base schema new_atom in
  let domain_name := atom_name_to_domain_name (atom_name new_atom) in
  let type_intent := "alter" in
  (* new_type = None; if not new_type and old_base != base: new_type = base *)
  let new_type := if String.eqb old_base base then None else Some base in
  let after_type :=
    match new_type with
    | Some t =>
        (* if new_type: if in_place: op.alter_atom_type(...) *)
        if negb (String.eqb t "") && in_place
        then alter_atom_type fuel new_atom schema t type_intent pgops
        else (pgops, Ok tt)
    | None => (pgops, Ok tt)
    end in
  match after_type with
  | (pgops1, Ok _) =>
      (* if type_intent != 'drop': if updates: ... *)
      match default_update with
      | Some default_delta =>
          let new_default :=
            match default_delta with
            | Some (Literal v :: _) => Some v
            | _ => None
            end in
          (pgops1 ++ [AlterDomainAlterDefault domain_name new_default], Ok tt)
      | None => (pgops1, Ok tt)
      end
  | (pgops1, Raise e) => (pgops1, Raise e)
  end.
End AlterAtomType.

End AtomTypeChange.

(** ** Inheritance delta: [CompositePrototypeMetaCommand.apply_base_delta] *)
Module BaseDelta.
Local Open Scope string_scope.
Local Open Scope list_scope.

Definition TableName : Type := string * string.

Inductive TableType := concept | link.

Definition TableType_eqb (a b : TableType) : bool :=
  match a, b with
  | concept, concept | link, link => true
  | _, _ => false
  end.

(* A pointer, with what types.get_pointer_storage_info(ptr, schema=schema)
   says about it. *)
Record Pointer := mkPointer {
  normal_name : string;
  atomic : bool;
  required : bool;
  table_type : TableType;
  table_name : TableName;
  column_name : string;
  column_type : string
}.

Record Base := mkBase {
  base_name : string;
  base_pointers : list Pointer          (* base.pointers.values() *)
}.

(* A concept or a link, after acquire_ancestor_inheritance(schema). *)
Record Source := mkSource {
  name : string;
  is_concept : bool;                    (* isinstance(source, s_concepts.Concept) *)
  bases : list Base;
  pointers : PyDict.t string Pointer
}.

Inductive Condition :=
| ColumnExists (table : TableName) (column : string)
| TableInherits (table parent : TableName).

Inductive AlterOp :=
| AlterTableAddColumn (column type : string) (required : bool)
| AlterTableDropColumn (column type : string) (required : bool)
| AlterTableDropParent (parent_name : TableName)
| AlterTableAddParent (parent_name : TableName).

(* (op, conditions, neg_conditions) *)
Definition Guarded : Type := AlterOp * list Condition * list Condition.

(* One dbops.AlterTable obtained with force_new=True: its operations. *)
Definition AlterTable : Type := list Guarded.

Definition mem (x : string) (l : list string) : bool :=
  existsb (String.eqb x) l.

(* datastructures.OrderedSet(names): the first occurrence of each name,
   in order.  A plain set is kept as such a list too; Python leaves the
   order of its iteration open. *)
Fixpoint ordered_set (l : list string) : list string :=
  match l with
  | [] => []
  | x :: l' => x :: filter (fun y => negb (String.eqb x y)) (ordered_set l')
  end.

(* a - b *)
Definition difference (a b : list string) : list string :=
  filter (fun x => negb (mem x b)) a.

(* itertools.takewhile(lambda x: x[0] == x[1], zip(current, new)) *)
Fixpoint unchanged_order (current new : list string) : list (string * string) :=
  match current, new with
  | x :: current', y :: new' =>
      if String.eqb x y then (x, y) :: unchanged_order current' new' else []
  | _, _ => []
  end.

Section ApplyBaseDelta.
(* realm.op._renames.get(b, b) *)
Variable renamed : Base -> Base.
(* common.concept_name_to_table_name or common.link_name_to_table_name,
   applied to sn.Name(base) *)
Variable nameconv : string -> TableName.

Definition is_a_column (source : Source) (ptr : Pointer) : bool :=
  (TableType_eqb (table_type ptr) concept && is_concept source) ||
  (TableType_eqb (table_type ptr) link && negb (is_concept source)).

(* The names of the bases that [orig_source] has and [source] has not. *)
Definition dropped_bases (orig_bases : list Base) (source : Source)
    : list string :=
  difference (ordered_set (map base_name orig_bases))
             (map base_name (bases source)).

(* list(OrderedSet(b.name for b in orig_source.bases) - dropped_bases) *)
Definition current_bases (orig_bases : list Base) (source : Source)
    : list string :=
  difference (ordered_set (map base_name orig_bases))
             (dropped_bases orig_bases source).

(* inherited_aptrs, added_inh_ptrs and then added_inh_ptrs - created_ptrs *)
Definition inherited_to_add (orig_source source : Source)
    (created_ptrs : list string) : list string :=
  let inherited_aptrs :=
    ordered_set
      (flat_map (fun base =>
                   map normal_name (filter atomic (base_pointers base)))
                (bases source)) in
  let added_inh_ptrs :=
    difference inherited_aptrs
               (map (fun kv => normal_name (snd kv)) (pointers orig_source)) in
  difference added_inh_ptrs created_ptrs.

(* for added_ptr in added_inh_ptrs - created_ptrs:
       ptr = source.pointers[added_ptr]
       ... alter_table.add_operation((dbops.AlterTableAddColumn(col), None, (cond,))) *)
Fixpoint add_inherited_columns (source : Source) (op_table_name : TableName)
    (added : list string) : result AlterTable :=
  match added with
  | [] => Ok []
  | added_ptr :: rest =>
      match PyDict.get String.eqb (pointers source) added_ptr with
      | None => Raise KeyError
      | Some ptr =>
          let* more := add_inherited_columns source op_table_name rest in
          Ok ((if is_a_column source ptr
               then [(AlterTableAddColumn (column_name ptr) (column_type ptr)
                                          (required ptr),
                      [], [ColumnExists op_table_name (column_name ptr)])]
               else []) ++ more)
      end
  end.

(* dropped_ptrs = set(orig_source.pointers) - set(source.pointers), each
   with ptr = orig_source.pointers[dropped_ptr] *)
Definition dropped_ptrs (orig_source source : Source) : list Pointer :=
  map snd (filter (fun kv => negb (mem (fst kv) (map fst (pointers source))))
                  (pointers orig_source)).

(* [has_table] is source_ctx.op.has_table(source, schema);
   [created_ptrs] the prototype names of the CreateLink or
   CreateLinkProperty commands under the source command;
   [op_table_name] is source_ctx.op.table_name.
   The result lists, in the order of their creation, the ALTER TABLEs
   that the call obtains with force_new=True. *)
Definition apply_base_delta (orig_source source : Source) (has_table : bool)
    (created_ptrs : list string) (op_table_name : TableName)
    : result (list AlterTable) :=
  let orig_bases := map renamed (bases orig_source) in
  let dropped := dropped_bases orig_bases source in
  if is_concept source || has_table then
    let* alter_table :=
      add_inherited_columns source op_table_name
        (inherited_to_add orig_source source created_ptrs) in
    let for_dropped :=
      match dropped with
      | [] => []
      | _ :: _ =>
          let alter_table_drop_parent :=
            map (fun dropped_base =>
                   (AlterTableDropParent (nameconv dropped_base), [], []))
                dropped in
          match dropped_ptrs orig_source source with
          | [] => [alter_table_drop_parent]
          | ptrs =>
              let alter_table_drop_ptr :=
                flat_map (fun ptr =>
                            if is_a_column source ptr
                            then [(AlterTableDropColumn (column_name ptr)
                                     (column_type ptr) (required ptr),
                                   [ColumnExists (table_name ptr)
                                                 (column_name ptr)], [])]
                            else []) ptrs in
              [alter_table_drop_parent; alter_table_drop_ptr]
          end
      end in
    let current := current_bases orig_bases source in
    let new_bases := map base_name (bases source) in
    let unchanged := unchanged_order current new_bases in
    let old_base_order := skipn (List.length unchanged) current in
    let new_base_order := skipn (List.length unchanged) new_bases in
    let for_order :=
      match new_base_order with
      | [] => []
      | _ :: _ =>
          let this_table := nameconv (name source) in
          let alter_table_drop_parent :=
            map (fun base =>
                   (AlterTableDropParent (nameconv base),
                    [TableInherits this_table (nameconv base)], []))
                old_base_order in
          let alter_table_add_parent :=
            map (fun added_base =>
                   (AlterTableAddParent (nameconv added_base),
                    [], [TableInherits this_table (nameconv added_base)]))
                new_base_order in
          [alter_table_drop_parent; alter_table_add_parent]
      end in
    Ok ([alter_table] ++ for_dropped ++ for_order)
  else Ok [[]].
End ApplyBaseDelta.

End BaseDelta.

(** ** Mapping indexes: [UpdateMappingIndexes.apply] *)
Module MappingIndexes.
Local Open Scope string_scope.
Local Open Scope list_scope.

Definition TableName : Type := string * string.

(* s_links.LinkMapping; an index name carries it as 11, 1*, *1 or **. *)
Inductive LinkMapping := OneToOne | OneToMany | ManyToOne | ManyToMany.

Definition LinkMapping_eqb (a b : LinkMapping) : bool :=
  match a, b with
  | OneToOne, OneToOne | OneToMany, OneToMany
  | ManyToOne, ManyToOne | ManyToMany, ManyToMany => true
  | _, _ => false
  end.

(* s_links.LinkMapping.__members__.values() *)
Definition LinkMapping_members : list LinkMapping :=
  [OneToOne; OneToMany; ManyToOne; ManyToMany].

(* The link prototype that comes with a command. *)
Record Proto := mkProto { name : string; mapping : LinkMapping }.

(* The commands that schedule_mapping_update queues. *)
Inductive LinkOp :=
| CreateLink
| AlterLink (old_link_name : string)       (* op.old_link.name *)
| DeleteLink.

(* An interpreted index: (mapping, links). *)
Definition ExIdx : Type := LinkMapping * list string.

(* (proto.name, op.old_link.name, ex_idx_names) *)
Definition Item : Type := string * option string * option (list string).

Definition Item_eq_dec : forall a b : Item, {a = b} + {a <> b}.
Proof.
  repeat decide equality; apply string_dec.
Defined.

(* A dict whose keys are the four members of LinkMapping. *)
Definition Queue : Type := LinkMapping -> list Item.

Definition empty_queue : Queue := fun _ => [].

Definition queue_set (q : Queue) (k : LinkMapping) (v : list Item) : Queue :=
  fun m => if LinkMapping_eqb m k then v else q m.

(* list.remove(x): drops the first x, ValueError when there is none. *)
Fixpoint list_remove (x : Item) (l : list Item) : result (list Item) :=
  match l with
  | [] => Raise ValueError
  | y :: l' =>
      if Item_eq_dec x y then Ok l'
      else let* r := list_remove x l' in Ok (y :: r)
  end.

Inductive IndexCommand :=
| CreateMappingIndexes (table_name : TableName) (mapping : LinkMapping)
                       (maplinks : list string)
| DropMappingIndexes (idx_names : option (list string)) (table_name : TableName)
                     (mapping : LinkMapping)
| AlterMappingIndexes (idx_names : option (list string)) (table_name : TableName)
                      (mapping : LinkMapping) (maplinks : list string).

(* existing = dict(self.group_indexes(existing_by_name.items())), read at a
   link name: the names of the indexes that cover the link, in the order
   of existing_by_name (the sort on the link name is stable). *)
Definition existing_get (existing_by_name : PyDict.t string ExIdx)
    (link_name : string) : option (list string) :=
  match flat_map (fun kv => map (fun _ => fst kv)
                                (filter (String.eqb link_name) (snd (snd kv))))
                 existing_by_name with
  | [] => None
  | names => Some names
  end.

Record State := mkState {
  new_indexes : Queue;
  alter_indexes : Queue;
  processed : PyDict.t string LinkMapping
}.

(* The body of "for op, proto in ops". *)
Definition process_op (existing_by_name : PyDict.t string ExIdx)
    (st : State) (op : LinkOp) (proto : Proto) : result State :=
  let already_processed := PyDict.get String.eqb (processed st) (name proto) in
  let* st1 :=
    match op with
    | CreateLink =>
        (* assert not already_processed *)
        match already_processed with
        | Some _ => Raise AssertionError
        | None =>
            Ok (mkState
                  (queue_set (new_indexes st) (mapping proto)
                     (new_indexes st (mapping proto) ++ [(name proto, None, None)]))
                  (alter_indexes st) (processed st))
        end
    | AlterLink old_link_name =>
        let ex_idx_names := existing_get existing_by_name old_link_name in
        (* if ex_idx_names: ex_idx = existing_by_name[ex_idx_names[0]];
           queue = alter_indexes, else: ex_idx = None; queue = new_indexes *)
        let* ex_idx :=
          match ex_idx_names with
          | Some (first :: _) =>
              match PyDict.get String.eqb existing_by_name first with
              | Some ex => Ok (Some ex)
              | None => Raise KeyError
              end
          | _ => Ok None
          end in
        let in_alter := match ex_idx with Some _ => true | None => false end in
        let queue := if in_alter then alter_indexes st else new_indexes st in
        let store (q : Queue) :=
          if in_alter then mkState (new_indexes st) q (processed st)
          else mkState q (alter_indexes st) (processed st) in
        let item : Item := (name proto, Some old_link_name, ex_idx_names) in
        (* not ex_idx or ex_idx[0] != proto.mapping *)
        let wanted :=
          match ex_idx with
          | None => true
          | Some ex => negb (LinkMapping_eqb (fst ex) (mapping proto))
          end in
        let append (q : Queue) :=
          queue_set q (mapping proto) (q (mapping proto) ++ [item]) in
        match already_processed with
        | Some earlier =>
            if negb (LinkMapping_eqb earlier (mapping proto)) then
              (* queue[already_processed].remove(item) *)
              let* removed := list_remove item (queue earlier) in
              let q1 := queue_set queue earlier removed in
              Ok (store (if wanted then append q1 else q1))
            else Ok st
        | None =>
            Ok (if wanted then store (append queue) else st)
        end
    | DeleteLink => Ok st
    end in
  (* processed[proto.name] = proto.mapping *)
  Ok (mkState (new_indexes st1) (alter_indexes st1)
              (PyDict.set String.eqb (processed st1) (name proto) (mapping proto))).

Fixpoint process_ops (existing_by_name : PyDict.t string ExIdx) (st : State)
    (ops : list (LinkOp * Proto)) : result State :=
  match ops with
  | [] => Ok st
  | (op, proto) :: rest =>
      let* st' := process_op existing_by_name st op proto in
      process_ops existing_by_name st' rest
  end.

(* for mapping, maplinks in new_indexes.items(): if maplinks: ... *)
Definition emit_new (table_name : TableName) (new_indexes : Queue)
    : list IndexCommand :=
  flat_map (fun m => match new_indexes m with
                     | [] => []
                     | maplinks =>
                         [CreateMappingIndexes table_name m
                            (map (fun i => fst (fst i)) maplinks)]
                     end) LinkMapping_members.

Definition names_eqb (a b : option (list string)) : bool :=
  match a, b with
  | Some x, Some y => if list_eq_dec string_dec x y then true else false
  | None, None => true
  | _, _ => false
  end.

(* The loop over the maplinks of one mapping: the names collected in
   [new], the dict [alter] and the last value of ex_idx_names. *)
Fixpoint collect_alter (existing_by_name : PyDict.t string ExIdx)
    (maplinks : list Item) (new : list string)
    (alter : PyDict.t (option (list string)) (list string))
    (last_names : option (list string))
    : result (list string * PyDict.t (option (list string)) (list string)
              * option (list string)) :=
  match maplinks with
  | [] => Ok (new, alter, last_names)
  | (maplink_name, orig_maplink_name, ex_idx_names) :: rest =>
      (* ex_idx = existing_by_name[ex_idx_names[0]] *)
      let* ex_idx :=
        match ex_idx_names with
        | Some (first :: _) =>
            match PyDict.get String.eqb existing_by_name first with
            | Some ex => Ok ex
            | None => Raise KeyError
            end
        | Some [] => Raise IndexError
        | None => Raise TypeError
        end in
      (* alter_links = alter.get(ex_idx_names), or set(ex_idx[1]);
         alter_links.discard(orig_maplink_name) *)
      let alter_links :=
        match PyDict.get names_eqb alter ex_idx_names with
        | Some links => links
        | None => snd ex_idx
        end in
      let discarded :=
        filter (fun l => match orig_maplink_name with
                         | Some o => negb (String.eqb l o)
                         | None => true
                         end) alter_links in
      collect_alter existing_by_name rest (new ++ [maplink_name])
                    (PyDict.set names_eqb alter ex_idx_names discarded)
                    ex_idx_names
  end.

(* for mapping, maplinks in alter_indexes.items(): ...
   [last_names] is ex_idx_names as the earlier loops left it. *)
Fixpoint emit_alter (existing_by_name : PyDict.t string ExIdx)
    (table_name : TableName) (alter_indexes : Queue)
    (members : list LinkMapping) (last_names : option (list string))
    : result (list IndexCommand) :=
  match members with
  | [] => Ok []
  | m :: rest =>
      let* (new, alter, last_names') :=
        collect_alter existing_by_name (alter_indexes m) [] [] last_names in
      let created :=
        match new with
        | [] => []
        | _ => [CreateMappingIndexes table_name m new]
        end in
      let altered :=
        map (fun kv => match snd kv with
                       | [] => DropMappingIndexes last_names' table_name m
                       | altlinks =>
                           AlterMappingIndexes (fst kv) table_name m altlinks
                       end) alter in
      let* more := emit_alter existing_by_name table_name alter_indexes rest
                              last_names' in
      Ok (created ++ altered ++ more)
  end.

(* The pass of apply over one entry (link_name, ops) of self.links, for
   the interpreted indexes [existing] of the table of the link. *)
Definition apply_link (table_name : TableName)
    (existing : list (string * ExIdx)) (ops : list (LinkOp * Proto))
    : result (list IndexCommand) :=
  let existing_by_name := PyDict.of_items String.eqb existing in
  let* st := process_ops existing_by_name
               (mkState empty_queue empty_queue []) ops in
  (* ex_idx_names, as the last AlterLink of the loop bound it *)
  let last_names :=
    fold_left (fun acc o => match fst o with
                            | AlterLink old => existing_get existing_by_name old
                            | _ => acc
                            end) ops None in
  let* altered := emit_alter existing_by_name table_name (alter_indexes st)
                             LinkMapping_members last_names in
  Ok (emit_new table_name (new_indexes st) ++ altered).

End MappingIndexes.

(** ** Type maps and rule registration: [BaseTypeMeta], [TypeInfoMeta],
    [FunctionMeta] of [schema/types.py] *)
Module TypeInfo.
Import TypeRules.
Local Open Scope string_scope.
Local Open Scope list_scope.

(* The three class-level dicts of BaseTypeMeta. *)
Record BaseTypeMeta := mkMeta {
  base_type_map : PyDict.t PyObj string;
  implementation_map : PyDict.t string PyObj;
  mixin_map : PyDict.t string (list PyObj)
}.

Definition empty_meta : BaseTypeMeta := mkMeta [] [] [].

(* cls.base_type_map[type] = caos_builtin_name *)
Definition add_mapping (m : BaseTypeMeta) (type : PyObj)
    (caos_builtin_name : string) : BaseTypeMeta :=
  mkMeta (PyDict.set PyObj_eqb (base_type_map m) type caos_builtin_name)
         (implementation_map m) (mixin_map m).

(* cls.base_type_map.get(type) *)
Definition type_to_caos_builtin (m : BaseTypeMeta) (type : PyObj)
    : option string :=
  PyDict.get PyObj_eqb (base_type_map m) type.

(* existing = cls.implementation_map.get(caos_name)
   if existing is not None: raise ValueError(msg)
   cls.implementation_map[caos_name] = type *)
Definition add_implementation (m : BaseTypeMeta) (caos_name : string)
    (type : PyObj) : result BaseTypeMeta :=
  match PyDict.get String.eqb (implementation_map m) caos_name with
  | Some PyNone | None =>
      Ok (mkMeta (base_type_map m)
                 (PyDict.set String.eqb (implementation_map m) caos_name type)
                 (mixin_map m))
  | Some _ => Raise ValueError
  end.

(* cls.implementation_map.get(caos_name) *)
Definition get_implementation (m : BaseTypeMeta) (caos_name : string) : PyObj :=
  match PyDict.get String.eqb (implementation_map m) caos_name with
  | Some type => type
  | None => PyNone
  end.

(* try: mixins = cls.mixin_map[caos_name]
   except KeyError: mixins = cls.mixin_map[caos_name] = []
   mixins.append(type) *)
Definition add_mixin (m : BaseTypeMeta) (caos_name : string) (type : PyObj)
    : BaseTypeMeta :=
  let mixins :=
    match PyDict.get String.eqb (mixin_map m) caos_name with
    | Some mixins => mixins
    | None => []
    end in
  mkMeta (base_type_map m) (implementation_map m)
         (PyDict.set String.eqb (mixin_map m) caos_name (mixins ++ [type])).

(* mixins = cls.mixin_map.get(caos_name)
   return tuple(mixins) if mixins else tuple() *)
Definition get_mixins (m : BaseTypeMeta) (caos_name : string) : list PyObj :=
  match PyDict.get String.eqb (mixin_map m) caos_name with
  | Some (x :: mixins) => x :: mixins
  | _ => []
  end.

(* An annotation of a parameter: one type or a tuple of alternatives. *)
Inductive Annotation :=
| One (type : PyObj)
| Alternatives (types : list PyObj).

(* if not isinstance(argtype, tuple): argtype = (argtype,) *)
Definition as_tuple (a : Annotation) : list PyObj :=
  match a with
  | One type => [type]
  | Alternatives types => types
  end.

(* itertools.product over the iterables: the tuples in lexicographic
   order. *)
Fixpoint product (iterables : list (list PyObj)) : list (list PyObj) :=
  match iterables with
  | [] => [[]]
  | pool :: rest => flat_map (fun x => map (cons x) (product rest)) pool
  end.

(* for i, arg in enumerate(itertools.chain(args.args, args.kwonlyargs)):
       if i == 0: argtypes.append((type,))
       else: argtype = args.annotations[arg]; ...; argtypes.append(argtype)
   [params] holds, for each parameter of the method, its annotation if
   it has one. *)
Fixpoint argtypes_from (i : nat) (type : PyObj)
    (params : list (option Annotation)) : result (list (list PyObj)) :=
  match params with
  | [] => Ok []
  | a :: rest =>
      let* this :=
        match i, a with
        | O, _ => Ok [type]
        | S _, Some ann => Ok (as_tuple ann)
        | S _, None => Raise KeyError
        end in
      let* more := argtypes_from (S i) type rest in
      Ok (this :: more)
  end.

(* The body of the loop of TypeInfoMeta.__new__ for one method that
   names an operator:
       result = args.annotations['return']
       for argt in itertools.product of the argtypes:
           TypeRules.add_rule(astop, argt, result) *)
Definition register_operator (rules : Rules) (astop : string) (type : PyObj)
    (params : list (option Annotation)) (return_annotation : option PyObj)
    : result Rules :=
  let* argtypes := argtypes_from 0 type params in
  match return_annotation with
  | None => Raise KeyError
  | Some result =>
      Ok (fold_left (fun r argt => add_rule r astop argt result)
                    (product argtypes) rules)
  end.

(* FunctionMeta.__new__:
       signature = (signature[0], (signature[1],) if signature[1] else (),
                    signature[2])
       TypeRules.add_rule of the signature
   [arg] is signature[1] when it is true. *)
Definition register_function (rules : Rules) (name : string)
    (arg : option PyObj) (result : PyObj) : Rules :=
  add_rule rules name (match arg with Some a => [a] | None => [] end) result.

End TypeInfo.

(** ** Table-alteration batches: [_get_multicommand], [get_alter_table],
    [_attach_multicommand] of [CompositePrototypeMetaCommand] *)
Module Batcher.
Local Open Scope string_scope.
Local Open Scope list_scope.
Local Open Scope Z_scope.

Definition TableName : Type := string * string.

Definition TableName_eqb (a b : TableName) : bool :=
  String.eqb (fst a) (fst b) && String.eqb (snd a) (snd b).

(* key = (object_name, priority, frozenset(cmdkwargs.items())); every
   call in the module passes cmdkwargs = {'contained': contained}. *)
Record Key := mkKey {
  object_name : TableName;
  key_priority : Z;
  contained : bool
}.

Definition Key_eqb (a b : Key) : bool :=
  TableName_eqb (object_name a) (object_name b) &&
  (key_priority a =? key_priority b) &&
  Bool.eqb (contained a) (contained b).

(* The operations that the callers below add to an ALTER TABLE. *)
Inductive Operation :=
| AlterTableAlterColumnDefault (column_name : string) (default : option string).

(* A command made by cmdtype(object_name, priority=priority, **cmdkwargs),
   with the operations added to it since. *)
Record Cmd := mkCmd {
  cmd_type : string;
  cmd_name : TableName;
  cmd_priority : Z;
  cmd_contained : bool;
  operations : list Operation
}.

(* Commands are objects: a command is known by the position at which it
   was allocated in [heap], so that the registry and pgops can hold the
   same command. *)
Inductive PgItem :=
| Batch (id : nat)
| Other (name : string).

Definition PgItem_eqb (a b : PgItem) : bool :=
  match a, b with
  | Batch i, Batch j => Nat.eqb i j
  | Other x, Other y => String.eqb x y
  | _, _ => false
  end.

Record Self := mkSelf {
  table_name : option TableName;
  _multicommands : PyDict.t string (PyDict.t Key (list nat));
  pgops : list PgItem;
  heap : list Cmd
}.

(* commands[-1] *)
Definition list_last (l : list nat) : result nat :=
  match rev l with
  | [] => Raise IndexError
  | x :: _ => Ok x
  end.

Definition _get_multicommand (self : Self) (cmdtype : string)
    (object_name : TableName) (priority : Z) (force_new manual : bool)
    (cmdkwargs : bool) : result (nat * Self) :=
  let key := mkKey object_name priority cmdkwargs in
  (* try: typecommands = self._multicommands[cmdtype]
     except KeyError: typecommands = self._multicommands[cmdtype] = {} *)
  let typecommands :=
    match PyDict.get String.eqb (_multicommands self) cmdtype with
    | Some tc => tc
    | None => []
    end in
  let registry :=
    match PyDict.get String.eqb (_multicommands self) cmdtype with
    | Some _ => _multicommands self
    | None => PyDict.set String.eqb (_multicommands self) cmdtype []
    end in
  let commands := PyDict.get Key_eqb typecommands key in
  let is_none := match commands with None => true | Some _ => false end in
  if is_none || force_new || manual then
    (* command = cmdtype(object_name, priority=priority, **cmdkwargs) *)
    let command := List.length (heap self) in
    let heap' := heap self ++ [mkCmd cmdtype object_name priority cmdkwargs []] in
    if negb manual then
      let commands' := match commands with Some l => l | None => [] end in
      Ok (command,
          mkSelf (table_name self)
                 (PyDict.set String.eqb registry cmdtype
                    (PyDict.set Key_eqb typecommands key (commands' ++ [command])))
                 (pgops self) heap')
    else Ok (command, mkSelf (table_name self) registry (pgops self) heap')
  else
    let* command := list_last (match commands with Some l => l | None => [] end) in
    Ok (command, mkSelf (table_name self) registry (pgops self) (heap self)).

(* [ctx_table] is common.get_table_name(ctx.proto, catenate=False) of
   the context of the command, when there is one. *)
Definition get_alter_table (self : Self) (ctx_table : option TableName)
    (priority : Z) (force_new contained manual : bool)
    (table_name_arg : option TableName) : result (nat * Self) :=
  (* tabname = table_name if table_name else self.table_name *)
  let tabname :=
    match table_name_arg with
    | Some t => Some t
    | None => table_name self
    end in
  let* (tabname', self') :=
    match tabname with
    | Some t => Ok (t, self)
    | None =>
        (* assert ctx; tabname = common.get_table_name(ctx.proto, ...)
           if table_name is None: self.table_name = tabname *)
        match ctx_table with
        | None => Raise AssertionError
        | Some t =>
            Ok (t, mkSelf (Some t) (_multicommands self) (pgops self) (heap self))
        end
    end in
  _get_multicommand self' "AlterTable" tabname' priority force_new manual
                    contained.

(* alter_table.add_operation(op) on the command [id] *)
Definition add_operation (self : Self) (id : nat) (op : Operation) : Self :=
  mkSelf (table_name self) (_multicommands self) (pgops self)
         (map (fun ic => if Nat.eqb (fst ic) id
                         then mkCmd (cmd_type (snd ic)) (cmd_name (snd ic))
                                    (cmd_priority (snd ic))
                                    (cmd_contained (snd ic))
                                    (operations (snd ic) ++ [op])
                         else snd ic)
              (combine (seq 0 (List.length (heap self))) (heap self))).

(* OrderedSet.add and OrderedSet.update *)
Definition ordered_add (s : list PgItem) (x : PgItem) : list PgItem :=
  if existsb (PgItem_eqb x) s then s else s ++ [x].

Definition ordered_update (s : list PgItem) (l : list PgItem) : list PgItem :=
  fold_left ordered_add l s.

Definition no_cmd : Cmd := mkCmd "" ("", "") 0 false [].

(* i.priority of a command *)
Definition priority_of (self : Self) (id : nat) : Z :=
  cmd_priority (nth id (heap self) no_cmd).

(* commands = list(itertools.chain.from_iterable(typecommands.values()))
   if commands:
       commands = sorted(commands, key=lambda i: i.priority)
       self.pgops.update(commands) *)
Definition _attach_multicommand (self : Self) (cmdtype : string) : Self :=
  match PyDict.get String.eqb (_multicommands self) cmdtype with
  | None => self
  | Some typecommands =>
      let commands := List.concat (map snd typecommands) in
      let sorted :=
        map snd (Scheduler.sorted_by_key
                   (map (fun id => (priority_of self id, id)) commands)) in
      mkSelf (table_name self) (_multicommands self)
             (ordered_update (pgops self) (map Batch sorted)) (heap self)
  end.

Definition attach_alter_table (self : Self) : Self :=
  _attach_multicommand self "AlterTable".

(* A command as __init__ leaves it. *)
Definition new_self : Self := mkSelf None [] [] [].

(* alter_table = self.get_alter_table(context, priority=..., contained=...)
   alter_table.add_operation(op) *)
Definition add_to_alter_table (self : Self) (ctx_table : option TableName)
    (priority : Z) (contained : bool) (op : Operation) : result Self :=
  let* (alter_table, self1) :=
    get_alter_table self ctx_table priority false contained false None in
  Ok (add_operation self1 alter_table op).

(* What affirm_pointer_defaults reads of a pointer of the source. *)
Record Pointer := mkPointer {
  pointer_name : string;
  generic : bool;
  atomic : bool;
  singular : bool;
  default : option (list AtomTypeChange.DefaultItem)
}.

(* list(filter(lambda i: not isinstance(i, s_expr.ExpressionText), default)) *)
Definition literals (default : list AtomTypeChange.DefaultItem) : list string :=
  flat_map (fun i => match i with
                     | AtomTypeChange.Literal v => [v]
                     | AtomTypeChange.ExpressionText _ => []
                     end) default.

Section Defaults.
(* common.caos_name_to_pg_name(name) *)
Variable caos_name_to_pg_name : string -> string.

(* The body of the loop of affirm_pointer_defaults. *)
Definition affirm_pointer_default (ctx_table : option TableName)
    (self : Self) (pointer : Pointer) : result Self :=
  let without_default :=
    match default pointer with
    | None | Some [] => true
    | Some (_ :: _) => false
    end in
  if generic pointer || negb (atomic pointer) || negb (singular pointer)
     || without_default
  then Ok self
  else
    match literals (match default pointer with Some d => d | None => [] end) with
    | [] => Ok self
    | first :: _ =>
        add_to_alter_table self ctx_table 3 true
          (AlterTableAlterColumnDefault
             (caos_name_to_pg_name (pointer_name pointer)) (Some first))
    end.

(* for pointer_name, pointer in source.pointers.items(): ... *)
Definition affirm_pointer_defaults (self : Self)
    (ctx_table : option TableName) (pointers : list Pointer) : result Self :=
  fold_left (fun r pointer =>
               let* self' := r in affirm_pointer_default ctx_table self' pointer)
            pointers (Ok self).

(* alter_pointer_default of a pointer command; [source_op] is the command
   of the source, source_ctx.op, [updates_default] is
   self.updates.get('default')[1] when the updates hold a default, and
   [normal_name] is pointer.normal_name(). *)
Definition alter_pointer_default (source_op : Self)
    (ctx_table : option TableName)
    (updates_default : option (option (list AtomTypeChange.DefaultItem)))
    (normal_name : string) : result Self :=
  match updates_default with
  | None => Ok source_op
  | Some default =>
      let decided :=
        match default with
        | None | Some [] => Some None
        | Some (x :: l) =>
            match literals (x :: l) with
            | first :: _ => Some (Some first)
            | [] => None
            end
        end in
      match decided with
      | None => Ok source_op
      | Some new_default =>
          add_to_alter_table source_op ctx_table 3 true
            (AlterTableAlterColumnDefault (caos_name_to_pg_name normal_name)
                                          new_default)
      end
  end.
End Defaults.

End Batcher.

(** ** Scheduling of mapping index updates: [schedule_mapping_update],
    [cancel_mapping_update] and the link commands that call them *)
Module MappingSchedule.
Import MappingIndexes.
Local Open Scope string_scope.
Local Open Scope list_scope.

(* update_mapping_indexes.links: link name -> [(op, link)] *)
Definition Links : Type := PyDict.t string (list (LinkOp * Proto)).

(* The commands that the two methods add to the pgops of the link
   command. *)
Inductive Marker := ScheduleLinkMappingUpdate | CancelLinkMappingUpdate.

(* What the methods change: the links of the realm's
   update_mapping_indexes and the pgops of the link command. *)
Record State := mkState { links : Links; pgops : list Marker }.

(* d.pop(k, None) *)
Fixpoint pop (d : Links) (k : string) : Links :=
  match d with
  | [] => []
  | (k', v) :: d' => if String.eqb k k' then d' else (k', v) :: pop d' k
  end.

(* [has_table] is self.has_table(link, schema). *)
Definition schedule_mapping_update (has_table : bool) (self : LinkOp)
    (link : Proto) (st : State) : State :=
  if has_table then
    (* ops = mapping_indexes.links.get(link.name)
       if not ops: mapping_indexes.links[link.name] = ops = []
       ops.append((self, link)) *)
    let ops :=
      match PyDict.get String.eqb (links st) (name link) with
      | Some (x :: l) => x :: l
      | _ => []
      end in
    mkState (PyDict.set String.eqb (links st) (name link) (ops ++ [(self, link)]))
            (pgops st ++ [ScheduleLinkMappingUpdate])
  else st.

Definition cancel_mapping_update (link : Proto) (st : State) : State :=
  mkState (pop (links st) (name link)) (pgops st ++ [CancelLinkMappingUpdate]).

(* The end of CreateLink.apply:
   if not link.generic() and link.mapping != s_links.LinkMapping.ManyToMany:
       self.schedule_mapping_update(link, schema, context) *)
Definition CreateLink_schedule (generic has_table : bool) (link : Proto)
    (st : State) : State :=
  if negb generic && negb (LinkMapping_eqb (mapping link) ManyToMany)
  then schedule_mapping_update has_table CreateLink link st
  else st.

(* The end of AlterLink.apply:
   if not link.generic() and old_link.mapping != link.mapping:
       self.schedule_mapping_update(link, schema, context) *)
Definition AlterLink_schedule (generic has_table : bool) (old_link link : Proto)
    (st : State) : State :=
  if negb generic && negb (LinkMapping_eqb (mapping old_link) (mapping link))
  then schedule_mapping_update has_table (AlterLink (name old_link)) link st
  else st.

(* The end of DeleteLink.apply:
   self.cancel_mapping_update(result, schema, context)
   if not result.generic() and result.mapping != s_links.LinkMapping.ManyToMany:
       self.schedule_mapping_update(result, schema, context) *)
Definition DeleteLink_schedule (generic has_table : bool) (result : Proto)
    (st : State) : State :=
  let st1 := cancel_mapping_update result st in
  if negb generic && negb (LinkMapping_eqb (mapping result) ManyToMany)
  then schedule_mapping_update has_table DeleteLink result st1
  else st1.

End MappingSchedule.

(** ** Renaming the table of a concept or a link:
    [CompositePrototypeMetaCommand.rename] *)
Module Rename.
Local Open Scope string_scope.
Local Open Scope list_scope.

(* sn.Name: the module and the name within it *)
Record Name := mkName { module : string; name : string }.

Definition TableName : Type := string * string.

Inductive Condition := TableExists (table_name : TableName).

Inductive PgOp :=
(* dbops.Update(table=self.table, record=record(name=str(new_name)),
                condition=[('name', str(old_name))]) *)
| Update (new_name old_name : string)
| AlterTableSetSchema (table_name : TableName) (schema : string)
                      (conditions : list Condition)
| AlterTableRenameTo (table_name : TableName) (new_name : string)
                     (conditions : list Condition).

Section Rename.
(* common.link_name_to_table_name(n, catenate=False) and
   common.concept_name_to_table_name(n, catenate=False) *)
Variable link_name_to_table_name : Name -> TableName.
Variable concept_name_to_table_name : Name -> TableName.
(* str(n) *)
Variable str : Name -> string.

(* NamedPrototypeMetaCommand.rename *)
Definition NamedPrototypeMetaCommand_rename (pgops : list PgOp)
    (old_name new_name : Name) : list PgOp :=
  pgops ++ [Update (str new_name) (str old_name)].

(* [obj_is_link] is: obj is not None and isinstance(obj, s_links.Link) *)
Definition rename (pgops : list PgOp) (old_name new_name : Name)
    (obj_is_link : bool) : list PgOp :=
  let pgops0 := NamedPrototypeMetaCommand_rename pgops old_name new_name in
  let old_table_name :=
    if obj_is_link then link_name_to_table_name old_name
    else concept_name_to_table_name old_name in
  let new_table_name :=
    if obj_is_link then link_name_to_table_name new_name
    else concept_name_to_table_name new_name in
  let cond := TableExists old_table_name in
  (* if old_name.module != new_name.module: *)
  let '(pgops1, old_table_name1, cond1) :=
    if negb (String.eqb (module old_name) (module new_name)) then
      let moved := (fst new_table_name, snd old_table_name) in
      (pgops0 ++ [AlterTableSetSchema old_table_name (fst new_table_name) [cond]],
       moved, TableExists moved)
    else (pgops0, old_table_name, cond) in
  (* if old_name.name != new_name.name: *)
  if negb (String.eqb (name old_name) (name new_name)) then
    pgops1 ++ [AlterTableRenameTo old_table_name1 (snd new_table_name) [cond1]]
  else pgops1.
End Rename.

Definition TableName_eqb (a b : TableName) : bool :=
  String.eqb (fst a) (fst b) && String.eqb (snd a) (snd b).

(** Modelled from the spec: [dbops] and the backend are not under src.
    The backend is followed through the one table that the command is
    about: [Some t] when it exists, under the name t.  An operation
    whose condition does not hold is omitted; ALTER TABLE ... SET SCHEMA
    and ALTER TABLE ... RENAME TO change the schema and the name of the
    table they are given, and the backend refuses them for a table that
    is not there. *)
Definition holds (table : option TableName) (c : Condition) : bool :=
  match c, table with
  | TableExists t, Some cur => TableName_eqb t cur
  | TableExists _, None => false
  end.

Definition op_execute (op : PgOp) (table : option TableName)
    : result (option TableName) :=
  match op with
  | Update _ _ => Ok table
  | AlterTableSetSchema t s conds =>
      if forallb (holds table) conds then
        match table with
        | Some cur => if TableName_eqb t cur then Ok (Some (s, snd cur))
                      else Raise BackendRejection
        | None => Raise BackendRejection
        end
      else Ok table
  | AlterTableRenameTo t n conds =>
      if forallb (holds table) conds then
        match table with
        | Some cur => if TableName_eqb t cur then Ok (Some (fst cur, n))
                      else Raise BackendRejection
        | None => Raise BackendRejection
        end
      else Ok table
  end.

Definition execute (pgops : list PgOp) (table : option TableName)
    : result (option TableName) :=
  fold_left (fun r op => let* t := r in op_execute op t) pgops (Ok table).

End Rename.

(** ** Prototype names of types: [proto_name_from_type] and
    [normalize_type] of [schema/types.py] *)
Module TypeNames.
Import TypeRules TypeInfo.
Local Open Scope string_scope.
Local Open Scope list_scope.

(* What the functions handle as the name of a prototype: the value of a
   name attribute or of the type map, a prototype class, or None. *)
Inductive ProtoName :=
| Named (name : string)
| Class (cls : PyObj)
| NoName.

(* not proto_name *)
Definition falsy (n : ProtoName) : bool :=
  match n with
  | Named s => String.eqb s ""
  | Class _ => false
  | NoName => true
  end.

(* The branch of the isinstance chain that takes an item. *)
Inductive Kind :=
| IsNone             (* item_type is None or item_type is type(None) *)
| IsProtoNode        (* isinstance(item_type, so.ProtoNode) *)
| IsPointer          (* isinstance(item_type, s_pointers.Pointer) *)
| IsPrototypeClass   (* isinstance(item_type, so.PrototypeClass) *)
| IsOther.

(* What the functions read of an item type. *)
Record Item := mkItem {
  kind : Kind;
  self : PyObj;                     (* the item, as a dict key and a value *)
  item_name : ProtoName;            (* item_type.name *)
  (* the name of __sx_prototype__ of the item, when the item is a type
     and has the attribute, or of the class of the item, when the item
     is no type and its class has it *)
  sx_prototype : option ProtoName
}.

(* typ: a tuple or a single item *)
Inductive Typ :=
| Single (item_type : Item)
| Tuple (items : list Item).

(* The value returned: a name, or (container_type, name). *)
Inductive Named_ (A : Type) :=
| Plain (a : A)
| Composite (container_type : Item) (a : A).
Arguments Plain {A} a.
Arguments Composite {A} container_type a.

Inductive raised :=
| SchemaError          (* s_err.SchemaError *)
| Python (e : exn).

(* raise s_err.SchemaError('could not find matching prototype for %r' % typ):
   a tuple on the right of % is the argument list of the format; only a
   tuple of one item fits the single %r, and for any other % raises
   TypeError before the SchemaError is made. *)
Definition could_not_find (typ : Typ) : raised :=
  match typ with
  | Single _ => SchemaError
  | Tuple [_] => SchemaError
  | Tuple _ => Python TypeError
  end.

(* The body of proto_name_from_type once item_type is set. *)
Definition proto_name_of_item (m : BaseTypeMeta) (typ : Typ) (item_type : Item)
    : raised + ProtoName :=
  let proto_name :=
    match kind item_type with
    | IsNone => Named "metamagic.caos.builtins.none"
    | IsProtoNode => item_name item_type
    | IsPointer => item_name item_type
    | IsPrototypeClass => Class (self item_type)
    | IsOther =>
        match type_to_caos_builtin m (self item_type) with
        | Some n => Named n
        | None => NoName
        end
    end in
  (* if not proto_name: ... proto_name = <...>.__sx_prototype__.name *)
  let proto_name :=
    if falsy proto_name then
      match sx_prototype item_type with
      | Some n => n
      | None => proto_name
      end
    else proto_name in
  (* if proto_name is None: raise s_err.SchemaError(... % typ) *)
  match proto_name with
  | NoName => inl (could_not_find typ)
  | n => inr n
  end.

Definition proto_name_from_type (m : BaseTypeMeta) (typ : Typ)
    : raised + Named_ ProtoName :=
  match typ with
  | Tuple items =>
      (* container_type = typ[0]; item_type = typ[1] *)
      match items with
      | container_type :: item_type :: _ =>
          match proto_name_of_item m typ item_type with
          | inr n => inr (Composite container_type n)
          | inl e => inl e
          end
      | _ => inl (Python IndexError)
      end
  | Single item_type =>
      match proto_name_of_item m typ item_type with
      | inr n => inr (Plain n)
      | inl e => inl e
      end
  end.

Section NormalizeType.
(* proto_schema.get(name) *)
Variable proto_schema_get : ProtoName -> PyObj.

(* item_proto of normalize_type *)
Definition item_proto_of (item_proto_name : ProtoName) : PyObj :=
  match item_proto_name with
  | Class cls => cls
  | n => proto_schema_get n
  end.

Definition normalize_type (m : BaseTypeMeta) (type : Typ)
    : raised + Named_ PyObj :=
  match proto_name_from_type m type with
  | inl e => inl e
  (* if proto_name is None: raise s_err.SchemaError(... % type) *)
  | inr (Plain NoName) => inl (could_not_find type)
  | inr (Plain n) => inr (Plain (item_proto_of n))
  | inr (Composite container_type n) =>
      inr (Composite container_type (item_proto_of n))
  end.
End NormalizeType.

End TypeNames.

(** ** Indexes grouped by link: [_group_indexes] and [group_indexes] of
    [UpdateMappingIndexes] *)
Module IndexGroups.
Import MappingIndexes.
Local Open Scope string_scope.
Local Open Scope list_scope.

(* for index_name, (mapping, link_names) in indexes:
       for link_name in link_names:
           yield link_name, index_name *)
Definition _group_indexes (indexes : list (string * ExIdx))
    : list (string * string) :=
  flat_map (fun i => map (fun link_name => (link_name, fst i)) (snd (snd i)))
           indexes.

(* sorted(pairs, key=lambda i: i[0]): a stable sort on the link name *)
Fixpoint insert_by_name (x : string * string) (l : list (string * string))
    : list (string * string) :=
  match l with
  | [] => [x]
  | y :: l' =>
      if String.leb (fst x) (fst y) then x :: y :: l'
      else y :: insert_by_name x l'
  end.

Definition sorted_by_name (l : list (string * string))
    : list (string * string) :=
  fold_right insert_by_name [] l.

(* itertools.groupby(pairs, key=lambda i: i[0]): the runs of consecutive
   pairs with one key, each under its key *)
Fixpoint groupby (l : list (string * string))
    : list (string * list (string * string)) :=
  match l with
  | [] => []
  | x :: l' =>
      match groupby l' with
      | (k, g) :: rest =>
          if String.eqb (fst x) k then (k, x :: g) :: rest
          else (fst x, [x]) :: (k, g) :: rest
      | [] => [(fst x, [x])]
      end
  end.

(* for link_name, indexes in grouped:
       yield link_name, tuple(i[1] for i in indexes) *)
Definition group_indexes (indexes : list (string * ExIdx))
    : list (string * list string) :=
  map (fun kg => (fst kg, map snd (snd kg)))
      (groupby (sorted_by_name (_group_indexes indexes))).

(* existing = dict(self.group_indexes(existing_by_name.items())) *)
Definition existing (existing_by_name : PyDict.t string ExIdx)
    : PyDict.t string (list string) :=
  PyDict.of_items String.eqb (group_indexes existing_by_name).

End IndexGroups.

(** ** Link prototypes as objects: what the queue of
    [schedule_mapping_update] holds when [UpdateMappingIndexes.apply]
    reads it.  [MappingSchedule] files a link with the attributes it has
    when it is scheduled, which is what the pass reads of a link that is
    not changed afterwards; here the queue holds the link itself, and a
    later alter shows in every entry of the link. *)
Module LiveLinks.
Import MappingIndexes.
Local Open Scope string_scope.
Local Open Scope list_scope.

(* A link prototype is an object of the schema.  A command holds the
   object, not a copy, and reads its attributes when it uses them. *)
Definition Ref : Type := nat.

(* The attributes of each object. *)
Definition Heap : Type := Ref -> Proto.


(* update_mapping_indexes.links: link name -> [(op, link)] *)
Definition Links : Type := PyDict.t string (list (LinkOp * Ref)).

Record Realm := mkRealm { heap : Heap; links : Links }.

(* [has_table] is self.has_table(link, schema).
   ops = mapping_indexes.links.get(link.name)
   if not ops: mapping_indexes.links[link.name] = ops = []
   ops.append((self, link)) *)
Definition schedule_mapping_update (has_table : bool) (self : LinkOp)
    (link : Ref) (st : Realm) : Realm :=
  if has_table then
    let link_name := name (heap st link) in
    let ops :=
      match PyDict.get String.eqb (links st) link_name with
      | Some (x :: l) => x :: l
      | _ => []
      end in
    mkRealm (heap st)
            (PyDict.set String.eqb (links st) link_name (ops ++ [(self, link)]))
  else st.

(* The end of CreateLink.apply:
   if not link.generic() and link.mapping != s_links.LinkMapping.ManyToMany:
       self.schedule_mapping_update(link, schema, context) *)
Definition CreateLink_schedule (generic has_table : bool) (link : Ref)
    (st : Realm) : Realm :=
  if negb generic && negb (LinkMapping_eqb (mapping (heap st link)) ManyToMany)
  then schedule_mapping_update has_table CreateLink link st
  else st.



(* for op, proto in ops: proto.name and proto.mapping are those that the
   object has when apply runs. *)
Definition read (h : Heap) (ops : list (LinkOp * Ref)) : list (LinkOp * Proto) :=
  map (fun o => (fst o, h (snd o))) ops.

Section Apply.
(* common.link_name_to_table_name(link_name, catenate=False) *)
Variable link_name_to_table_name : string -> TableName.
(* indexes.get(table_name), interpreted; a table without entry has no
   index *)
Variable indexes : TableName -> list (string * ExIdx).

(* for link_name, ops in self.links.items(): ...
   ex_idx_names is bound anew by the loop over the maplinks before the
   one place that reads it, so that the value one entry leaves does not
   reach the next. *)
Fixpoint apply_entries (h : Heap) (entries : Links)
    : result (list IndexCommand) :=
  match entries with
  | [] => Ok []
  | (link_name, ops) :: rest =>
      let table_name := link_name_to_table_name link_name in
      let* commands := apply_link table_name (indexes table_name) (read h ops) in
      let* more := apply_entries h rest in
      Ok (commands ++ more)
  end.

(* UpdateMappingIndexes.apply, by the commands added to pgops *)
Definition apply (st : Realm) : result (list IndexCommand) :=
  apply_entries (heap st) (links st).
End Apply.

End LiveLinks.

(** * Properties *)

(** ** Facts about dictionaries *)
Module PyDictFacts.
Section Facts.
Variables K V : Type.
Variable eqb : K -> K -> bool.
Hypothesis eqb_eq : forall a b, eqb a b = true <-> a = b.

Lemma eqb_refl k : eqb k k = true.
Proof. now apply eqb_eq. Qed.

Lemma eqb_neq a b : a <> b -> eqb a b = false.
Proof.
  intros Hn. destruct (eqb a b) eqn:E; [|reflexivity].
  apply eqb_eq in E. contradiction.
Qed.

Lemma get_set_same (d : PyDict.t K V) k v :
  PyDict.get eqb (PyDict.set eqb d k v) k = Some v.
Proof.
  induction d as [|[k' v'] d IH]; simpl.
  - now rewrite eqb_refl.
  - destruct (eqb k k') eqn:E; simpl; rewrite E; auto.
Qed.

Lemma get_set_other (d : PyDict.t K V) k k' v :
  k <> k' ->
  PyDict.get eqb (PyDict.set eqb d k v) k' = PyDict.get eqb d k'.
Proof.
  intros Hn. induction d as [|[k0 v0] d IH]; simpl.
  - rewrite (eqb_neq (not_eq_sym Hn)). reflexivity.
  - destruct (eqb k k0) eqn:E; simpl.
    + apply eqb_eq in E. subst k0.
      now rewrite (eqb_neq (not_eq_sym Hn)).
    + destruct (eqb k' k0); auto.
Qed.

Lemma get_None_keys (d : PyDict.t K V) k :
  PyDict.get eqb d k = None <-> ~ In k (PyDict.keys d).
Proof.
  induction d as [|[k' v'] d IH]; simpl.
  - tauto.
  - destruct (eqb k k') eqn:E.
    + apply eqb_eq in E. subst. split; [discriminate | tauto].
    + rewrite IH. split.
      * intros Hn [He|Hi]; [subst; rewrite eqb_refl in E; discriminate | tauto].
      * tauto.
Qed.

Lemma get_Some_In (d : PyDict.t K V) k v :
  PyDict.get eqb d k = Some v -> In (k, v) d.
Proof.
  induction d as [|[k' v'] d IH]; simpl; [discriminate|].
  destruct (eqb k k') eqn:E.
  - apply eqb_eq in E. subst. intros [= ->]. now left.
  - auto.
Qed.

Lemma In_get (d : PyDict.t K V) k v :
  NoDup (PyDict.keys d) -> In (k, v) d -> PyDict.get eqb d k = Some v.
Proof.
  induction d as [|[k' v'] d IH]; simpl; [tauto|].
  intros Hnd [He|Hi].
  - inversion He; subst. now rewrite eqb_refl.
  - inversion Hnd as [|? ? Hni Hnd']; subst.
    destruct (eqb k k') eqn:E.
    + apply eqb_eq in E. subst. exfalso. apply Hni.
      change k' with (fst (k', v)). now apply in_map.
    + auto.
Qed.

Lemma keys_set (d : PyDict.t K V) k v :
  PyDict.keys (PyDict.set eqb d k v) =
  match PyDict.get eqb d k with
  | Some _ => PyDict.keys d
  | None => PyDict.keys d ++ [k]
  end.
Proof.
  induction d as [|[k' v'] d IH]; simpl; [reflexivity|].
  destruct (eqb k k') eqn:E; simpl; [reflexivity|].
  rewrite IH. now destruct (PyDict.get eqb d k).
Qed.

Lemma NoDup_keys_set (d : PyDict.t K V) k v :
  NoDup (PyDict.keys d) -> NoDup (PyDict.keys (PyDict.set eqb d k v)).
Proof.
  intros Hnd. rewrite keys_set.
  destruct (PyDict.get eqb d k) eqn:G; [assumption|].
  apply get_None_keys in G.
  apply NoDup_rev in Hnd. rewrite <- (rev_involutive (_ ++ _)).
  apply NoDup_rev. rewrite rev_app_distr. simpl. constructor; auto.
  now rewrite <- in_rev.
Qed.

Lemma get_Permutation (d d' : PyDict.t K V) k :
  NoDup (PyDict.keys d) -> Permutation d' d ->
  PyDict.get eqb d' k = PyDict.get eqb d k.
Proof.
  intros Hnd Hp.
  assert (Hnd' : NoDup (PyDict.keys d')).
  { eapply Permutation_NoDup; [|exact Hnd].
    apply Permutation_map, Permutation_sym, Hp. }
  destruct (PyDict.get eqb d k) eqn:G.
  - apply In_get; auto. apply get_Some_In in G.
    eapply Permutation_in; [apply Permutation_sym; exact Hp | exact G].
  - apply get_None_keys. apply get_None_keys in G. intros Hi. apply G.
    eapply Permutation_in; [|exact Hi]. now apply Permutation_map.
Qed.
End Facts.
End PyDictFacts.

(** ** The execution scheduler *)
Module SchedulerSpec.
Import Scheduler.
Local Open Scope Z_scope.

Lemma Zeqb_eq : forall a b : Z, Z.eqb a b = true <-> a = b.
Proof. intros; apply Z.eqb_eq. Qed.

Lemma PgOp_nested_ind (P : PgOp -> Prop) :
  (forall o, P (Physical o)) ->
  (forall pgops, Forall P pgops -> P (Meta pgops)) ->
  forall op, P op.
Proof.
  intros HP HM. fix IH 1. intros [o|pgops].
  - apply HP.
  - apply HM. induction pgops as [|x xs IHxs]; constructor; auto.
Qed.

(** The recursive walk enqueues the operations in depth-first order. *)
Lemma serialize_op_discovered op :
  forall q, _serialize_op op q = fold_left enqueue (discovered op) q.
Proof.
  induction op as [o|pgops IH] using PgOp_nested_ind; intros q; simpl.
  - reflexivity.
  - revert q. induction IH as [|x xs Hx _ IHxs]; intros q; simpl.
    + reflexivity.
    + rewrite fold_left_app, <- Hx. apply IHxs.
Qed.

Lemma serialize_ops_discovered pgops :
  forall q, _serialize_ops pgops q = fold_left enqueue (discovered_all pgops) q.
Proof.
  unfold _serialize_ops, discovered_all.
  induction pgops as [|x xs IH]; intros q; simpl.
  - reflexivity.
  - rewrite fold_left_app, <- serialize_op_discovered. apply IH.
Qed.

Definition bucket (p : Z) (l : list DbOp) := filter (has_priority p) l.

(** What the queues hold after the operations [l] were enqueued. *)
Definition queues_of (q : Queues) (l : list DbOp) : Prop :=
  NoDup (PyDict.keys q) /\
  forall p, PyDict.get Z.eqb q p =
            match bucket p l with [] => None | b => Some b end.

Lemma bucket_snoc p l o :
  bucket p (l ++ [o]) = bucket p l ++ (if priority o =? p then [o] else []).
Proof. unfold bucket. rewrite filter_app. reflexivity. Qed.

Lemma enqueue_queues_of q l o :
  queues_of q l -> queues_of (enqueue q o) (l ++ [o]).
Proof.
  intros [Hnd Hget]. split.
  - unfold enqueue. destruct (PyDict.get Z.eqb q (priority o)) as [[|x b]|];
      now apply PyDictFacts.NoDup_keys_set with (1 := Zeqb_eq).
  - intros p. rewrite bucket_snoc.
    assert (Hq : exists b, enqueue q o =
                  PyDict.set Z.eqb q (priority o) (b ++ [o]) /\
                  b = bucket (priority o) l).
    { unfold enqueue. rewrite (Hget (priority o)).
      destruct (bucket (priority o) l) as [|x b]; eexists; split; reflexivity. }
    destruct Hq as (b & -> & ->).
    destruct (Z.eqb_spec (priority o) p) as [<-|Hn].
    + rewrite PyDictFacts.get_set_same by exact Zeqb_eq.
      destruct (bucket (priority o) l); reflexivity.
    + rewrite PyDictFacts.get_set_other by (exact Zeqb_eq || assumption).
      rewrite app_nil_r. apply Hget.
Qed.

Lemma fold_enqueue_queues_of l2 :
  forall q l1, queues_of q l1 -> queues_of (fold_left enqueue l2 q) (l1 ++ l2).
Proof.
  induction l2 as [|o l2 IH]; intros q l1 H; simpl.
  - now rewrite app_nil_r.
  - replace (l1 ++ o :: l2) with ((l1 ++ [o]) ++ l2)
      by (rewrite <- app_assoc; reflexivity).
    apply IH. now apply enqueue_queues_of.
Qed.

Lemma queues_of_serialize pgops :
  queues_of (_serialize_ops pgops []) (discovered_all pgops).
Proof.
  rewrite serialize_ops_discovered.
  apply (fold_enqueue_queues_of (discovered_all pgops) (q:=[]) (l1:=[])).
  split; [constructor | reflexivity].
Qed.

(** The sort is a permutation and orders the keys. *)
Lemma insert_by_key_Permutation V (x : Z * V) l :
  Permutation (insert_by_key x l) (x :: l).
Proof.
  induction l as [|y l IH]; simpl; [reflexivity|].
  destruct (fst x <=? fst y); [reflexivity|].
  rewrite IH. apply perm_swap.
Qed.

Lemma sorted_by_key_Permutation V (l : list (Z * V)) :
  Permutation (sorted_by_key l) l.
Proof.
  induction l as [|x l IH]; simpl; [reflexivity|].
  rewrite insert_by_key_Permutation. now constructor.
Qed.

Definition key_le V (a b : Z * V) : Prop := fst a <= fst b.

Lemma insert_by_key_Sorted V (x : Z * V) l :
  StronglySorted (@key_le V) l -> StronglySorted (@key_le V) (insert_by_key x l).
Proof.
  induction 1 as [|y l Hs IH Hall]; simpl.
  - repeat constructor.
  - destruct (Z.leb_spec (fst x) (fst y)) as [Hle|Hgt].
    + constructor; [constructor; assumption|].
      constructor; [exact Hle|].
      eapply Forall_impl; [|exact Hall].
      unfold key_le. intros; lia.
    + constructor; [assumption|].
      eapply Permutation_Forall;
        [apply Permutation_sym, insert_by_key_Permutation|].
      constructor; [unfold key_le; lia | assumption].
Qed.

Lemma sorted_by_key_Sorted V (l : list (Z * V)) :
  StronglySorted (@key_le V) (sorted_by_key l).
Proof.
  induction l; simpl; [constructor | now apply insert_by_key_Sorted].
Qed.

(** Flattening queues whose entries all carry the priority of their key. *)
Definition well_keyed (s : Queues) : Prop :=
  forall k v, In (k, v) s -> Forall (fun o => priority o = k) v.

Lemma filter_all_same p k (v : list DbOp) :
  Forall (fun o => priority o = k) v ->
  filter (has_priority p) v = if k =? p then v else [].
Proof.
  induction 1 as [|o v Ho _ IH]; simpl.
  - now destruct (k =? p).
  - unfold has_priority at 1. rewrite Ho, IH. now destruct (k =? p).
Qed.

Lemma filter_flatten (s : Queues) p :
  NoDup (PyDict.keys s) -> well_keyed s ->
  filter (has_priority p) (List.concat (map snd s)) =
  match PyDict.get Z.eqb s p with Some v => v | None => [] end.
Proof.
  induction s as [|[k v] s IH]; intros Hnd Hwk; simpl; [reflexivity|].
  inversion Hnd as [|? ? Hni Hnd']; subst.
  assert (Hwk' : well_keyed s) by (intros k' v' Hi; apply (Hwk k' v'); now right).
  rewrite filter_app, (filter_all_same p (k:=k)) by (apply (Hwk k v); now left).
  rewrite (IH Hnd' Hwk'). rewrite (Z.eqb_sym p k).
  destruct (Z.eqb_spec k p) as [->|Hn].
  - apply (PyDictFacts.get_None_keys _ Zeqb_eq) in Hni. rewrite Hni.
    apply app_nil_r.
  - reflexivity.
Qed.

Lemma flatten_Sorted (s : Queues) :
  StronglySorted (@key_le (list DbOp)) s -> well_keyed s ->
  StronglySorted (fun a b => priority a <= priority b) (List.concat (map snd s)).
Proof.
  induction 1 as [|[k v] s Hs IH Hall]; intros Hwk; simpl; [constructor|].
  assert (Hwk' : well_keyed s) by (intros k' v' Hi; apply (Hwk k' v'); now right).
  specialize (IH Hwk').
  assert (Hv : Forall (fun o => priority o = k) v) by (apply (Hwk k v); now left).
  assert (Hrest : Forall (fun o => k <= priority o) (List.concat (map snd s))).
  { apply Forall_forall. intros o Ho. apply in_concat in Ho.
    destruct Ho as (b & Hb & Hob). apply in_map_iff in Hb.
    destruct Hb as ([k' v'] & Hsnd & Hin). simpl in Hsnd. subst v'.
    rewrite Forall_forall in Hall. specialize (Hall _ Hin).
    unfold key_le in Hall. simpl in Hall.
    pose proof (Hwk' k' b Hin) as Hkb. rewrite Forall_forall in Hkb.
    rewrite (Hkb o Hob). exact Hall. }
  clear Hwk Hwk' Hall Hs.
  induction Hv as [|o v Ho Hv IHv]; simpl; [exact IH|].
  constructor; [exact IHv|].
  apply Forall_app. split.
  - rewrite Forall_forall in Hv. apply Forall_forall. intros o' Ho'.
    rewrite (Hv o' Ho'). lia.
  - eapply Forall_impl; [|exact Hrest]. simpl. intros; lia.
Qed.

Lemma queues_well_keyed q l : queues_of q l -> well_keyed q.
Proof.
  intros [Hnd Hget] k v Hi.
  apply (PyDictFacts.In_get _ Zeqb_eq) in Hi; [|assumption].
  rewrite Hget in Hi.
  assert (v = bucket k l) by (destruct (bucket k l); congruence).
  subst v. apply Forall_forall. intros o Ho. apply filter_In in Ho.
  destruct Ho as [_ Ho]. now apply Z.eqb_eq in Ho.
Qed.

(** Within a bucket the operations keep their discovery order. *)
Lemma serialize_ops_bucket pgops p :
  filter (has_priority p) (serialize_ops pgops) =
  filter (has_priority p) (discovered_all pgops).
Proof.
  unfold serialize_ops.
  pose proof (queues_of_serialize pgops) as Hq.
  set (q := _serialize_ops pgops []) in *.
  pose proof (sorted_by_key_Permutation q) as Hperm.
  assert (Hnd : NoDup (PyDict.keys (sorted_by_key q))).
  { eapply Permutation_NoDup; [|exact (proj1 Hq)].
    apply Permutation_map, Permutation_sym, Hperm. }
  assert (Hwk : well_keyed (sorted_by_key q)).
  { intros k v Hi. apply (queues_well_keyed Hq k v).
    eapply Permutation_in; [exact Hperm | exact Hi]. }
  rewrite (filter_flatten p Hnd Hwk).
  rewrite (PyDictFacts.get_Permutation _ Zeqb_eq p (proj1 Hq) Hperm).
  rewrite (proj2 Hq p). fold (bucket p (discovered_all pgops)).
  now destruct (bucket p (discovered_all pgops)).
Qed.

Lemma serialize_ops_Sorted pgops :
  StronglySorted (fun a b => priority a <= priority b) (serialize_ops pgops).
Proof.
  unfold serialize_ops. apply flatten_Sorted.
  - apply sorted_by_key_Sorted.
  - intros k v Hi. apply (queues_well_keyed (queues_of_serialize pgops) k v).
    eapply Permutation_in; [apply sorted_by_key_Permutation | exact Hi].
Qed.

Definition DbOp_eq_dec : forall a b : DbOp, {a = b} + {a <> b}.
Proof. decide equality; [apply Z.eq_dec | apply string_dec]. Defined.

Lemma count_occ_bucket (l : list DbOp) o :
  count_occ DbOp_eq_dec (filter (has_priority (priority o)) l) o =
  count_occ DbOp_eq_dec l o.
Proof.
  induction l as [|x l IH]; simpl; [reflexivity|].
  unfold has_priority at 1.
  destruct (Z.eqb_spec (priority x) (priority o)) as [He|Hn]; simpl.
  - destruct (DbOp_eq_dec x o); now rewrite IH.
  - destruct (DbOp_eq_dec x o) as [->|_]; [congruence | exact IH].
Qed.

Lemma serialize_ops_Permutation pgops :
  Permutation (serialize_ops pgops) (discovered_all pgops).
Proof.
  apply (Permutation_count_occ DbOp_eq_dec). intros o.
  rewrite <- (count_occ_bucket (serialize_ops pgops)).
  rewrite <- (count_occ_bucket (discovered_all pgops)).
  now rewrite serialize_ops_bucket.
Qed.

Lemma execute_log ops :
  forall ctx, executed (fold_left (fun c op => op_execute op c) ops ctx) =
              executed ctx ++ ops.
Proof.
  induction ops as [|o ops IH]; intros ctx; simpl.
  - now rewrite app_nil_r.
  - rewrite IH. simpl. rewrite <- app_assoc. reflexivity.
Qed.

Lemma Sorted_after (before : list DbOp) o2 after :
  StronglySorted (fun a b => priority a <= priority b) (before ++ o2 :: after) ->
  forall o, In o after -> priority o2 <= priority o.
Proof.
  induction before as [|x before IH]; simpl; intros Hs o Hi.
  - inversion Hs as [|? ? _ Hall]; subst.
    rewrite Forall_forall in Hall. now apply Hall.
  - inversion Hs; subst. now apply IH.
Qed.

(** C1: executing a realm-level delta runs exactly the physical
    operations found by the recursive walk over the root command and its
    descendants; the run is in ascending priority order, each priority
    bucket keeps the discovery order, and whenever an operation [o2]
    starts, every operation of a lower priority has already run and none
    of them runs afterwards. *)
Theorem C1_execute_priority_buckets (root_pgops : list PgOp) :
  let run := executed (execute root_pgops (mkContext [])) in
  Permutation run (discovered_all root_pgops) /\
  StronglySorted (fun a b => priority a <= priority b) run /\
  (forall p, filter (has_priority p) run =
             filter (has_priority p) (discovered_all root_pgops)) /\
  (forall before o2 after, run = before ++ o2 :: after ->
     forall o1, In o1 (discovered_all root_pgops) ->
       priority o1 < priority o2 -> In o1 before /\ ~ In o1 after).
Proof.
  cbv zeta. unfold execute. rewrite execute_log. simpl.
  pose proof (serialize_ops_Permutation root_pgops) as Hperm.
  pose proof (serialize_ops_Sorted root_pgops) as Hsort.
  split; [exact Hperm|]. split; [exact Hsort|].
  split; [intros p; apply serialize_ops_bucket|].
  intros before o2 after Hrun o1 Hin Hlt.
  rewrite Hrun in Hperm, Hsort.
  assert (Hafter : ~ In o1 after).
  { intros Hi. pose proof (@Sorted_after _ _ _ Hsort o1 Hi). lia. }
  split; [|exact Hafter].
  assert (Hin' : In o1 (before ++ o2 :: after)).
  { eapply Permutation_in; [apply Permutation_sym; exact Hperm | assumption]. }
  apply in_app_or in Hin'. destruct Hin' as [Hb|[He|Ha]].
  - exact Hb.
  - subst. lia.
  - contradiction.
Qed.

(* A realm command with the bootstrap operations and one nested concept
   command, as AlterRealm.apply lays them out. *)
Definition realm_pgops : list PgOp :=
  [Physical (mkDbOp "create schema caos" (-3));
   Physical (mkDbOp "create table caos.metaobject" (-1));
   Meta [Physical (mkDbOp "drop index" 3);
         Physical (mkDbOp "insert concept row" 1);
         Physical (mkDbOp "create table" 0)];
   Physical (mkDbOp "merge backend info" 0)].

Example realm_run :
  map op_name (executed (execute realm_pgops (mkContext []))) =
  ["create schema caos"; "create table caos.metaobject"; "create table";
   "merge backend info"; "insert concept row"; "drop index"]%string.
Proof. reflexivity. Qed.

(* The executor of a plain command goes the other way round. *)
Example plain_command_run :
  map op_name
      (executed (MetaCommand_execute
                   (Meta [Physical (mkDbOp "insert row" 1);
                          Physical (mkDbOp "create index" 3)])
                   (mkContext []))) =
  ["create index"; "insert row"]%string.
Proof. reflexivity. Qed.

End SchedulerSpec.

(** ** Pointer storage *)
Module PointerStorageSpec.
Import PointerStorage.
Local Open Scope string_scope.

(* A computable to-many link of a concrete concept. *)
Definition computed_multi_link : Link :=
  mkLink "test.friends_of_friends" true false false false false.

(* A stored to-many link of a concrete concept. *)
Definition stored_multi_link : Link :=
  mkLink "test.friends" false false false false false.

Definition no_children (_ : Link) : list Link := [].
Definition column_storage (_ : Link) : PointerStorageInfo := mkInfo concept.

Lemma has_table_non_generic children gpsi l :
  is_pure_computable l = false -> generic l = false ->
  has_table children gpsi l =
  negb (atomic l) || negb (singular l) || has_user_defined_properties l.
Proof. intros Hc Hg. unfold has_table. now rewrite Hc, Hg. Qed.

(** C5 as stated fails: a non-generic, non-singular link that is purely
    computable gets no table of its own. *)
Lemma C5_counterexample_computable_multi_link :
  ~ (forall children gpsi l,
       generic l = false -> singular l = false ->
       has_table children gpsi l = true).
Proof.
  intros H.
  specialize (H no_children column_storage computed_multi_link eq_refl eq_refl).
  discriminate H.
Qed.

(** C5 (amended): for every non-generic pointer that is not purely
    computable, there is no table of its own (the pointer is a column of
    the owner's table) exactly when the pointer is atomic, singular and
    has no properties of its own; in particular every such non-singular
    link has a table of its own. *)
Theorem C5_non_generic_storage children gpsi (l : Link) :
  generic l = false -> is_pure_computable l = false ->
  (has_table children gpsi l = false <->
     atomic l = true /\ singular l = true /\
     has_user_defined_properties l = false) /\
  (singular l = false -> has_table children gpsi l = true).
Proof.
  intros Hg Hc. rewrite (has_table_non_generic children gpsi l Hc Hg).
  destruct (atomic l), (singular l), (has_user_defined_properties l);
    simpl; intuition congruence.
Qed.

Lemma C5_non_generic_storage_witness :
  (has_table no_children column_storage stored_multi_link = false <->
     atomic stored_multi_link = true /\ singular stored_multi_link = true /\
     has_user_defined_properties stored_multi_link = false) /\
  (singular stored_multi_link = false ->
   has_table no_children column_storage stored_multi_link = true).
Proof.
  apply (@C5_non_generic_storage no_children column_storage stored_multi_link);
    reflexivity.
Defined.

(** C9: a purely computable link never has a table of its own, whatever
    its other characteristics are. *)
Theorem C9_pure_computable_no_table children gpsi (l : Link) :
  is_pure_computable l = true -> has_table children gpsi l = false.
Proof. intros Hc. unfold has_table. now rewrite Hc. Qed.

Lemma C9_pure_computable_no_table_witness :
  has_table no_children column_storage computed_multi_link = false.
Proof.
  apply (@C9_pure_computable_no_table no_children column_storage
           computed_multi_link).
  reflexivity.
Defined.

End PointerStorageSpec.

(** ** More about dictionaries: assignment and search *)
Module PyDictSearch.
Section Search.
Variables K V : Type.
Variable eqb : K -> K -> bool.
Hypothesis eqb_eq : forall a b, eqb a b = true <-> a = b.
(* A test on the key of an item. *)
Variable P : K -> bool.

Definition on_key (kv : K * V) : bool := P (fst kv).


Lemma find_set_miss (d : PyDict.t K V) k v :
  P k = false ->
  find on_key (PyDict.set eqb d k v) = find on_key d.
Proof.
  intros Hk. induction d as [|[k' v'] d IH]; simpl.
  - unfold on_key. simpl. now rewrite Hk.
  - destruct (eqb k k') eqn:E; simpl.
    + apply eqb_eq in E. subst k'. unfold on_key. simpl. now rewrite Hk.
    + unfold on_key at 1 3. simpl. destruct (P k'); [reflexivity | exact IH].
Qed.

Lemma find_set_new (d : PyDict.t K V) k v :
  find on_key d = None -> P k = true ->
  find on_key (PyDict.set eqb d k v) = Some (k, v).
Proof.
  intros Hd Hk. induction d as [|[k' v'] d IH]; simpl in *.
  - unfold on_key. simpl. now rewrite Hk.
  - unfold on_key in Hd at 1. simpl in Hd.
    destruct (P k') eqn:Hk'; [discriminate|].
    destruct (eqb k k') eqn:E.
    + apply eqb_eq in E. congruence.
    + simpl. unfold on_key at 1. simpl. rewrite Hk'. now apply IH.
Qed.

Lemma find_set_found (d : PyDict.t K V) k0 v0 v :
  find on_key d = Some (k0, v0) ->
  find on_key (PyDict.set eqb d k0 v) = Some (k0, v).
Proof.
  induction d as [|[k' v'] d IH]; simpl; [discriminate|].
  unfold on_key at 1. simpl. destruct (P k') eqn:Hk'.
  - intros [= -> ->]. rewrite (PyDictFacts.eqb_refl eqb eqb_eq). simpl.
    unfold on_key. simpl. now rewrite Hk'.
  - intros Hf. destruct (eqb k0 k') eqn:E.
    + apply eqb_eq in E. subst k'. apply find_some in Hf.
      destruct Hf as [_ Hf]. unfold on_key in Hf. simpl in Hf. congruence.
    + simpl. unfold on_key at 1. simpl. rewrite Hk'. now apply IH.
Qed.

Lemma find_set_elsewhere (d : PyDict.t K V) k0 v0 k v :
  find on_key d = Some (k0, v0) -> k <> k0 ->
  find on_key (PyDict.set eqb d k v) = Some (k0, v0).
Proof.
  intros Hf Hn. induction d as [|[k' v'] d IH]; simpl in *; [discriminate|].
  unfold on_key in Hf at 1. simpl in Hf. destruct (P k') eqn:Hk'.
  - injection Hf as -> ->.
    rewrite (PyDictFacts.eqb_neq eqb eqb_eq Hn). simpl.
    unfold on_key. simpl. now rewrite Hk'.
  - destruct (eqb k k') eqn:E; simpl; unfold on_key at 1; simpl;
      rewrite ?Hk'.
    + exact Hf.
    + now apply IH.
Qed.
End Search.
End PyDictSearch.

(** ** The type rule registry *)
Module TypeRulesSpec.
Import TypeRules.
Local Open Scope string_scope.

Lemma PyObj_eqb_eq a b : PyObj_eqb a b = true <-> a = b.
Proof.
  destruct a, b; simpl; try (split; [discriminate | congruence]);
    try rewrite String.eqb_eq; split; congruence.
Qed.

Lemma sig_eqb_eq a : forall b, sig_eqb a b = true <-> a = b.
Proof.
  induction a as [|x a IH]; intros [|y b]; simpl;
    try (split; [discriminate | congruence]); [tauto|].
  rewrite andb_true_iff, PyObj_eqb_eq, IH. split.
  - intros [-> ->]. reflexivity.
  - intros [= -> ->]. auto.
Qed.

Lemma String_eqb_eq : forall a b : string, String.eqb a b = true <-> a = b.
Proof. exact String.eqb_eq. Qed.

Lemma Nat_eqb_eq : forall a b : nat, Nat.eqb a b = true <-> a = b.
Proof. exact Nat.eqb_eq. Qed.

(** The signatures registered for an operator and an arity. *)
Definition sigs_of (rules : Rules) (op : string) (n : nat) : Sigs :=
  setdefault Nat.eqb (setdefault String.eqb rules op) n.

Definition concerns (op : string) (n : nat) (r : Registration) : bool :=
  String.eqb (reg_op r) op && Nat.eqb (List.length (reg_args r)) n.

Lemma sigs_of_register rules r op n :
  sigs_of (register rules r) op n =
  if concerns op n r
  then PyDict.set sig_eqb (sigs_of rules op n) (reg_args r) (reg_result r)
  else sigs_of rules op n.
Proof.
  unfold concerns, register, add_rule, sigs_of, setdefault.
  destruct (String.eqb_spec (reg_op r) op) as [->|Hop]; simpl.
  - rewrite (PyDictFacts.get_set_same _ String_eqb_eq).
    destruct (Nat.eqb_spec (List.length (reg_args r)) n) as [<-|Hn].
    + now rewrite (PyDictFacts.get_set_same _ Nat_eqb_eq).
    + now rewrite (PyDictFacts.get_set_other _ Nat_eqb_eq _ _ Hn).
  - now rewrite (PyDictFacts.get_set_other _ String_eqb_eq _ _ Hop).
Qed.

Lemma registry_of_snoc regs r :
  registry_of (regs ++ [r]) = register (registry_of regs) r.
Proof. unfold registry_of. now rewrite fold_left_app. Qed.

(** Every signature stored under an arity has that many elements. *)
Definition arity_ok (n : nat) (sigs : Sigs) : Prop :=
  Forall (fun kv => List.length (fst kv) = n) sigs.

Lemma arity_ok_set n sigs k v :
  arity_ok n sigs -> List.length k = n ->
  arity_ok n (PyDict.set sig_eqb sigs k v).
Proof.
  intros Hs Hk. induction Hs as [|[k' v'] d Hk' Hd IH]; simpl.
  - repeat constructor. exact Hk.
  - destruct (sig_eqb k k'); constructor; auto.
Qed.

Lemma arity_ok_registry regs op n :
  arity_ok n (sigs_of (registry_of regs) op n).
Proof.
  induction regs as [|r regs IH] using rev_ind.
  - constructor.
  - rewrite registry_of_snoc, sigs_of_register.
    destruct (concerns op n r) eqn:C; [|exact IH].
    apply arity_ok_set; [exact IH|].
    unfold concerns in C. apply andb_true_iff in C.
    now apply Nat.eqb_eq.
Qed.

Section Resolution.
Variable issubclass : string -> string -> bool.
Variable proto_issubclass : string -> PyObj -> bool.
Variable schema_get : string -> PyObj.

Local Abbreviation arg_matches := (arg_matches issubclass proto_issubclass).
Local Abbreviation sig_matches := (sig_matches issubclass proto_issubclass).
Local Abbreviation scan := (scan issubclass proto_issubclass).
Local Abbreviation get_result :=
  (get_result issubclass proto_issubclass schema_get).

(** An actual argument type is accepted by a declared type when it is
    that type or a subtype of it: a class by the class hierarchy, a
    schema prototype by the prototypes' own order.  Both orders hold of
    a type and itself. *)
Definition subtype_of (arg declared : PyObj) : Prop :=
  match arg, declared with
  | PyType n, PyType c => issubclass n c = true
  | ProtoObject n, d => proto_issubclass n d = true
  | _, _ => False
  end.

(** A signature matches when it has one declared type for each actual
    argument type and accepts each at its position. *)
Definition signature_matches (args sig : list PyObj) : Prop :=
  Forall2 subtype_of args sig.



(** The loop over the arguments, on the part of the signature that is
    left. *)
Fixpoint walk (args sig : list PyObj) : result bool :=
  match args, sig with
  | [], _ => Ok true
  | a :: args', s :: sig' =>
      let* m := arg_matches a s in
      if m then walk args' sig' else Ok false
  | _ :: _, [] => Raise IndexError
  end.

Lemma sig_matches_walk args :
  forall i sig, sig_matches i args sig = walk args (skipn i sig).
Proof.
  induction args as [|a args IH]; intros i sig.
  - reflexivity.
  - cbn [TypeRules.sig_matches].
    destruct (nth_error sig i) as [s|] eqn:Hn.
    + assert (Hs : skipn i sig = s :: skipn (S i) sig).
      { clear - Hn. revert sig Hn.
        induction i as [|i IHi]; intros [|x sig] Hn; simpl in *;
          try discriminate.
        - now injection Hn as ->.
        - now apply IHi. }
      rewrite Hs. cbn [walk]. now rewrite IH.
    + assert (Hs : skipn i sig = []).
      { apply nth_error_None in Hn. now apply skipn_all2. }
      now rewrite Hs.
Qed.

Lemma walk_matches args sig :
  signature_matches args sig -> walk args sig = Ok true.
Proof.
  induction 1 as [|a s args sig Ha _ IH]; [reflexivity|].
  cbn [walk].
  destruct a as [n|n| |]; try contradiction.
  - destruct s as [c|c| |]; try contradiction.
    simpl in *. now rewrite Ha.
  - simpl in *. now rewrite Ha.
Qed.


Lemma walk_true_matches args :
  forall sig, List.length sig = List.length args ->
    walk args sig = Ok true -> signature_matches args sig.
Proof.
  induction args as [|a args IH]; intros [|s sig] Hlen Hw;
    try discriminate; [constructor|].
  cbn [walk] in Hw. injection Hlen as Hlen.
  destruct a as [n|n| |]; try discriminate.
  - destruct s as [c|c| |]; try discriminate.
    simpl in Hw. destruct (issubclass n c) eqn:E; [|discriminate].
    constructor; [exact E | now apply IH].
  - simpl in Hw. destruct (proto_issubclass n s) eqn:E; [|discriminate].
    constructor; [exact E | now apply IH].
Qed.

(** The code's test of a signature of the right length and the match of
    the claim agree wherever classes meet classes. *)
Lemma sig_matches_iff args sig :
  List.length sig = List.length args ->
  (sig_matches 0 args sig = Ok true <-> signature_matches args sig).
Proof.
  intros Hlen. rewrite sig_matches_walk. simpl. split.
  - now apply walk_true_matches.
  - apply walk_matches.
Qed.

(** The scan ends at a signature that matches or whose test raises. *)
Definition stops (args sig : list PyObj) : bool :=
  match sig_matches 0 args sig with
  | Ok false => false
  | _ => true
  end.

Definition key_stops (args : list PyObj) (kv : list PyObj * PyObj) : bool :=
  stops args (fst kv).

Lemma scan_find args sigs :
  scan args sigs =
  match find (key_stops args) sigs with
  | Some kv =>
      match sig_matches 0 args (fst kv) with
      | Ok _ => Ok (snd kv)
      | Raise e => Raise e
      end
  | None => Ok PyNone
  end.
Proof.
  induction sigs as [|[sig res] sigs IH]; [reflexivity|].
  cbn [TypeRules.scan find]. unfold key_stops at 1, stops. cbn [fst snd].
  destruct (sig_matches 0 args sig) as [[|]|e] eqn:E; simpl; rewrite ?E; auto.
Qed.

Lemma get_result_scan rules op args :
  get_result rules op args =
  let* m := scan args (sigs_of rules op (List.length args)) in
  Ok (resolve schema_get m).
Proof.
  unfold TypeRules.get_result, sigs_of, setdefault.
  unfold Rules, ByArity, Sigs, PyDict.t in *.
  destruct (PyDict.get String.eqb rules op) as [by_arity|].
  - destruct (PyDict.get Nat.eqb by_arity (List.length args)); reflexivity.
  - reflexivity.
Qed.

(** The scan ends at a registration when operator and arity agree and
    its signature matches or cannot be tested. *)
Definition ends_at (op : string) (args : list PyObj) (r : Registration)
    : bool :=
  concerns op (List.length args) r && stops args (reg_args r).

Definition same_key (r0 r : Registration) : bool :=
  String.eqb (reg_op r) (reg_op r0) && sig_eqb (reg_args r) (reg_args r0).

(** The result stored under the key of [r0] once [regs] were made: the
    one of the last registration with that operator and tuple. *)
Definition latest (regs : list Registration) (r0 : Registration) : PyObj :=
  fold_left (fun acc r => if same_key r0 r then reg_result r else acc)
            regs (reg_result r0).

Lemma find_snoc (A : Type) (f : A -> bool) l x :
  find f (l ++ [x]) =
  match find f l with
  | Some y => Some y
  | None => if f x then Some x else None
  end.
Proof.
  induction l as [|y l IH]; simpl; [reflexivity|].
  destruct (f y); [reflexivity | exact IH].
Qed.

Lemma latest_snoc regs r r0 :
  latest (regs ++ [r]) r0 =
  if same_key r0 r then reg_result r else latest regs r0.
Proof. unfold latest. now rewrite fold_left_app. Qed.

Lemma same_key_refl r : same_key r r = true.
Proof.
  unfold same_key. rewrite String.eqb_refl. simpl. now apply sig_eqb_eq.
Qed.

Lemma same_key_concerns op n r0 r :
  concerns op n r0 = true -> same_key r0 r = true -> concerns op n r = true.
Proof.
  unfold concerns, same_key. rewrite !andb_true_iff.
  rewrite !String.eqb_eq, !Nat.eqb_eq, sig_eqb_eq.
  intros [<- <-] [-> ->]. auto.
Qed.

(** The first stored signature with a property of the tuple is the one
    of the first registration with it, under the result registered last
    for that tuple. *)
Lemma registry_first (p : list PyObj -> bool) op n regs :
  find (PyDictSearch.on_key (V:=PyObj) p) (sigs_of (registry_of regs) op n) =
  match find (fun r => concerns op n r && p (reg_args r)) regs with
  | Some r0 => Some (reg_args r0, latest regs r0)
  | None => None
  end.
Proof.
  induction regs as [|r regs IH] using rev_ind; [reflexivity|].
  rewrite registry_of_snoc, sigs_of_register, find_snoc.
  destruct (find (fun r => concerns op n r && p (reg_args r)) regs)
    as [r0|] eqn:F.
  - rewrite latest_snoc.
    pose proof (find_some _ _ F) as [_ Hm]. cbv beta in Hm.
    apply andb_true_iff in Hm. destruct Hm as [Hc0 Hm0].
    destruct (same_key r0 r) eqn:S.
    + rewrite (same_key_concerns _ _ _ _ Hc0 S).
      unfold same_key in S. apply andb_true_iff in S. destruct S as [_ S].
      apply sig_eqb_eq in S. rewrite S.
      now apply PyDictSearch.find_set_found with (1 := sig_eqb_eq) (v0 := latest regs r0).
    + destruct (concerns op n r) eqn:C; [|exact IH].
      apply PyDictSearch.find_set_elsewhere with (1 := sig_eqb_eq); [exact IH|].
      intros He. unfold same_key in S. rewrite He in S.
      unfold concerns in C, Hc0. apply andb_true_iff in C, Hc0.
      destruct C as [C _], Hc0 as [Hc0 _].
      apply String.eqb_eq in C, Hc0. rewrite C, Hc0, String.eqb_refl in S.
      simpl in S. assert (sig_eqb (reg_args r0) (reg_args r0) = true)
        by now apply sig_eqb_eq. congruence.
  - destruct (concerns op n r) eqn:C; simpl; [|exact IH].
    destruct (p (reg_args r)) eqn:M.
    + rewrite latest_snoc, same_key_refl.
      now apply PyDictSearch.find_set_new with (1 := sig_eqb_eq).
    + rewrite PyDictSearch.find_set_miss with (1 := sig_eqb_eq); assumption.
Qed.

(** Resolution over a registry built by [add_rule] is decided by the
    first registration of the operator and the arity whose signature
    matches or cannot be tested. *)
Lemma get_result_registry op args regs :
  get_result (registry_of regs) op args =
  match find (ends_at op args) regs with
  | Some r0 =>
      match sig_matches 0 args (reg_args r0) with
      | Ok _ => Ok (resolve schema_get (latest regs r0))
      | Raise e => Raise e
      end
  | None => Ok PyNone
  end.
Proof.
  rewrite get_result_scan, scan_find.
  change (key_stops args) with (PyDictSearch.on_key (V:=PyObj) (stops args)).
  rewrite registry_first.
  change (fun r => concerns op (List.length args) r && stops args (reg_args r))
    with (ends_at op args).
  destruct (find (ends_at op args) regs) as [r0|]; [|reflexivity].
  cbn [fst snd]. now destruct (sig_matches 0 args (reg_args r0)).
Qed.

Lemma concerns_length op n r : concerns op n r = true -> List.length (reg_args r) = n.
Proof.
  unfold concerns. rewrite andb_true_iff, Nat.eqb_eq. tauto.
Qed.






Lemma latest_unrelated regs r0 :
  (forall r, In r regs -> same_key r0 r = false) ->
  latest regs r0 = reg_result r0.
Proof.
  induction regs as [|r regs IH] using rev_ind; intros H; [reflexivity|].
  rewrite latest_snoc, H by (apply in_or_app; right; now left).
  apply IH. intros x Hx. apply H. apply in_or_app. now left.
Qed.

Lemma add_rule_registry regs op args res :
  add_rule (registry_of regs) op args res =
  registry_of (regs ++ [mkReg op args res]).
Proof. now rewrite registry_of_snoc. Qed.



End Resolution.

(* A small class hierarchy: IntegerType is a subclass of NumberType. *)
Definition py_issubclass (n m : string) : bool :=
  String.eqb n m ||
  (String.eqb n "IntegerType" && String.eqb m "NumberType").

Definition no_prototypes (_ : string) (_ : PyObj) : bool := false.
Definition empty_schema (_ : string) : PyObj := PyNone.





End TypeRulesSpec.

(** ** The backend upgrade chain *)
Module UpgradeSpec.
Import Upgrade.
Local Open Scope Z_scope.

Lemma range_nil a b : b <= a -> range a b = [].
Proof.
  intros H. unfold range. replace (Z.to_nat (b - a)) with 0%nat by lia.
  reflexivity.
Qed.

Lemma range_cons a b : a < b -> range a b = a :: range (a + 1) b.
Proof.
  intros H. unfold range.
  replace (Z.to_nat (b - a)) with (S (Z.to_nat (b - (a + 1)))) by lia.
  simpl. f_equal; [lia|].
  rewrite <- seq_shift, map_map. apply map_ext. intros i. lia.
Qed.

Lemma range_In a b n : In n (range a b) <-> a <= n < b.
Proof.
  unfold range. rewrite in_map_iff. split.
  - intros (i & <- & Hi). apply in_seq in Hi. lia.
  - intros H. exists (Z.to_nat (n - a)). split; [lia|].
    apply in_seq. lia.
Qed.

Lemma range_shift a b : map (fun v => v + 1) (range a b) = range (a + 1) (b + 1).
Proof.
  unfold range. rewrite map_map.
  replace (b + 1 - (a + 1)) with (b - a) by lia.
  apply map_ext. intros i. lia.
Qed.

Lemma range_Sorted a b : StronglySorted Z.lt (range a b).
Proof.
  unfold range. generalize (Z.to_nat (b - a)) as n. intros n.
  generalize 0%nat as s. induction n as [|n IH]; intros s; simpl.
  - constructor.
  - constructor; [apply IH|].
    apply Forall_forall. intros x Hx. apply in_map_iff in Hx.
    destruct Hx as (i & <- & Hi). apply in_seq in Hi. lia.
Qed.

Section Chain.
(* The body of update_to_version_<n>. *)
Variable step_body : Z -> Backend -> result Backend.

(** The steps of a list called one after the other, each on the backend
    the previous one left; a step that raises ends the run. *)
Fixpoint run_in_order (steps : list Z) (b : Backend) : result Backend :=
  match steps with
  | [] => Ok b
  | n :: rest => let* b1 := step_body n b in run_in_order rest b1
  end.

Lemma run_steps_in_order versions :
  Forall (fun v => 0 <= v < BACKEND_FORMAT_VERSION) versions ->
  forall context,
    run_steps step_body versions context =
    let* b := run_in_order (map (fun v => v + 1) versions) (db context) in
    Ok (mkContext b (printed context ++ map (fun v => v + 1) versions)).
Proof.
  induction 1 as [|v vs Hv _ IH]; intros [b out]; simpl.
  - now rewrite app_nil_r.
  - unfold getattr_update_to_version, BACKEND_FORMAT_VERSION in *.
    replace ((1 <=? v + 1) && (v + 1 <=? 30)) with true
      by (symmetry; apply andb_true_iff; split; apply Z.leb_le; lia).
    simpl. destruct (step_body (v + 1) b) as [b1|e]; simpl; [|reflexivity].
    rewrite IH. simpl. now rewrite <- app_assoc.
Qed.

Lemma merge_persists rows :
  In BACKEND_FORMAT_VERSION (merge_format_version rows) /\
  Forall (fun v => BACKEND_FORMAT_VERSION <= v) (merge_format_version rows).
Proof.
  unfold merge_format_version.
  destruct (existsb (fun v => v <? BACKEND_FORMAT_VERSION) rows) eqn:E.
  - split.
    + apply existsb_exists in E. destruct E as (v & Hin & Hv).
      apply in_map_iff. exists v. now rewrite Hv.
    + apply Forall_forall. intros x Hx. apply in_map_iff in Hx.
      destruct Hx as (v & <- & _).
      destruct (Z.ltb_spec v BACKEND_FORMAT_VERSION); lia.
  - split; [apply in_or_app; right; now left|].
    apply Forall_app. split; [|repeat constructor; lia].
    apply Forall_forall. intros x Hx.
    destruct (Z.ltb_spec x BACKEND_FORMAT_VERSION) as [Hlt|]; [|assumption].
    assert (existsb (fun v => v <? BACKEND_FORMAT_VERSION) rows = true).
    { apply existsb_exists. exists x. split; [assumption|].
      now apply Z.ltb_lt. }
    congruence.
Qed.

(** C3: from a persisted version v0 with 0 <= v0 < 30, whatever the
    steps do, when the steps v0+1, ..., 30 called in ascending order,
    each once and each on the backend the previous one left, all return,
    the chain announces and runs exactly these steps in that order and
    then persists 30: a row of the backend-info table holds 30 and none
    holds less (a single row below 30 becomes the single row 30). *)
Theorem C3_upgrade_runs_every_step (v0 : Z) (context : Context)
    (upgraded : Backend) :
  0 <= v0 < BACKEND_FORMAT_VERSION ->
  let steps := range (v0 + 1) (BACKEND_FORMAT_VERSION + 1) in
  run_in_order steps (db context) = Ok upgraded ->
  exists context',
    execute step_body v0 context = Ok context' /\
    printed context' = printed context ++ steps /\
    db context' = update_backend_info_execute upgraded /\
    (forall n, In n steps <-> v0 < n <= BACKEND_FORMAT_VERSION) /\
    StronglySorted Z.lt steps /\
    In BACKEND_FORMAT_VERSION (backend_info (db context')) /\
    Forall (fun v => BACKEND_FORMAT_VERSION <= v) (backend_info (db context')) /\
    (forall v, backend_info upgraded = [v] -> v < BACKEND_FORMAT_VERSION ->
               backend_info (db context') = [BACKEND_FORMAT_VERSION]).
Proof.
  intros Hv steps Hrun. unfold execute.
  rewrite run_steps_in_order.
  2:{ apply Forall_forall. intros v Hin. apply range_In in Hin. lia. }
  rewrite range_shift. fold steps. rewrite Hrun. simpl.
  eexists. split; [reflexivity|]. simpl.
  split; [reflexivity|]. split; [reflexivity|].
  split; [intros n; unfold steps; rewrite range_In; lia|].
  split; [apply range_Sorted|].
  split; [apply merge_persists|]. split; [apply merge_persists|].
  intros v Hrow Hlt. rewrite Hrow. unfold merge_format_version. simpl.
  apply Z.ltb_lt in Hlt. now rewrite Hlt.
Qed.
End Chain.

(* A version-29 backend: concept still has is_virtual, link has no
   spectargets yet. *)
Definition backend_29 : Backend :=
  mkBackend [(("caos", "concept"), "is_virtual"); (("caos", "link"), "name")]%string
            [] [29].

Definition link_endpoints : QName := ("caos", "link_endpoints")%string.
Definition no_other_steps (_ : Z) (b : Backend) : result Backend := Ok b.

(* A version-1 backend: event still has allowed_actions, the endpoints
   type and the later columns are not there yet. *)
Definition backend_1 : Backend :=
  mkBackend [(("caos", "event"), "allowed_actions"); (("caos", "link"), "name")]%string
            [] [1].

(* What steps 2, 3, 28 and 30 make of it. *)
Definition backend_1_upgraded : Backend :=
  mkBackend [(("caos", "link"), "name"); (("caos", "link"), "spectargets")]%string
            [link_endpoints] [1].

Lemma C3_upgrade_runs_every_step_witness :
  exists context',
    execute (update_to_version link_endpoints no_other_steps) 1
            (mkContext backend_1 []) = Ok context' /\
    printed context' = range 2 31 /\
    db context' =
    mkBackend [(("caos", "link"), "name"); (("caos", "link"), "spectargets")]%string
              [link_endpoints] [30].
Proof.
  destruct (@C3_upgrade_runs_every_step
              (update_to_version link_endpoints no_other_steps) 1
              (mkContext backend_1 []) backend_1_upgraded
              ltac:(unfold BACKEND_FORMAT_VERSION; lia)
              ltac:(vm_compute; reflexivity))
    as (c & Hrun & Hout & Hdb & _).
  exists c. split; [exact Hrun|]. split; [exact Hout|].
  rewrite Hdb. reflexivity.
Defined.

Lemma QName_eqb_refl n : QName_eqb n n = true.
Proof. unfold QName_eqb. now rewrite !String.eqb_refl. Qed.

(** Step 2 is guarded: run again on its own result it changes nothing. *)
Lemma update_to_version_2_rerun t b b' :
  update_to_version_2 t b = Ok b' -> update_to_version_2 t b' = Ok b'.
Proof.
  unfold update_to_version_2. simpl. unfold guards_pass. simpl.
  rewrite !orb_false_r.
  destruct (has_type b t) eqn:E; simpl.
  - intros [= <-]. now rewrite E.
  - intros [= <-].
    assert (H : has_type (mkBackend (columns b) (composite_types b ++ [t])
                            (backend_info b)) t = true).
    { unfold has_type. simpl. rewrite existsb_app. simpl.
      rewrite QName_eqb_refl. apply orb_true_iff. right. reflexivity. }
    now rewrite H.
Qed.

(** What does hold for every step body: started from the version it
    persisted, the chain calls no step at all; the version test of the
    loop, not the steps, keeps a second run from changing the schema. *)
Lemma rerun_from_current_version_runs_no_step
    (steps : Z -> Backend -> result Backend) (context : Context) :
  exists context',
    execute steps BACKEND_FORMAT_VERSION context = Ok context' /\
    printed context' = printed context /\
    columns (db context') = columns (db context) /\
    composite_types (db context') = composite_types (db context).
Proof.
  unfold execute. rewrite range_nil by lia. simpl.
  eexists. repeat split.
Qed.

(** C4 fails on step 30, which carries no condition: the chain run from
    version 29 succeeds and persists 30; run once more from 29 on the
    backend it produced, step 30 sends its ADD COLUMN again and the
    backend refuses it. *)
Theorem C4_rerun_of_step_30_is_rejected :
  let chain := execute (update_to_version link_endpoints no_other_steps) in
  exists upgraded,
    chain 29 (mkContext backend_29 []) = Ok upgraded /\
    backend_info (db upgraded) = [30] /\
    update_to_version_30 (db upgraded) = Raise BackendRejection /\
    chain 29 upgraded = Raise BackendRejection.
Proof.
  eexists. split; [vm_compute; reflexivity|].
  repeat split.
Qed.

End UpgradeSpec.

(** ** The type-change migration *)
Module AtomTypeChangeSpec.
Import AtomTypeChange.
Local Open Scope string_scope.
Local Open Scope list_scope.

Definition is_drop (op : PgOp) : bool :=
  match op with DropDomain _ => true | _ => false end.

Definition no_drop (ops : list PgOp) : Prop :=
  Forall (fun op => is_drop op = false) ops.

Definition aborted (e : exn) : Prop :=
  e = NameError "simple_alter" \/ e = RecursionError.

Section AlterAtomType.
Variable atom_name_to_domain_name : string -> DomainName.
Variable qname : string -> string -> string.
Variable get_table_name : string -> DomainName.
Variable caos_name_to_pg_name : string -> string.
Variable get_atom_base : Schema -> Atom -> string.

Local Abbreviation alter_atom_type :=
  (alter_atom_type atom_name_to_domain_name qname get_table_name
                   caos_name_to_pg_name get_atom_base).

(* How a call, or the loop over the children, can leave the pgops it
   started with: more operations, none of them a DROP DOMAIN, and either
   a normal return or one of the two exceptions. *)
Definition extends (pgops : list PgOp) (strict : bool) (o : Outcome) : Prop :=
  exists added,
    fst o = pgops ++ added /\ no_drop added /\
    match snd o with
    | Ok _ => strict = false
    | Raise e => aborted e
    end.

Lemma extends_trans pgops added o strict :
  no_drop added -> extends (pgops ++ added) strict o -> extends pgops strict o.
Proof.
  intros Hn (added' & Hf & Hn' & Hs). exists (added ++ added').
  split; [now rewrite Hf, app_assoc|]. split; [|exact Hs].
  now apply Forall_app.
Qed.

Lemma children_loop fuel' schema name target_type
    (IH : forall atom new_type pgops,
        extends pgops true (alter_atom_type fuel' atom schema new_type "alter" pgops))
    (children : list Atom) :
  forall pgops (acc : Outcome), extends pgops false acc ->
    extends pgops false
      (fold_left
         (fun (acc : Outcome) child_atom =>
            match acc with
            | (ops, Ok _) =>
                if names_eqb (bases child_atom) [name]
                then alter_atom_type fuel' child_atom schema target_type
                                     "alter" ops
                else acc
            | (_, Raise _) => acc
            end) children acc).
Proof.
  induction children as [|c children IHc]; intros pgops acc Hacc; simpl.
  - exact Hacc.
  - apply IHc. destruct acc as [ops [u|e]]; [|exact Hacc].
    destruct (names_eqb (bases c) [name]); [|exact Hacc].
    destruct Hacc as (added & Hf & Hn & _). simpl in Hf. subst ops.
    apply extends_trans with (added := added); [exact Hn|].
    destruct (IH c target_type (pgops ++ added)) as (a & Ha & Hna & Hs).
    exists a. split; [exact Ha|]. split; [exact Hna|].
    destruct (snd (alter_atom_type fuel' c schema target_type "alter"
                     (pgops ++ added))); [discriminate | exact Hs].
Qed.

(** With intent 'alter' the call never returns normally and never adds
    a DROP DOMAIN: it ends in the NameError of [simple_alter], or runs
    out of stack on the way down. *)
Lemma alter_intent_aborts fuel :
  forall atom schema new_type pgops,
    extends pgops true (alter_atom_type fuel atom schema new_type "alter" pgops).
Proof.
  induction fuel as [|fuel' IH]; intros atom schema new_type pgops.
  - exists []. simpl. rewrite app_nil_r.
    repeat split; [constructor | now right].
  - simpl.
    set (dn := atom_name_to_domain_name (atom_name atom)).
    set (start := (pgops ++ RenameDomain dn (fst dn, (snd dn ++ "_tmp")%string)
                     :: CreateDomain dn new_type
                     :: map (CreateConstraintGroup (atom_name atom))
                            (local_constraints atom)) ++
                  map (fun u => AlterTableAlterColumnType
                                  (get_table_name (fst u))
                                  (caos_name_to_pg_name (normal_name (snd u)))
                                  (qname (fst dn) (snd dn)))
                      (users_of schema atom)).
    assert (Hstart : extends pgops false (start, Ok tt)).
    { eexists. split; [unfold start; simpl; rewrite <- app_assoc; reflexivity|].
      split; [|reflexivity].
      apply Forall_app. split.
      - repeat constructor. apply Forall_forall. intros op Hop.
        apply in_map_iff in Hop. now destruct Hop as (c & <- & _).
      - apply Forall_forall. intros op Hop.
        apply in_map_iff in Hop. now destruct Hop as (u & <- & _). }
    pose proof (@children_loop fuel' schema (atom_name atom)
                  (qname (fst dn) (snd dn))
                  (fun a t p => IH a schema t p) (atoms schema) pgops _ Hstart)
      as Hloop.
    match goal with
    | |- extends _ _ (match ?f with _ => _ end) => destruct f as [ops [u|e]]
    end.
    + destruct Hloop as (added & Hf & Hn & _). exists added.
      repeat split; [exact Hf | exact Hn | now left].
    + destruct Hloop as (added & Hf & Hn & Hs). exists added.
      repeat split; assumption.
Qed.
End AlterAtomType.

(* The scenario of the spec: atom Age goes from int16 to int32; one
   concept column (Person.age) is of type Age, and PositiveAge is a
   child atom of Age. *)
Definition old_Age : Atom := mkAtom "test.Age" ["std.int16"] [].
Definition Age : Atom := mkAtom "test.Age" ["std.int32"] [].
Definition PositiveAge : Atom := mkAtom "test.PositiveAge" ["test.Age"] [].
Definition Person_age : Link := mkLink "test.age" "test.Person" (Some "test.Age").
Definition age_schema : Schema := mkSchema [Person_age] [Age; PositiveAge].

Definition domain_of (n : string) : DomainName := ("caos", n ++ "_domain")%string.
Definition qualified (s n : string) : string := (s ++ "." ++ n)%string.
Definition table_of (n : string) : DomainName := ("caos", n ++ "_data")%string.
Definition pg_name (n : string) : string := n.
Definition atom_base (_ : Schema) (a : Atom) : string :=
  match bases a with
  | ["std.int16"] => "int2"
  | ["std.int32"] => "int4"
  | _ => "caos.test.Age_domain"
  end.

(** C2 fails on the last step: a migration with intent 'alter' stops at
    the unbound name [simple_alter], so no DROP DOMAIN of the renamed
    domain is ever added; in the scenario of the spec the rename, the
    new domain and the column alteration of Age and the rename and the
    new domain of PositiveAge are added, and then the call raises. *)
Theorem C2_alter_stops_before_drop :
  (forall tdn qn gtn pgn gab fuel atom schema new_type pgops,
      exists added e,
        alter_atom_type tdn qn gtn pgn gab fuel atom schema new_type "alter" pgops
          = (pgops ++ added, Raise e) /\
        no_drop added /\ aborted e) /\
  alter_atom domain_of qualified table_of pg_name atom_base
             100 age_schema old_Age Age true None []
  = ([RenameDomain ("caos", "test.Age_domain") ("caos", "test.Age_domain_tmp");
      CreateDomain ("caos", "test.Age_domain") "int4";
      AlterTableAlterColumnType ("caos", "test.Person_data") "test.age"
                                "caos.test.Age_domain";
      RenameDomain ("caos", "test.PositiveAge_domain")
                   ("caos", "test.PositiveAge_domain_tmp");
      CreateDomain ("caos", "test.PositiveAge_domain") "caos.test.Age_domain"],
     Raise (NameError "simple_alter")).
Proof.
  split.
  - intros tdn qn gtn pgn gab fuel atom schema new_type pgops.
    destruct (alter_intent_aborts tdn qn gtn pgn gab fuel atom schema
                new_type pgops) as (added & Hf & Hn & Hs).
    destruct (alter_atom_type tdn qn gtn pgn gab fuel atom schema new_type
                "alter" pgops) as [ops [u|e]]; simpl in *; [discriminate|].
    exists added, e. subst ops. auto.
  - vm_compute. reflexivity.
Qed.

End AtomTypeChangeSpec.

(** ** The inheritance delta *)
Module BaseDeltaSpec.
Import BaseDelta.
Local Open Scope string_scope.
Local Open Scope list_scope.

Lemma mem_In x l : mem x l = true <-> In x l.
Proof.
  unfold mem. rewrite existsb_exists. split.
  - intros (y & Hy & E). apply String.eqb_eq in E. now subst.
  - intros H. exists x. split; [assumption | apply String.eqb_refl].
Qed.

Lemma mem_false x l : mem x l = false <-> ~ In x l.
Proof.
  rewrite <- mem_In. destruct (mem x l); split; congruence.
Qed.

Lemma difference_In x a b : In x (difference a b) <-> In x a /\ ~ In x b.
Proof.
  unfold difference. rewrite filter_In, negb_true_iff, mem_false. tauto.
Qed.

Lemma difference_nil_r a : difference a [] = a.
Proof.
  unfold difference. induction a as [|x a IH]; simpl; [reflexivity|].
  f_equal. exact IH.
Qed.

Lemma difference_self a : difference a a = [].
Proof.
  unfold difference.
  assert (H : forall l, (forall x, In x l -> In x a) ->
                        filter (fun x => negb (mem x a)) l = []).
  { induction l as [|x l IH]; intros Hl; simpl; [reflexivity|].
    assert (E : mem x a = true) by (apply mem_In, Hl; now left).
    rewrite E. simpl. apply IH. intros y Hy. apply Hl. now right. }
  apply H. auto.
Qed.

Lemma ordered_set_In x l : In x (ordered_set l) <-> In x l.
Proof.
  induction l as [|y l IH]; simpl; [tauto|].
  rewrite filter_In, IH, negb_true_iff.
  destruct (String.eqb_spec y x) as [->|Hn]; [tauto|].
  intuition congruence.
Qed.

Lemma ordered_set_NoDup l : NoDup (ordered_set l).
Proof.
  induction l as [|y l IH]; simpl; constructor.
  - rewrite filter_In, String.eqb_refl. simpl. intros [_ H]. discriminate.
  - now apply NoDup_filter.
Qed.

Lemma ordered_set_id l : NoDup l -> ordered_set l = l.
Proof.
  induction 1 as [|x l Hx Hl IH]; simpl; [reflexivity|].
  rewrite IH. f_equal.
  clear - Hx. induction l as [|y l IHl]; simpl; [reflexivity|].
  destruct (String.eqb_spec x y) as [->|Hn]; simpl.
  - exfalso. apply Hx. now left.
  - f_equal. apply IHl. intros H. apply Hx. now right.
Qed.

(** [unchanged_order] finds the longest common prefix. *)
Lemma unchanged_order_split current :
  forall new,
    let n := List.length (unchanged_order current new) in
    exists prefix,
      current = prefix ++ skipn n current /\
      new = prefix ++ skipn n new /\
      (forall x y, hd_error (skipn n current) = Some x ->
                   hd_error (skipn n new) = Some y -> x <> y).
Proof.
  induction current as [|x current IH]; intros [|y new]; simpl.
  - exists []. repeat split; discriminate.
  - exists []. repeat split; discriminate.
  - exists []. repeat split; discriminate.
  - destruct (String.eqb_spec x y) as [->|Hn]; simpl.
    + destruct (IH new) as (prefix & Hc & Hn & Hd).
      exists (y :: prefix). simpl. repeat split; try congruence. exact Hd.
    + exists []. repeat split. intros a b [= <-] [= <-]. exact Hn.
Qed.

Lemma unchanged_order_same l :
  skipn (List.length (unchanged_order l l)) l = [].
Proof.
  induction l as [|x l IH]; simpl; [reflexivity|].
  rewrite String.eqb_refl. simpl. exact IH.
Qed.

Section ApplyBaseDelta.
Variable renamed : Base -> Base.
Variable nameconv : string -> TableName.

Definition is_parent_op (g : Guarded) : bool :=
  match fst (fst g) with
  | AlterTableDropParent _ | AlterTableAddParent _ => true
  | _ => false
  end.

(** The add-parent and drop-parent operations of the ALTER TABLEs, in
    the order in which they are issued. *)
Definition parent_ops (out : list AlterTable) : list AlterOp :=
  map (fun g => fst (fst g)) (filter is_parent_op (List.concat out)).

Definition drop_parent (base : string) : AlterOp :=
  AlterTableDropParent (nameconv base).

Definition add_parent (base : string) : AlterOp :=
  AlterTableAddParent (nameconv base).

Lemma parent_ops_app a b : parent_ops (a ++ b) = parent_ops a ++ parent_ops b.
Proof. unfold parent_ops. now rewrite concat_app, filter_app, map_app. Qed.

Lemma add_inherited_columns_no_parent source tn added :
  forall at_, add_inherited_columns source tn added = Ok at_ ->
              parent_ops [at_] = [].
Proof.
  induction added as [|p added IH]; simpl; intros at_.
  - intros [= <-]. reflexivity.
  - destruct (PyDict.get String.eqb (pointers source) p) as [ptr|];
      [|discriminate].
    destruct (add_inherited_columns source tn added) as [more|e];
      simpl; [|discriminate].
    intros [= <-]. specialize (IH more eq_refl).
    unfold parent_ops in *. simpl in *. rewrite app_nil_r in *.
    destruct (is_a_column source ptr); simpl; exact IH.
Qed.

Lemma add_inherited_columns_total source tn added :
  (forall p, In p added -> PyDict.get String.eqb (pointers source) p <> None) ->
  exists at_, add_inherited_columns source tn added = Ok at_.
Proof.
  induction added as [|p added IH]; simpl; intros H.
  - eauto.
  - destruct (PyDict.get String.eqb (pointers source) p) as [ptr|] eqn:G.
    + destruct IH as (more & ->); [intros q Hq; apply H; now right|].
      simpl. eauto.
    + exfalso. apply (H p); auto.
Qed.

Lemma current_bases_NoDup orig_bases source :
  NoDup (current_bases orig_bases source).
Proof. apply NoDup_filter, ordered_set_NoDup. Qed.

Lemma current_bases_kept orig_bases source x :
  In x (current_bases orig_bases source) -> In x (map base_name (bases source)).
Proof.
  unfold current_bases, dropped_bases. rewrite !difference_In.
  intros [Hx Hn].
  destruct (in_dec string_dec x (map base_name (bases source))); tauto.
Qed.

Lemma parent_ops_drops (conds negs : string -> list Condition) l :
  parent_ops [map (fun b => (AlterTableDropParent (nameconv b), conds b, negs b)) l]
  = map drop_parent l.
Proof.
  unfold parent_ops. simpl. rewrite app_nil_r.
  induction l as [|b l IH]; simpl; [reflexivity | now rewrite IH].
Qed.

Lemma parent_ops_adds (conds negs : string -> list Condition) l :
  parent_ops [map (fun b => (AlterTableAddParent (nameconv b), conds b, negs b)) l]
  = map add_parent l.
Proof.
  unfold parent_ops. simpl. rewrite app_nil_r.
  induction l as [|b l IH]; simpl; [reflexivity | now rewrite IH].
Qed.

Lemma parent_ops_drop_columns source (ptrs : list Pointer) :
  parent_ops
    [flat_map (fun ptr =>
                 if is_a_column source ptr
                 then [(AlterTableDropColumn (column_name ptr) (column_type ptr)
                                             (required ptr),
                        [ColumnExists (table_name ptr) (column_name ptr)], [])]
                 else []) ptrs] = [].
Proof.
  unfold parent_ops. simpl. rewrite app_nil_r.
  induction ptrs as [|ptr ptrs IH]; simpl; [reflexivity|].
  destruct (is_a_column source ptr); simpl; exact IH.
Qed.

(** When nothing of the new list is left after the common prefix,
    nothing of the remaining old list is left either. *)
Lemma old_suffix_empty orig_bases source prefix old_suffix :
  current_bases orig_bases source = prefix ++ old_suffix ->
  map base_name (bases source) = prefix ->
  old_suffix = [].
Proof.
  intros Hc Hn. destruct old_suffix as [|x rest]; [reflexivity|]. exfalso.
  pose proof (current_bases_NoDup orig_bases source) as Hnd.
  assert (Hx : In x prefix).
  { rewrite <- Hn. apply (current_bases_kept orig_bases source).
    rewrite Hc. apply in_or_app. right. now left. }
  rewrite Hc in Hnd. apply NoDup_remove_2 in Hnd. apply Hnd.
  apply in_or_app. now left.
Qed.

(** C6: for a concept, or a link with a table of its own, the engine
    returns its ALTER TABLEs (given that the source knows the inherited
    pointers it has to add); when the old base list, after renames, and
    the new one are the same list of distinct names, none of them holds
    an add-parent or drop-parent operation; in general the remaining
    old bases and the new bases split into their longest common prefix
    and two suffixes, and the parent operations are the drops of the
    bases that went away, then the drops of the old suffix, then the
    adds of the new suffix. *)
Theorem C6_parent_alignment orig_source source has_table created_ptrs
    op_table_name :
  is_concept source || has_table = true ->
  (forall p, In p (inherited_to_add orig_source source created_ptrs) ->
             PyDict.get String.eqb (pointers source) p <> None) ->
  let orig_bases := map renamed (bases orig_source) in
  let old := map base_name orig_bases in
  let new := map base_name (bases source) in
  exists out,
    apply_base_delta renamed nameconv orig_source source has_table
                     created_ptrs op_table_name = Ok out /\
    (old = new -> NoDup new -> parent_ops out = []) /\
    exists prefix old_suffix new_suffix,
      current_bases orig_bases source = prefix ++ old_suffix /\
      new = prefix ++ new_suffix /\
      (forall x y, hd_error old_suffix = Some x ->
                   hd_error new_suffix = Some y -> x <> y) /\
      parent_ops out =
        map drop_parent (dropped_bases orig_bases source) ++
        map drop_parent old_suffix ++ map add_parent new_suffix.
Proof.
  intros Hown Hptrs orig_bases old new.
  unfold apply_base_delta. rewrite Hown.
  destruct (add_inherited_columns_total source op_table_name _ Hptrs)
    as (at_ & Hat).
  rewrite Hat. unfold bind. fold orig_bases. fold new.
  set (current := current_bases orig_bases source).
  set (n := List.length (unchanged_order current new)).
  set (dropped := dropped_bases orig_bases source).
  eexists. split; [reflexivity|].
  destruct (unchanged_order_split current new) as (prefix & Hc & Hn & Hd).
  fold n in Hc, Hn, Hd.
  match goal with
  | |- (_ -> _ -> parent_ops ?o = []) /\ _ =>
      assert (G : parent_ops o
                  = map drop_parent dropped ++
                    map drop_parent (skipn n current) ++
                    map add_parent (skipn n new))
  end.
  { rewrite !parent_ops_app.
    rewrite (add_inherited_columns_no_parent _ _ _ Hat). simpl app.
    f_equal.
    - destruct dropped as [|d ds] eqn:Ed; [reflexivity|]. rewrite <- Ed.
      destruct (dropped_ptrs orig_source source) as [|q qs].
      + apply parent_ops_drops.
      + change [?a; ?b] with ([a] ++ [b]).
        rewrite parent_ops_app, parent_ops_drops.
        pose proof (parent_ops_drop_columns source (q :: qs)) as Hq.
        simpl flat_map in Hq. rewrite Hq.
        apply app_nil_r.
    - destruct (skipn n new) as [|y ys] eqn:En.
      + rewrite app_nil_r in Hn.
        rewrite (@old_suffix_empty orig_bases source prefix _ Hc Hn).
        reflexivity.
      + rewrite <- En.
        change [?a; ?b] with ([a] ++ [b]).
        now rewrite parent_ops_app, parent_ops_drops, parent_ops_adds. }
  split.
  - intros Heq Hnd. rewrite G.
    assert (Hos : ordered_set (map base_name orig_bases) = new).
    { fold old. rewrite Heq. now apply ordered_set_id. }
    assert (Hdr : dropped = []).
    { unfold dropped, dropped_bases. fold new. rewrite Hos.
      apply difference_self. }
    assert (Hcur : current = new).
    { unfold current, current_bases. fold dropped. rewrite Hdr, Hos.
      apply difference_nil_r. }
    unfold n. rewrite Hdr, Hcur, unchanged_order_same. reflexivity.
  - exists prefix, (skipn n current), (skipn n new).
    split; [exact Hc|]. split; [exact Hn|]. split; [exact Hd|]. exact G.
Qed.
End ApplyBaseDelta.

(* Concept Person keeps its bases Named and Owned. *)
Definition Named : Base := mkBase "test.Named" [].
Definition Owned : Base := mkBase "test.Owned" [].
Definition Person : Source := mkSource "test.Person" true [Named; Owned] [].
Definition not_renamed (b : Base) : Base := b.
Definition concept_table (n : string) : TableName := ("caos", n ++ "_data")%string.

Lemma C6_parent_alignment_witness :
  exists out,
    apply_base_delta not_renamed concept_table Person Person false []
                     ("caos", "test.Person_data") = Ok out /\
    parent_ops out = [].
Proof.
  destruct (@C6_parent_alignment not_renamed concept_table Person Person false
              [] ("caos", "test.Person_data") eq_refl
              (fun p (H : In p []) => match H with end))
    as (out & Hout & Hsame & _).
  exists out. split; [exact Hout|].
  apply Hsame; [reflexivity|].
  repeat constructor; simpl; intuition discriminate.
Defined.

(* Person goes from bases [Named; Owned] to [Owned; Named]: both are
   dropped and added again, in the new order. *)
Example rebase_swaps_parents :
  let swapped := mkSource "test.Person" true [Owned; Named] [] in
  match apply_base_delta not_renamed concept_table Person swapped false []
                         ("caos", "test.Person_data") with
  | Ok out =>
      parent_ops out =
      [AlterTableDropParent ("caos", "test.Named_data");
       AlterTableDropParent ("caos", "test.Owned_data");
       AlterTableAddParent ("caos", "test.Owned_data");
       AlterTableAddParent ("caos", "test.Named_data")]
  | Raise _ => False
  end.
Proof. vm_compute. reflexivity. Qed.

End BaseDeltaSpec.

(** ** The mapping index maintainer *)
Module MappingIndexesSpec.
Import MappingIndexes.
Local Open Scope string_scope.
Local Open Scope list_scope.

(* The table of link test.owner carries one index, of mapping 1*, that
   covers the link. *)
Definition owner_table : TableName := ("caos", "test.owner_link").
Definition owner_idx : string := "test.owner_1*_link_mapping_idx".
Definition owner_indexes : list (string * ExIdx) :=
  [(owner_idx, (OneToMany, ["test.owner"]))].

Definition alter_owner (m : LinkMapping) : LinkOp * Proto :=
  (AlterLink "test.owner", mkProto "test.owner" m).

(** One alter from 1* to 11: the link gets the indexes of 11 and the
    index of 1*, which covered it alone, is dropped. *)
Example one_alter_moves_the_link :
  apply_link owner_table owner_indexes [alter_owner OneToOne]
  = Ok [CreateMappingIndexes owner_table OneToOne ["test.owner"];
        DropMappingIndexes (Some [owner_idx]) owner_table OneToOne].
Proof. vm_compute. reflexivity. Qed.

End MappingIndexesSpec.

(** ** Type maps and rule registration *)
Module TypeInfoSpec.
Import TypeRules TypeInfo.
Local Open Scope string_scope.
Local Open Scope list_scope.

Lemma str_eqb_eq : forall a b : string, String.eqb a b = true <-> a = b.
Proof. exact String.eqb_eq. Qed.

(** An implementation is registered once: after a successful
    add_implementation of a type other than None, the name gives that
    type, a further add_implementation for the name raises ValueError,
    and the other names are as before. *)
Theorem implementation_registered_once m caos_name type m' :
  add_implementation m caos_name type = Ok m' -> type <> PyNone ->
  get_implementation m' caos_name = type /\
  (forall type', add_implementation m' caos_name type' = Raise ValueError) /\
  (forall other, other <> caos_name ->
                 get_implementation m' other = get_implementation m other).
Proof.
  unfold add_implementation, get_implementation. intros Hadd Hnn.
  assert (Hm' : implementation_map m' =
                PyDict.set String.eqb (implementation_map m) caos_name type).
  { destruct (PyDict.get String.eqb (implementation_map m) caos_name)
      as [[]|]; inversion Hadd; reflexivity. }
  rewrite Hm'. rewrite (PyDictFacts.get_set_same _ str_eqb_eq).
  split; [reflexivity|]. split.
  - intros type'. destruct type; try reflexivity. contradiction.
  - intros other Hne.
    rewrite (PyDictFacts.get_set_other _ str_eqb_eq); [reflexivity|].
    congruence.
Qed.

Definition int_impl : PyObj := PyType "Int".

Lemma implementation_registered_once_witness :
  get_implementation
    (mkMeta [] [("std.int", int_impl)] []) "std.int" = int_impl /\
  (forall type', add_implementation (mkMeta [] [("std.int", int_impl)] [])
                                    "std.int" type' = Raise ValueError).
Proof.
  destruct (@implementation_registered_once empty_meta "std.int" int_impl
              (mkMeta [] [("std.int", int_impl)] []) eq_refl
              ltac:(discriminate)) as (Hget & Hagain & _).
  split; assumption.
Defined.

Lemma get_mixins_add_mixin m caos_name type n :
  get_mixins (add_mixin m caos_name type) n =
  if String.eqb caos_name n then get_mixins m n ++ [type] else get_mixins m n.
Proof.
  unfold get_mixins, add_mixin. simpl.
  destruct (String.eqb_spec caos_name n) as [->|Hne].
  - rewrite (PyDictFacts.get_set_same _ str_eqb_eq).
    destruct (PyDict.get String.eqb (mixin_map m) n) as [[|x l]|]; reflexivity.
  - now rewrite (PyDictFacts.get_set_other _ str_eqb_eq _ _ Hne).
Qed.

(** get_mixins gives the mixins added under a name, in the order of the
    add_mixin calls, after those that were there before. *)
Theorem get_mixins_in_order (regs : list (string * PyObj)) :
  forall m n,
    get_mixins (fold_left (fun m r => add_mixin m (fst r) (snd r)) regs m) n =
    get_mixins m n ++
    map snd (filter (fun r => String.eqb (fst r) n) regs).
Proof.
  induction regs as [|[k t] regs IH]; intros m n; simpl.
  - now rewrite app_nil_r.
  - rewrite IH, get_mixins_add_mixin.
    destruct (String.eqb k n); simpl; [|reflexivity].
    now rewrite <- app_assoc.
Qed.

(** The tuples of [product] are the ways to pick one element from each
    iterable. *)
Lemma product_In (iterables : list (list PyObj)) :
  forall argt, In argt (product iterables) <->
               Forall2 (fun x pool => In x pool) argt iterables.
Proof.
  induction iterables as [|pool rest IH]; intros argt; simpl.
  - split.
    + intros [<-|[]]. constructor.
    + intros H. inversion H. now left.
  - rewrite in_flat_map. split.
    + intros (x & Hx & Hin). apply in_map_iff in Hin.
      destruct Hin as (tl & <- & Htl). constructor; [exact Hx|].
      now apply IH.
    + intros H. inversion H as [|x pool' tl rest' Hx Htl]; subst.
      exists x. split; [exact Hx|]. apply in_map. now apply IH.
Qed.

Lemma argtypes_from_length type params :
  forall i argtypes, argtypes_from i type params = Ok argtypes ->
                     List.length argtypes = List.length params.
Proof.
  induction params as [|a params IH]; intros i argtypes; simpl.
  - intros [= <-]. reflexivity.
  - destruct (match i, a with
              | O, _ => Ok [type]
              | S _, Some ann => Ok (as_tuple ann)
              | S _, None => Raise KeyError
              end) as [this|e]; simpl; [|discriminate].
    destruct (argtypes_from (S i) type params) as [more|e] eqn:E; simpl;
      [|discriminate].
    intros [= <-]. simpl. f_equal. now apply (IH (S i)).
Qed.

Lemma sigs_of_add_rule rules op args res op' n :
  TypeRulesSpec.sigs_of (add_rule rules op args res) op' n =
  if String.eqb op op' && Nat.eqb (List.length args) n
  then PyDict.set sig_eqb (TypeRulesSpec.sigs_of rules op' n) args res
  else TypeRulesSpec.sigs_of rules op' n.
Proof.
  exact (TypeRulesSpec.sigs_of_register rules (mkReg op args res) op' n).
Qed.

(* What a run of add_rule over tuples of one length leaves under the
   operator and that length, and elsewhere. *)
Lemma fold_add_rule astop res n (tuples : list (list PyObj)) :
  Forall (fun t => List.length t = n) tuples ->
  forall rules,
    let rules' := fold_left (fun r argt => add_rule r astop argt res)
                            tuples rules in
    (forall argt, In argt tuples ->
       PyDict.get sig_eqb (TypeRulesSpec.sigs_of rules' astop n) argt = Some res) /\
    (forall argt, ~ In argt tuples ->
       PyDict.get sig_eqb (TypeRulesSpec.sigs_of rules' astop n) argt =
       PyDict.get sig_eqb (TypeRulesSpec.sigs_of rules astop n) argt) /\
    (forall op m, op <> astop \/ m <> n ->
       TypeRulesSpec.sigs_of rules' op m = TypeRulesSpec.sigs_of rules op m).
Proof.
  intros Hlen. induction tuples as [|t tuples IH] using rev_ind;
    intros rules rules'.
  - unfold rules'. simpl. repeat split; intros; [contradiction | reflexivity..].
  - apply Forall_app in Hlen. destruct Hlen as [Hts Ht].
    inversion Ht as [|? ? Hlt _]; subst.
    specialize (IH Hts rules). cbv zeta in IH.
    destruct IH as (Hin & Hout & Hframe).
    unfold rules'. rewrite fold_left_app. simpl.
    set (mid := fold_left (fun r argt => add_rule r astop argt res)
                          tuples rules) in *.
    split; [|split].
    + intros argt Hargt. rewrite sigs_of_add_rule.
      rewrite String.eqb_refl, Nat.eqb_refl. simpl.
      destruct (sig_eqb argt t) eqn:E.
      * apply TypeRulesSpec.sig_eqb_eq in E. subst argt.
        apply (PyDictFacts.get_set_same _ TypeRulesSpec.sig_eqb_eq).
      * assert (Hne : argt <> t).
        { intros ->. rewrite (proj2 (TypeRulesSpec.sig_eqb_eq t t) eq_refl) in E.
          discriminate. }
        rewrite (PyDictFacts.get_set_other _ TypeRulesSpec.sig_eqb_eq);
          [|congruence].
        apply Hin. apply in_app_or in Hargt.
        destruct Hargt as [H|[H|[]]]; [exact H | congruence].
    + intros argt Hargt. rewrite sigs_of_add_rule.
      rewrite String.eqb_refl, Nat.eqb_refl. simpl.
      rewrite (PyDictFacts.get_set_other _ TypeRulesSpec.sig_eqb_eq).
      * apply Hout. intros H. apply Hargt. apply in_or_app. now left.
      * intros ->. apply Hargt. apply in_or_app. right. now left.
    + intros op m Hom. rewrite sigs_of_add_rule.
      destruct (String.eqb_spec astop op) as [<-|Hop]; simpl.
      * destruct (Nat.eqb_spec (List.length t) m) as [<-|Hm];
          [tauto | now apply Hframe].
      * now apply Hframe.
Qed.

(** For a method of an operator whose parameters after the first are
    all annotated, every tuple that takes the class first and then one
    alternative of each annotation is registered with the return
    annotation; the signatures of other operators and arities stay as
    they were. *)
Theorem register_operator_covers rules astop type params ret rules' :
  register_operator rules astop type params (Some ret) = Ok rules' ->
  exists argtypes,
    argtypes_from 0 type params = Ok argtypes /\
    (forall argt, Forall2 (fun x pool => In x pool) argt argtypes ->
       PyDict.get sig_eqb
         (TypeRulesSpec.sigs_of rules' astop (List.length params)) argt
       = Some ret) /\
    (forall op n, op <> astop \/ n <> List.length params ->
       TypeRulesSpec.sigs_of rules' op n = TypeRulesSpec.sigs_of rules op n).
Proof.
  unfold register_operator.
  destruct (argtypes_from 0 type params) as [argtypes|e] eqn:E; simpl;
    [|discriminate].
  intros [= <-]. exists argtypes. split; [reflexivity|].
  pose proof (argtypes_from_length _ _ _ E) as Hlen.
  assert (Hall : Forall (fun t => List.length t = List.length params)
                        (product argtypes)).
  { apply Forall_forall. intros t Ht. apply product_In in Ht.
    rewrite <- Hlen. clear - Ht. induction Ht; simpl; congruence. }
  destruct (fold_add_rule astop ret Hall rules) as (Hin & _ & Hframe).
  split.
  - intros argt Hargt. apply Hin. now apply product_In.
  - exact Hframe.
Qed.

Definition int_type : PyObj := PyType "int".
Definition float_type : PyObj := PyType "float".

Lemma register_operator_covers_witness :
  exists rules',
    register_operator empty_rules "+" int_type
      [None; Some (Alternatives [int_type; float_type])] (Some float_type)
    = Ok rules' /\
    PyDict.get sig_eqb (TypeRulesSpec.sigs_of rules' "+" 2)
               [int_type; float_type] = Some float_type.
Proof.
  eexists. split; [reflexivity|].
  destruct (@register_operator_covers empty_rules "+" int_type
              [None; Some (Alternatives [int_type; float_type])]
              float_type _ eq_refl) as (argtypes & Hargs & Hin & _).
  injection Hargs as <-.
  apply Hin.
  apply Forall2_cons; [simpl; tauto|].
  apply Forall2_cons; [simpl; tauto | constructor].
Defined.

(** A method parameter after the first that has no annotation ends the
    registration in KeyError before any rule is added. *)
Theorem register_operator_unannotated rules astop type first before after ret :
  register_operator rules astop type (first :: before ++ None :: after) ret
  = Raise KeyError.
Proof.
  assert (H : forall i, argtypes_from (S i) type (before ++ None :: after)
                        = Raise KeyError).
  { induction before as [|a before IH]; intros i; simpl.
    - reflexivity.
    - rewrite IH. now destruct a. }
  unfold register_operator. simpl. rewrite H. reflexivity.
Qed.

Section Resolution.
Variable issubclass : string -> string -> bool.
Variable proto_issubclass : string -> PyObj -> bool.
Variable schema_get : string -> PyObj.

(** A registration does not touch the resolution of other operators or
    of calls with another number of arguments, whatever the registry
    holds. *)
Theorem add_rule_frame rules op args res op' args' :
  op' <> op \/ List.length args' <> List.length args ->
  get_result issubclass proto_issubclass schema_get
             (add_rule rules op args res) op' args' =
  get_result issubclass proto_issubclass schema_get rules op' args'.
Proof.
  intros H. rewrite !TypeRulesSpec.get_result_scan, sigs_of_add_rule.
  destruct (String.eqb_spec op op') as [->|Hop]; simpl; [|reflexivity].
  destruct (Nat.eqb_spec (List.length args) (List.length args')) as [E|Hn];
    [|reflexivity].
  destruct H; congruence.
Qed.

(** A function without argument resolves to the result of its latest
    registration. *)
Theorem nullary_function_resolves regs name res :
  get_result issubclass proto_issubclass schema_get
             (register_function (registry_of regs) name None res) name [] =
  Ok (resolve schema_get res).
Proof.
  unfold register_function.
  rewrite TypeRulesSpec.add_rule_registry, TypeRulesSpec.get_result_registry.
  set (reg := mkReg name [] res).
  set (ends := TypeRulesSpec.ends_at issubclass proto_issubclass name []).
  assert (Hm : ends reg = true).
  { unfold ends, TypeRulesSpec.ends_at, TypeRulesSpec.concerns. simpl.
    now rewrite String.eqb_refl. }
  destruct (find ends (regs ++ [reg])) as [r0|] eqn:F.
  - simpl. f_equal. f_equal. rewrite TypeRulesSpec.latest_snoc.
    apply find_some in F. destruct F as [_ F].
    unfold ends, TypeRulesSpec.ends_at, TypeRulesSpec.concerns in F.
    rewrite !andb_true_iff in F. destruct F as [[Hop Hlen] _].
    apply String.eqb_eq in Hop. apply Nat.eqb_eq in Hlen.
    unfold TypeRulesSpec.same_key. simpl. rewrite Hop, String.eqb_refl.
    destruct (reg_args r0); [reflexivity | discriminate].
  - exfalso. pose proof (List.find_none _ _ F reg) as Hf.
    rewrite Hf in Hm; [discriminate|]. apply in_or_app. right. now left.
Qed.
End Resolution.

Lemma add_rule_frame_witness :
  get_result TypeRulesSpec.py_issubclass TypeRulesSpec.no_prototypes
             TypeRulesSpec.empty_schema
             (add_rule empty_rules "+" [int_type; int_type] int_type)
             "-" [int_type; int_type] =
  get_result TypeRulesSpec.py_issubclass TypeRulesSpec.no_prototypes
             TypeRulesSpec.empty_schema empty_rules "-" [int_type; int_type].
Proof.
  apply (@add_rule_frame TypeRulesSpec.py_issubclass TypeRulesSpec.no_prototypes
           TypeRulesSpec.empty_schema empty_rules "+" [int_type; int_type]
           int_type "-" [int_type; int_type]).
  left. discriminate.
Defined.

End TypeInfoSpec.

(** ** Table-alteration batches *)
Module BatcherSpec.
Import Batcher.
Local Open Scope string_scope.
Local Open Scope list_scope.
Local Open Scope Z_scope.

Lemma Key_eqb_eq a b : Key_eqb a b = true <-> a = b.
Proof.
  destruct a as [[a1 a2] ap ac], b as [[b1 b2] bp bc].
  unfold Key_eqb, TableName_eqb. simpl.
  rewrite !andb_true_iff, !String.eqb_eq, Z.eqb_eq, Bool.eqb_true_iff.
  split.
  - intros [[[-> ->] ->] ->]. reflexivity.
  - intros [= -> -> -> ->]. auto.
Qed.

Lemma list_last_snoc l x : list_last (l ++ [x]) = Ok x.
Proof. unfold list_last. now rewrite rev_app_distr. Qed.

(* The commands registered for a type of command under a key. *)
Definition registered (self : Self) (cmdtype : string) (key : Key) : list nat :=
  match PyDict.get String.eqb (_multicommands self) cmdtype with
  | Some typecommands =>
      match PyDict.get Key_eqb typecommands key with
      | Some l => l
      | None => []
      end
  | None => []
  end.

(** A second plain request for the same object, priority and keyword
    arguments returns the command of the first one and changes
    nothing. *)
Lemma _get_multicommand_again self cmdtype name priority kw id self1 :
  _get_multicommand self cmdtype name priority false false kw = Ok (id, self1) ->
  _get_multicommand self1 cmdtype name priority false false kw = Ok (id, self1).
Proof.
  destruct self as [tn mc ops hp]. unfold _get_multicommand. simpl.
  destruct (PyDict.get String.eqb mc cmdtype) as [tc|] eqn:Gmc.
  - destruct (PyDict.get Key_eqb tc (mkKey name priority kw)) as [l|] eqn:Gtc;
      simpl.
    + destruct (list_last l) as [x|e] eqn:Hl; simpl; [|discriminate].
      intros [= <- <-]. simpl. rewrite Gmc, Gtc. simpl. now rewrite Hl.
    + intros [= <- <-]. simpl.
      rewrite (PyDictFacts.get_set_same _ String.eqb_eq).
      rewrite (PyDictFacts.get_set_same _ Key_eqb_eq). simpl.
      reflexivity.
  - cbn -[PyDict.set PyDict.get Key_eqb]. intros [= <- <-].
    cbn -[PyDict.set PyDict.get Key_eqb].
    rewrite !(PyDictFacts.get_set_same _ String.eqb_eq).
    cbn [PyDict.get]. rewrite (proj2 (Key_eqb_eq _ _) eq_refl).
    reflexivity.
Qed.

Lemma _get_multicommand_table_name self cmdtype name priority force_new
    manual kw id self1 :
  _get_multicommand self cmdtype name priority force_new manual kw
    = Ok (id, self1) ->
  table_name self1 = table_name self.
Proof.
  unfold _get_multicommand.
  destruct (_ || _ || _).
  - destruct (negb manual); intros [= <- <-]; reflexivity.
  - destruct (list_last _); simpl; [|discriminate].
    intros [= <- <-]. reflexivity.
Qed.

(** The batch of a table: a plain request repeated for the same table,
    priority and containment returns the same ALTER TABLE and leaves the
    command as it is, so that the operations of both callers end up in
    one statement. *)
Theorem get_alter_table_same_batch self ctx_table priority contained
    table_name_arg id self1 :
  get_alter_table self ctx_table priority false contained false table_name_arg
    = Ok (id, self1) ->
  get_alter_table self1 ctx_table priority false contained false table_name_arg
    = Ok (id, self1).
Proof.
  unfold get_alter_table.
  destruct table_name_arg as [t|].
  - simpl. apply _get_multicommand_again.
  - destruct (table_name self) as [t|] eqn:Htn; simpl.
    + intros H.
      rewrite (_get_multicommand_table_name _ _ _ _ _ _ _ H), Htn. simpl.
      exact (_get_multicommand_again _ _ _ _ _ H).
    + destruct ctx_table as [t|]; simpl; [|discriminate].
      intros H.
      rewrite (_get_multicommand_table_name _ _ _ _ _ _ _ H). simpl.
      exact (_get_multicommand_again _ _ _ _ _ H).
Qed.

Lemma get_alter_table_same_batch_witness :
  get_alter_table new_self (Some ("caos", "Person_data")) 0 false false false None
    = Ok (0%nat,
          mkSelf (Some ("caos", "Person_data"))
                 [("AlterTable",
                   [(mkKey ("caos", "Person_data") 0 false, [0%nat])])]
                 []
                 [mkCmd "AlterTable" ("caos", "Person_data") 0 false []]) /\
  get_alter_table
    (mkSelf (Some ("caos", "Person_data"))
            [("AlterTable", [(mkKey ("caos", "Person_data") 0 false, [0%nat])])]
            []
            [mkCmd "AlterTable" ("caos", "Person_data") 0 false []])
    (Some ("caos", "Person_data")) 0 false false false None
    = Ok (0%nat,
          mkSelf (Some ("caos", "Person_data"))
                 [("AlterTable",
                   [(mkKey ("caos", "Person_data") 0 false, [0%nat])])]
                 []
                 [mkCmd "AlterTable" ("caos", "Person_data") 0 false []]).
Proof.
  split; [reflexivity|].
  apply (get_alter_table_same_batch new_self (Some ("caos", "Person_data"))
           0 false None).
  reflexivity.
Defined.

(** *** Commands are allocated before they are registered *)

Lemma In_set K V (eqb : K -> K -> bool) (d : PyDict.t K V) k v k' v' :
  In (k', v') (PyDict.set eqb d k v) -> v' = v \/ In (k', v') d.
Proof.
  induction d as [|[k0 v0] d IH]; simpl.
  - intros [[= <- <-]|[]]. now left.
  - destruct (eqb k k0); simpl.
    + intros [[= <- <-]|H]; auto.
    + intros [H|H]; auto. destruct (IH H); auto.
Qed.

(* Every command held by the registry or by pgops below [n]. *)
Definition below (n : nat) (self : Self) : Prop :=
  (forall ct tc k l id,
      In (ct, tc) (_multicommands self) -> In (k, l) tc -> In id l ->
      (id < n)%nat) /\
  (forall id, In (Batch id) (pgops self) -> (id < n)%nat).

Definition allocated (self : Self) : Prop :=
  below (List.length (heap self)) self.

Lemma allocated_new_self : allocated new_self.
Proof. split; simpl; intros; contradiction. Qed.

Lemma get_In_str (V : Type) (d : PyDict.t string V) k v :
  PyDict.get String.eqb d k = Some v -> In (k, v) d.
Proof.
  intros H. apply (PyDictFacts.get_Some_In _ String.eqb_eq) in H. exact H.
Qed.

Lemma get_In_key (V : Type) (d : PyDict.t Key V) k v :
  PyDict.get Key_eqb d k = Some v -> In (k, v) d.
Proof.
  intros H. apply (PyDictFacts.get_Some_In _ Key_eqb_eq) in H. exact H.
Qed.

Lemma below_le n m self : (n <= m)%nat -> below n self -> below m self.
Proof.
  intros Hle [H1 H2]. split.
  - intros ct tc k l id A B C. specialize (H1 ct tc k l id A B C). lia.
  - intros id A. specialize (H2 id A). lia.
Qed.

(* What a request leaves in the registry and in pgops was there before,
   but for the command it has made, when it registers it. *)
Lemma _get_multicommand_below self cmdtype name priority force_new manual kw
    id self1 :
  allocated self ->
  _get_multicommand self cmdtype name priority force_new manual kw
    = Ok (id, self1) ->
  (id < List.length (heap self1))%nat /\
  (if manual then below (List.length (heap self)) self1 /\
                  id = List.length (heap self)
   else allocated self1).
Proof.
  intros [W1 W2]. destruct self as [tn mc ops hp]. simpl in W1, W2.
  unfold allocated, _get_multicommand. simpl.
  destruct (PyDict.get String.eqb mc cmdtype) as [tc|] eqn:Gmc.
  - pose proof (get_In_str _ _ Gmc) as Imc.
    destruct (PyDict.get Key_eqb tc (mkKey name priority kw)) as [l|] eqn:Gtc;
      simpl.
    + pose proof (get_In_key _ _ Gtc) as Itc.
      destruct force_new, manual; simpl;
        try (intros [= <- <-]; simpl; rewrite length_app; simpl;
             split; [lia|]).
      * split; [|reflexivity]. split; simpl; eauto.
      * split; simpl.
        -- intros ct tc' k l' id A B C.
           apply In_set in A. destruct A as [->|A].
           ++ apply In_set in B. destruct B as [->|B].
              ** apply in_app_or in C. destruct C as [C|[<-|[]]]; [|lia].
                 specialize (W1 _ _ _ _ _ Imc Itc C). lia.
              ** specialize (W1 _ _ _ _ _ Imc B C). lia.
           ++ specialize (W1 _ _ _ _ _ A B C). lia.
        -- intros id A. specialize (W2 id A). lia.
      * split; [|reflexivity]. split; simpl; eauto.
      * destruct (list_last l) as [x|e] eqn:Hl; simpl; [|discriminate].
        intros [= <- <-]. simpl. split.
        -- unfold list_last in Hl. destruct (rev l) as [|y r] eqn:Hr;
             [discriminate|]. injection Hl as ->.
           apply (W1 _ _ _ _ x Imc Itc). apply in_rev. rewrite Hr. now left.
        -- split; simpl; eauto.
    + destruct manual; simpl; intros [= <- <-]; simpl; rewrite length_app;
        simpl; (split; [lia|]).
      * split; [|reflexivity]. split; simpl; eauto.
      * split; simpl.
        -- intros ct tc' k l' id A B C.
           apply In_set in A. destruct A as [->|A].
           ++ apply In_set in B. destruct B as [->|B].
              ** destruct C as [<-|[]]. lia.
              ** specialize (W1 _ _ _ _ _ Imc B C). lia.
           ++ specialize (W1 _ _ _ _ _ A B C). lia.
        -- intros id A. specialize (W2 id A). lia.
  - simpl. destruct manual; simpl; intros [= <- <-]; simpl; rewrite length_app;
      simpl; (split; [lia|]).
    + split; [|reflexivity]. split; simpl; [|eauto].
      intros ct tc' k l' id A B C.
      apply In_set in A. destruct A as [->|A]; [contradiction|eauto].
    + split; simpl.
      * intros ct tc' k l' id A B C.
        apply In_set in A. destruct A as [->|A].
        -- destruct B as [[= <- <-]|[]]. destruct C as [<-|[]]. lia.
        -- apply In_set in A. destruct A as [->|A]; [contradiction|].
           specialize (W1 _ _ _ _ _ A B C). lia.
      * intros id A. specialize (W2 id A). lia.
Qed.

(** Every command that the registry or pgops hold has been allocated:
    the invariant holds for a new command object and every request keeps
    it, whatever its flags; the command it returns is an allocated one. *)
Theorem get_multicommand_allocated self cmdtype name priority force_new
    manual kw id self1 :
  allocated self ->
  _get_multicommand self cmdtype name priority force_new manual kw
    = Ok (id, self1) ->
  allocated self1 /\ (id < List.length (heap self1))%nat.
Proof.
  intros W H. destruct (@_get_multicommand_below _ _ _ _ _ _ _ _ _ W H) as [Hid Hb].
  split; [|exact Hid].
  destruct manual; [|exact Hb].
  destruct Hb as [Hb ->]. apply (below_le (n := List.length (heap self))).
  - lia.
  - exact Hb.
Qed.

(* The command of a class after its first request for the table of Person. *)
Definition person_self : Self :=
  mkSelf None
         [("AlterTable", [(mkKey ("caos", "Person_data") 0 false, [0%nat])])]
         []
         [mkCmd "AlterTable" ("caos", "Person_data") 0 false []].

Lemma get_multicommand_allocated_witness :
  allocated new_self /\
  allocated person_self /\ (0 < List.length (heap person_self))%nat.
Proof.
  split; [exact allocated_new_self|].
  apply (@get_multicommand_allocated new_self "AlterTable"
           ("caos", "Person_data") 0 false false false 0%nat person_self
           allocated_new_self).
  reflexivity.
Defined.

Lemma PgItem_eqb_eq a b : PgItem_eqb a b = true <-> a = b.
Proof.
  destruct a, b; simpl;
    rewrite ?Nat.eqb_eq, ?String.eqb_eq; split; congruence.
Qed.

Lemma existsb_PgItem x s : existsb (PgItem_eqb x) s = true <-> In x s.
Proof.
  rewrite existsb_exists. split.
  - intros [y [Hy He]]. apply PgItem_eqb_eq in He. now subst.
  - intros H. exists x. split; [exact H|]. now apply PgItem_eqb_eq.
Qed.

Lemma In_ordered_add s x y : In y (ordered_add s x) <-> In y s \/ y = x.
Proof.
  unfold ordered_add. destruct (existsb (PgItem_eqb x) s) eqn:E.
  - apply existsb_PgItem in E. split; [auto|]. intros [H| ->]; assumption.
  - rewrite in_app_iff. simpl. intuition.
Qed.

Lemma In_ordered_update l : forall s y,
  In y (ordered_update s l) <-> In y s \/ In y l.
Proof.
  unfold ordered_update.
  induction l as [|x l IH]; intros s y; simpl.
  - tauto.
  - rewrite IH, In_ordered_add. intuition.
Qed.

Lemma ordered_update_absorb l : forall s,
  (forall x, In x l -> In x s) -> ordered_update s l = s.
Proof.
  unfold ordered_update.
  induction l as [|x l IH]; intros s H; simpl; [reflexivity|].
  assert (E : ordered_add s x = s).
  { unfold ordered_add.
    destruct (existsb (PgItem_eqb x) s) eqn:E; [reflexivity|].
    assert (In x s) as Hx by (apply H; now left).
    apply existsb_PgItem in Hx. congruence. }
  rewrite E. apply IH. intros y Hy. apply H. now right.
Qed.

(* The commands of a registry entry in the order in which the attach
   adds them. *)
Definition attach_order (self : Self) (typecommands : PyDict.t Key (list nat))
    : list nat :=
  map snd (Scheduler.sorted_by_key
             (map (fun id => (priority_of self id, id))
                  (List.concat (map snd typecommands)))).

Lemma In_attach_order self tc id :
  In id (attach_order self tc) <-> In id (List.concat (map snd tc)).
Proof.
  unfold attach_order.
  set (l := List.concat (map snd tc)).
  assert (P : Permutation
                (map snd (Scheduler.sorted_by_key
                            (map (fun id => (priority_of self id, id)) l))) l).
  { rewrite SchedulerSpec.sorted_by_key_Permutation.
    rewrite map_map. simpl. now rewrite map_id. }
  split; intros H.
  - eapply Permutation_in; [exact P | exact H].
  - eapply Permutation_in; [symmetry; exact P | exact H].
Qed.

Lemma In_Batch id l : In (Batch id) (map Batch l) <-> In id l.
Proof.
  rewrite in_map_iff. split.
  - intros [x [[= ->] H]]. exact H.
  - intros H. now exists id.
Qed.

(** A command made with manual=True is handed to the caller only: no
    attach of any type of command puts it among the operations. *)
Theorem manual_command_never_attached self cmdtype name priority force_new kw
    id self1 cmdtype' :
  allocated self ->
  _get_multicommand self cmdtype name priority force_new true kw
    = Ok (id, self1) ->
  ~ In (Batch id) (pgops (_attach_multicommand self1 cmdtype')).
Proof.
  intros W H.
  destruct (@_get_multicommand_below _ _ _ _ _ _ _ _ _ W H) as [_ [[B1 B2] ->]].
  unfold _attach_multicommand.
  destruct (PyDict.get String.eqb (_multicommands self1) cmdtype')
    as [tc|] eqn:G.
  - simpl. fold (attach_order self1 tc).
    rewrite In_ordered_update, In_Batch, In_attach_order.
    intros [A|A].
    + specialize (B2 _ A). lia.
    + apply in_concat in A. destruct A as [l [Hl A]].
      apply in_map_iff in Hl. destruct Hl as [[k l'] [E Hl]]. simpl in E.
      subst l'. pose proof (get_In_str _ _ G) as I.
      specialize (B1 _ _ _ _ _ I Hl A). lia.
  - intros A. specialize (B2 _ A). lia.
Qed.

Lemma manual_command_never_attached_witness :
  allocated new_self /\
  ~ In (Batch 0%nat)
       (pgops (_attach_multicommand
                 (mkSelf None [("AlterTable", [])] []
                         [mkCmd "AlterTable" ("caos", "Person_data") 0 false []])
                 "AlterTable")).
Proof.
  split; [exact allocated_new_self|].
  apply (@manual_command_never_attached new_self "AlterTable"
           ("caos", "Person_data") 0 false false _ _ "AlterTable"
           allocated_new_self).
  reflexivity.
Defined.

(** force_new=True starts a batch: the request returns a command that is
    not the one the table had, and the plain requests that follow get the
    new command. *)
Theorem force_new_starts_a_batch self cmdtype name priority kw id0 self0 :
  allocated self ->
  _get_multicommand self cmdtype name priority false false kw
    = Ok (id0, self0) ->
  exists id1 self1,
    _get_multicommand self0 cmdtype name priority true false kw
      = Ok (id1, self1) /\
    id1 <> id0 /\
    _get_multicommand self1 cmdtype name priority false false kw
      = Ok (id1, self1).
Proof.
  intros W H.
  destruct (@_get_multicommand_below _ _ _ _ _ _ _ _ _ W H) as [Hid0 _].
  exists (List.length (heap self0)).
  destruct self0 as [tn mc ops hp]. simpl in *.
  unfold _get_multicommand at 1. simpl.
  rewrite orb_true_r. simpl.
  eexists. split; [reflexivity|]. split; [lia|].
  unfold _get_multicommand. simpl.
  destruct (PyDict.get String.eqb mc cmdtype) as [tc|] eqn:Gmc.
  - rewrite (PyDictFacts.get_set_same _ String.eqb_eq).
    rewrite (PyDictFacts.get_set_same _ Key_eqb_eq). simpl.
    rewrite list_last_snoc. reflexivity.
  - rewrite (PyDictFacts.get_set_same _ String.eqb_eq).
    cbn [PyDict.set PyDict.get].
    rewrite (proj2 (Key_eqb_eq _ _) eq_refl). simpl.
    reflexivity.
Qed.

Lemma force_new_starts_a_batch_witness :
  allocated new_self /\
  exists id1 self1,
    _get_multicommand
      (mkSelf None
         [("AlterTable", [(mkKey ("caos", "Person_data") 0 false, [0%nat])])]
         []
         [mkCmd "AlterTable" ("caos", "Person_data") 0 false []])
      "AlterTable" ("caos", "Person_data") 0 true false false
      = Ok (id1, self1) /\
    id1 <> 0%nat /\
    _get_multicommand self1 "AlterTable" ("caos", "Person_data") 0 false false
      false = Ok (id1, self1).
Proof.
  split; [exact allocated_new_self|].
  apply (@force_new_starts_a_batch new_self "AlterTable"
           ("caos", "Person_data") 0 false _ _ allocated_new_self).
  reflexivity.
Defined.

(** Attaching twice is attaching once: the second attach finds every
    command among the operations already. *)
Theorem attach_multicommand_idempotent self cmdtype :
  _attach_multicommand (_attach_multicommand self cmdtype) cmdtype
  = _attach_multicommand self cmdtype.
Proof.
  unfold _attach_multicommand.
  destruct (PyDict.get String.eqb (_multicommands self) cmdtype)
    as [tc|] eqn:G; simpl; rewrite G; [|reflexivity].
  f_equal. unfold priority_of. simpl.
  apply ordered_update_absorb. intros x Hx.
  apply In_ordered_update. now right.
Qed.

Lemma ordered_update_sorted (R : nat -> nat -> Prop) l :
  StronglySorted R l ->
  forall s, exists added,
    ordered_update s (map Batch l) = s ++ map Batch added /\
    StronglySorted R added /\ NoDup added /\
    (forall id, In id added <-> In id l /\ ~ In (Batch id) s).
Proof.
  unfold ordered_update.
  induction 1 as [|x l Hs IH Hall]; intros s; simpl.
  - exists []. rewrite app_nil_r.
    repeat split; try constructor; simpl; tauto.
  - unfold ordered_add at 2.
    destruct (existsb (PgItem_eqb (Batch x)) s) eqn:Ex.
    + apply existsb_PgItem in Ex.
      destruct (IH s) as [r [E [S [N I]]]]. exists r.
      repeat split; try assumption.
      * now right; apply I.
      * now apply I.
      * intros [[<-|Hl] Hn]; [contradiction|]. apply I. now split.
    + assert (Hx : ~ In (Batch x) s).
      { intros Hin. apply existsb_PgItem in Hin. congruence. }
      destruct (IH (s ++ [Batch x])) as [r [E [S [N I]]]]. exists (x :: r).
      rewrite E, <- app_assoc. simpl. repeat split.
      * constructor; [exact S|]. rewrite Forall_forall in *.
        intros y Hy. apply Hall. now apply I.
      * constructor; [|exact N]. intros Hin. apply I in Hin.
        destruct Hin as [_ Hin]. apply Hin, in_or_app. right. now left.
      * destruct H as [<-|H]; [now left|]. right. now apply I.
      * destruct H as [<-|H]; [exact Hx|]. apply I in H.
        destruct H as [_ H]. intros Hin. apply H, in_or_app. now left.
      * intros [[<-|Hl] Hn]; [now left|].
        destruct (Nat.eq_dec x id) as [<-|Hne]; [now left|]. right.
        apply I. split; [exact Hl|]. intros Hin.
        apply in_app_or in Hin. destruct Hin as [Hin|[[= Heq]|[]]];
          [contradiction | congruence].
Qed.

(** The commands that the requests for a type of command have
    registered, over all keys: typecommands.values(), chained. *)
Definition all_registered (self : Self) (cmdtype : string) : list nat :=
  match PyDict.get String.eqb (_multicommands self) cmdtype with
  | Some typecommands => List.concat (map snd typecommands)
  | None => []
  end.

(** An attach keeps the operations that are there and adds after them
    the registered commands of the type that are not there yet, each
    once and by ascending priority. *)
Theorem attach_multicommand_ascending self cmdtype :
  exists added,
    pgops (_attach_multicommand self cmdtype)
      = pgops self ++ map Batch added /\
    StronglySorted
      (fun a b => priority_of self a <= priority_of self b) added /\
    NoDup added /\
    (forall id, In id added <->
                In id (all_registered self cmdtype) /\
                ~ In (Batch id) (pgops self)).
Proof.
  unfold _attach_multicommand, all_registered.
  destruct (PyDict.get String.eqb (_multicommands self) cmdtype) as [tc|].
  - simpl.
    pose proof (In_attach_order self tc) as Hin. unfold attach_order in Hin.
    revert Hin.
    set (l := Scheduler.sorted_by_key _). intros Hin.
    assert (S : StronglySorted
                  (fun a b => priority_of self a <= priority_of self b)
                  (map snd l)).
    { assert (K : Forall (fun kv => fst kv = priority_of self (snd kv)) l).
      { rewrite Forall_forall. intros kv Hkv.
        eapply Permutation_in in Hkv;
          [|apply SchedulerSpec.sorted_by_key_Permutation].
        apply in_map_iff in Hkv. destruct Hkv as [id [<- _]]. reflexivity. }
      pose proof (SchedulerSpec.sorted_by_key_Sorted
                    (map (fun id => (priority_of self id, id))
                         (List.concat (map snd tc)))) as Hs.
      fold l in Hs. clear Hin. clearbody l.
      induction Hs as [|kv l Hs IH Hall]; simpl; constructor.
      - apply IH. now inversion K.
      - inversion K as [|? ? Hkv K']; subst.
        rewrite Forall_forall in *. intros y Hy.
        apply in_map_iff in Hy. destruct Hy as [kv' [<- Hy]].
        rewrite <- Hkv, <- (K' _ Hy). apply (Hall _ Hy). }
    destruct (ordered_update_sorted S (pgops self)) as [r [E [Sr [N I]]]].
    exists r. split; [exact E|]. split; [exact Sr|]. split; [exact N|].
    intros id. rewrite I, Hin. reflexivity.
  - exists []. simpl. rewrite app_nil_r.
    repeat split; try constructor; simpl; tauto.
Qed.

(** Every command that a request has registered is among the operations
    after the attach of its type. *)
Theorem attach_multicommand_covers self cmdtype key id :
  In id (registered self cmdtype key) ->
  In (Batch id) (pgops (_attach_multicommand self cmdtype)).
Proof.
  unfold registered, _attach_multicommand.
  destruct (PyDict.get String.eqb (_multicommands self) cmdtype) as [tc|];
    [|contradiction].
  destruct (PyDict.get Key_eqb tc key) as [l|] eqn:G; [|contradiction].
  intros H. simpl. fold (attach_order self tc).
  apply In_ordered_update. right. apply In_Batch, In_attach_order.
  apply in_concat. exists l. split; [|exact H].
  apply in_map_iff. exists (key, l). split; [reflexivity|].
  now apply get_In_key.
Qed.

Lemma attach_multicommand_covers_witness :
  In (Batch 0%nat)
     (pgops (_attach_multicommand
               (mkSelf None
                  [("AlterTable",
                    [(mkKey ("caos", "Person_data") 0 false, [0%nat])])]
                  []
                  [mkCmd "AlterTable" ("caos", "Person_data") 0 false []])
               "AlterTable")).
Proof.
  apply (@attach_multicommand_covers
           (mkSelf None
              [("AlterTable",
                [(mkKey ("caos", "Person_data") 0 false, [0%nat])])]
              []
              [mkCmd "AlterTable" ("caos", "Person_data") 0 false []])
           "AlterTable" (mkKey ("caos", "Person_data") 0 false) 0%nat).
  simpl. now left.
Defined.

End BatcherSpec.

(** ** The upgrade chain at its edges and the guards of its steps *)
Module UpgradeStepsSpec.
Import Upgrade.
Local Open Scope string_scope.
Local Open Scope list_scope.
Local Open Scope Z_scope.

Lemma column_eqb_eq a b : column_eqb a b = true <-> a = b.
Proof.
  destruct a as [[a1 a2] a3], b as [[b1 b2] b3].
  unfold column_eqb, QName_eqb. simpl.
  rewrite !andb_true_iff, !String.eqb_eq. split.
  - intros [[-> ->] ->]. reflexivity.
  - intros [= -> -> ->]. auto.
Qed.

Lemma column_eqb_refl a : column_eqb a a = true.
Proof. now apply column_eqb_eq. Qed.

Lemma has_column_added cols types info t c :
  has_column (mkBackend (cols ++ [(t, c)]) types info) t c = true.
Proof.
  unfold has_column. simpl. rewrite existsb_app. simpl.
  rewrite column_eqb_refl. now rewrite orb_true_r.
Qed.

Lemma has_column_dropped cols types info t c :
  has_column
    (mkBackend (filter (fun x => negb (column_eqb (t, c) x)) cols) types info)
    t c = false.
Proof.
  unfold has_column. simpl.
  induction cols as [|x cols IH]; simpl; [reflexivity|].
  destruct (column_eqb (t, c) x) eqn:E; simpl; [exact IH|].
  now rewrite E, IH.
Qed.

Lemma has_column_kept cols types info t c t' c' :
  (t', c') <> (t, c) ->
  has_column
    (mkBackend (filter (fun x => negb (column_eqb (t, c) x)) cols) types info)
    t' c' = has_column (mkBackend cols types info) t' c'.
Proof.
  intros Hne. unfold has_column. simpl.
  induction cols as [|x cols IH]; simpl; [reflexivity|].
  destruct (column_eqb (t, c) x) eqn:E; simpl.
  - apply column_eqb_eq in E. subst x.
    assert (F : column_eqb (t', c') (t, c) = false).
    { destruct (column_eqb (t', c') (t, c)) eqn:F; [|reflexivity].
      apply column_eqb_eq in F. contradiction. }
    now rewrite F, IH.
  - now rewrite IH.
Qed.

(* Step 3 carries its guard: on every backend it succeeds and leaves
   concept.is_virtual in place, and run again on its result it changes
   nothing. *)
Lemma update_to_version_3_settles b :
  exists b',
    update_to_version_3 b = Ok b' /\
    has_column b' ("caos", "concept") "is_virtual" = true /\
    update_to_version_3 b' = Ok b'.
Proof.
  unfold update_to_version_3. simpl. unfold guards_pass. simpl.
  rewrite !orb_false_r.
  destruct (has_column b ("caos", "concept") "is_virtual") eqn:E; simpl.
  - exists b. rewrite ?E. simpl. auto.
  - eexists. split; [reflexivity|].
    rewrite !has_column_added. simpl. auto.
Qed.

(* Step 28 carries its guard: on every backend it succeeds and leaves
   no event.allowed_actions, and run again on its result it changes
   nothing. *)
Lemma update_to_version_28_settles b :
  exists b',
    update_to_version_28 b = Ok b' /\
    has_column b' ("caos", "event") "allowed_actions" = false /\
    update_to_version_28 b' = Ok b'.
Proof.
  unfold update_to_version_28. simpl. unfold guards_pass. simpl.
  rewrite !andb_true_r.
  destruct (has_column b ("caos", "event") "allowed_actions") eqn:E; simpl.
  - eexists. split; [reflexivity|].
    rewrite !has_column_dropped. simpl. auto.
  - exists b. rewrite ?E. simpl. auto.
Qed.

Lemma has_type_added cols types info t :
  has_type (mkBackend cols (types ++ [t]) info) t = true.
Proof.
  unfold has_type. simpl. rewrite existsb_app. simpl.
  rewrite UpgradeSpec.QName_eqb_refl. now rewrite orb_true_r.
Qed.

Lemma update_to_version_2_settles t b :
  exists b',
    update_to_version_2 t b = Ok b' /\
    has_type b' t = true /\
    update_to_version_2 t b' = Ok b'.
Proof.
  unfold update_to_version_2. simpl. unfold guards_pass. simpl.
  rewrite !orb_false_r.
  destruct (has_type b t) eqn:E; simpl.
  - exists b. rewrite ?E. simpl. auto.
  - eexists. split; [reflexivity|].
    rewrite !has_type_added. simpl. auto.
Qed.

(** The steps 2, 3 and 28 carry their guards: on every backend each of
    them succeeds and leaves what it is there for (the type of the link
    endpoints, the column concept.is_virtual, no column
    event.allowed_actions), and run again on its own result it changes
    nothing. *)
Theorem guarded_steps_settle link_endpoints_type b :
  (exists b',
      update_to_version_2 link_endpoints_type b = Ok b' /\
      has_type b' link_endpoints_type = true /\
      update_to_version_2 link_endpoints_type b' = Ok b') /\
  (exists b',
      update_to_version_3 b = Ok b' /\
      has_column b' ("caos", "concept") "is_virtual" = true /\
      update_to_version_3 b' = Ok b') /\
  (exists b',
      update_to_version_28 b = Ok b' /\
      has_column b' ("caos", "event") "allowed_actions" = false /\
      update_to_version_28 b' = Ok b').
Proof.
  split; [apply update_to_version_2_settles|].
  split; [apply update_to_version_3_settles|].
  apply update_to_version_28_settles.
Qed.

(** Step 30 carries no guard: on the backend that one run of it has
    produced, a second run is refused, whatever the backend was. *)
Theorem update_to_version_30_never_twice b b' :
  update_to_version_30 b = Ok b' ->
  update_to_version_30 b' = Raise BackendRejection.
Proof.
  unfold update_to_version_30. simpl. unfold guards_pass. simpl.
  destruct b as [cols types info]. simpl.
  destruct (has_column (mkBackend cols types info) ("caos", "link")
              "spectargets") eqn:E1; simpl; [discriminate|].
  unfold bind.
  match goal with
  | |- context [if ?c then Ok _ else Raise BackendRejection] =>
      destruct c eqn:E2
  end; [|discriminate].
  intros [= <-].
  rewrite has_column_kept by discriminate.
  rewrite has_column_added. reflexivity.
Qed.

Lemma update_to_version_30_never_twice_witness :
  update_to_version_30 UpgradeSpec.backend_29
  = Ok (mkBackend [(("caos", "link"), "name");
                   (("caos", "link"), "spectargets")] [] [29]) /\
  update_to_version_30
    (mkBackend [(("caos", "link"), "name");
                (("caos", "link"), "spectargets")] [] [29])
  = Raise BackendRejection.
Proof.
  split; [reflexivity|].
  apply (@update_to_version_30_never_twice UpgradeSpec.backend_29).
  reflexivity.
Defined.

Section Chain.
Variable step_body : Z -> Backend -> result Backend.

Lemma run_steps_app l1 : forall l2 context,
  run_steps step_body (l1 ++ l2) context =
  match run_steps step_body l1 context with
  | Ok c => run_steps step_body l2 c
  | Raise e => Raise e
  end.
Proof.
  induction l1 as [|v l1 IH]; intros l2 context; simpl; [reflexivity|].
  destruct (getattr_update_to_version step_body (v + 1)) as [step|e]; simpl;
    [|reflexivity].
  destruct (step (db context)) as [b|e]; simpl; [|reflexivity].
  apply IH.
Qed.

Lemma map_seq_from m : forall (f : nat -> Z) s,
  map f (seq s m) = map (fun i => f (s + i)%nat) (seq 0 m).
Proof.
  induction m as [|m IH]; intros f s; simpl; [reflexivity|].
  rewrite Nat.add_0_r. f_equal.
  rewrite (IH f (S s)), (IH (fun i => f (s + i)%nat) 1%nat).
  apply map_ext. intros i. f_equal. lia.
Qed.

Lemma range_split a k b : a <= k <= b -> range a b = range a k ++ range k b.
Proof.
  intros H. unfold range.
  replace (Z.to_nat (b - a)) with (Z.to_nat (k - a) + Z.to_nat (b - k))%nat
    by lia.
  rewrite seq_app, map_app. f_equal. simpl.
  rewrite map_seq_from. apply map_ext. intros i. lia.
Qed.

(** The chain stops at the first step that fails: when the steps up to
    k - 1 have run and step k raises on what they left, the upgrade
    raises the same and the version record is not written. *)
Theorem first_failing_step_aborts v0 k context c e :
  0 <= v0 -> v0 < k <= BACKEND_FORMAT_VERSION ->
  run_steps step_body (range v0 (k - 1)) context = Ok c ->
  step_body k (db c) = Raise e ->
  execute step_body v0 context = Raise e.
Proof.
  unfold BACKEND_FORMAT_VERSION. intros H0 Hk Hrun Hstep. unfold execute.
  unfold BACKEND_FORMAT_VERSION.
  rewrite (@range_split v0 (k - 1) 30) by lia.
  rewrite run_steps_app, Hrun.
  rewrite UpgradeSpec.range_cons by lia. simpl.
  replace (k - 1 + 1) with k by lia.
  unfold getattr_update_to_version.
  replace ((1 <=? k) && (k <=? 30)) with true
    by (symmetry; apply andb_true_iff; split; apply Z.leb_le; lia).
  simpl. rewrite Hstep. reflexivity.
Qed.

(** A backend that reports a negative version is not upgraded: the
    first step the chain asks for does not exist. *)
Theorem negative_version_raises_AttributeError v context :
  v < 0 ->
  execute step_body v context = Raise (AttributeError "update_to_version").
Proof.
  intros Hv. unfold execute, BACKEND_FORMAT_VERSION.
  rewrite UpgradeSpec.range_cons by lia. simpl.
  unfold getattr_update_to_version.
  replace (1 <=? v + 1) with false by (symmetry; apply Z.leb_gt; lia).
  reflexivity.
Qed.

(** A backend at the current version or beyond runs no step: nothing is
    announced, the physical schema stays, and only the merge of the
    version record is executed. *)
Theorem current_or_newer_version_runs_no_step v context :
  BACKEND_FORMAT_VERSION <= v ->
  execute step_body v context =
  Ok (mkContext (update_backend_info_execute (db context)) (printed context)).
Proof.
  intros Hv. unfold execute. rewrite UpgradeSpec.range_nil by lia.
  reflexivity.
Qed.
End Chain.

Definition chain_steps : Z -> Backend -> result Backend :=
  update_to_version UpgradeSpec.link_endpoints UpgradeSpec.no_other_steps.

(* The backend that the upgrade from version 29 leaves. *)
Definition backend_30 : Backend :=
  mkBackend [(("caos", "link"), "name"); (("caos", "link"), "spectargets")]
            [] [30].

Lemma first_failing_step_aborts_witness :
  execute chain_steps 29 (mkContext backend_30 []) = Raise BackendRejection.
Proof.
  apply (@first_failing_step_aborts chain_steps 29 30 (mkContext backend_30 [])
           (mkContext backend_30 []) BackendRejection).
  - lia.
  - unfold BACKEND_FORMAT_VERSION. lia.
  - reflexivity.
  - reflexivity.
Defined.

Lemma negative_version_raises_AttributeError_witness :
  execute chain_steps (-1) (mkContext backend_30 [])
  = Raise (AttributeError "update_to_version").
Proof.
  apply (@negative_version_raises_AttributeError chain_steps (-1)
           (mkContext backend_30 [])).
  lia.
Defined.

Lemma current_or_newer_version_runs_no_step_witness :
  execute chain_steps 31 (mkContext backend_30 []) =
  Ok (mkContext (update_backend_info_execute backend_30) []).
Proof.
  apply (@current_or_newer_version_runs_no_step chain_steps 31
           (mkContext backend_30 [])).
  unfold BACKEND_FORMAT_VERSION. lia.
Defined.

End UpgradeStepsSpec.

(** ** Type changes: the intents other than 'alter', and [alter_atom] *)
Module AtomTypeEdgesSpec.
Import AtomTypeChange.
Local Open Scope string_scope.
Local Open Scope list_scope.

Lemma names_eqb_eq a b : names_eqb a b = true <-> a = b.
Proof.
  unfold names_eqb. destruct (list_eq_dec string_dec a b); split;
    congruence.
Qed.

Definition is_default (op : PgOp) : bool :=
  match op with AlterDomainAlterDefault _ _ => true | _ => false end.

Definition no_default (ops : list PgOp) : Prop :=
  Forall (fun op => is_default op = false) ops.

Section AlterAtomType.
Variable atom_name_to_domain_name : string -> DomainName.
Variable qname : string -> string -> string.
Variable get_table_name : string -> DomainName.
Variable caos_name_to_pg_name : string -> string.
Variable get_atom_base : Schema -> Atom -> string.

Local Abbreviation alter_atom_type :=
  (alter_atom_type atom_name_to_domain_name qname get_table_name
                   caos_name_to_pg_name get_atom_base).
Local Abbreviation alter_atom :=
  (alter_atom atom_name_to_domain_name qname get_table_name
              caos_name_to_pg_name get_atom_base).

(* The loop over the atoms of the schema, as alter_atom_type has it. *)
Definition children_pass (fuel' : nat) (schema : Schema) (name : string)
    (target_type : string) (children : list Atom) (acc : Outcome) : Outcome :=
  fold_left
    (fun (acc : Outcome) child_atom =>
       match acc with
       | (ops, Ok _) =>
           if names_eqb (bases child_atom) [name]
           then alter_atom_type fuel' child_atom schema target_type "alter" ops
           else acc
       | (_, Raise _) => acc
       end) children acc.

(* The column alterations of the users of an atom. *)
Definition column_alterations (schema : Schema) (atom : Atom)
    (target_type : string) : list PgOp :=
  map (fun u => AlterTableAlterColumnType
                  (get_table_name (fst u))
                  (caos_name_to_pg_name (normal_name (snd u)))
                  target_type) (users_of schema atom).

(* What the branches on the intent add before the loops, the type that
   the columns and the children get, and the domain that a drop names. *)
Definition opening (atom : Atom) (schema : Schema) (new_type intent : string)
    : list PgOp * string * DomainName :=
  let domain_name := atom_name_to_domain_name (atom_name atom) in
  if String.eqb intent "alter" then
    let new_name := (fst domain_name, (snd domain_name ++ "_tmp")%string) in
    ([RenameDomain domain_name new_name; CreateDomain domain_name new_type]
       ++ map (CreateConstraintGroup (atom_name atom)) (local_constraints atom),
     qname (fst domain_name) (snd domain_name), new_name)
  else if String.eqb intent "create" then
    ([CreateDomain domain_name (get_atom_base schema atom)], new_type,
     domain_name)
  else ([], new_type, domain_name).

Lemma alter_atom_type_S fuel' atom schema new_type intent pgops :
  alter_atom_type (S fuel') atom schema new_type intent pgops =
  let '(opened, target_type, domain_name1) :=
    opening atom schema new_type intent in
  match children_pass fuel' schema (atom_name atom) target_type (atoms schema)
          (pgops ++ opened ++ column_alterations schema atom target_type, Ok tt)
  with
  | (pgops3, Ok _) =>
      if String.eqb intent "drop" then (pgops3 ++ [DropDomain domain_name1], Ok tt)
      else if String.eqb intent "alter"
           then (pgops3, Raise (NameError "simple_alter"))
           else (pgops3, Ok tt)
  | (pgops3, Raise e) => (pgops3, Raise e)
  end.
Proof.
  unfold opening, children_pass, column_alterations. simpl.
  destruct (String.eqb intent "alter") eqn:Ea.
  - apply String.eqb_eq in Ea. subst intent. simpl.
    rewrite <- !app_assoc. simpl. reflexivity.
  - destruct (String.eqb intent "create") eqn:Ec.
    + rewrite <- !app_assoc. simpl.
      destruct (String.eqb intent "drop"); reflexivity.
    + simpl. destruct (String.eqb intent "drop"); reflexivity.
Qed.

Lemma children_pass_raised fuel' schema name target_type children :
  forall ops e,
    children_pass fuel' schema name target_type children (ops, Raise e)
    = (ops, Raise e).
Proof.
  unfold children_pass.
  induction children as [|c children IH]; intros ops e; simpl;
    [reflexivity | apply IH].
Qed.

Lemma children_pass_cons fuel' schema name target_type c children ops :
  children_pass fuel' schema name target_type (c :: children) (ops, Ok tt) =
  if names_eqb (bases c) [name]
  then children_pass fuel' schema name target_type children
         (alter_atom_type fuel' c schema target_type "alter" ops)
  else children_pass fuel' schema name target_type children (ops, Ok tt).
Proof.
  unfold children_pass. simpl.
  now destruct (names_eqb (bases c) [name]).
Qed.

Lemma children_pass_no_child fuel' schema name target_type children :
  Forall (fun c => bases c <> [name]) children ->
  forall ops,
    children_pass fuel' schema name target_type children (ops, Ok tt)
    = (ops, Ok tt).
Proof.
  induction 1 as [|c children Hc _ IH]; intros ops; [reflexivity|].
  rewrite children_pass_cons.
  destruct (names_eqb (bases c) [name]) eqn:E; [|apply IH].
  apply names_eqb_eq in E. contradiction.
Qed.

Lemma children_pass_child fuel' schema name target_type children child :
  In child children -> bases child = [name] ->
  forall ops, exists ops' e,
    children_pass fuel' schema name target_type children (ops, Ok tt)
    = (ops', Raise e) /\ AtomTypeChangeSpec.aborted e.
Proof.
  induction children as [|c children IH]; intros Hin Hb ops; [contradiction|].
  rewrite children_pass_cons.
  destruct (names_eqb (bases c) [name]) eqn:E.
  - destruct (AtomTypeChangeSpec.alter_intent_aborts atom_name_to_domain_name
                qname get_table_name caos_name_to_pg_name get_atom_base
                fuel' c schema target_type ops) as (added & Hf & _ & Hs).
    destruct (alter_atom_type fuel' c schema target_type "alter" ops)
      as [ops1 [u|e]]; simpl in Hs; [discriminate|].
    rewrite children_pass_raised. eauto.
  - destruct Hin as [->|Hin].
    + apply names_eqb_eq in Hb. congruence.
    + apply IH; assumption.
Qed.

(** An atom that has a child atom cannot go through alter_atom_type,
    whatever the intent: the loop over the children calls the migration
    of the child with intent 'alter', which does not return. *)
Theorem alter_atom_type_with_child_raises fuel atom schema new_type intent
    pgops child :
  In child (atoms schema) -> bases child = [atom_name atom] ->
  exists ops e,
    alter_atom_type fuel atom schema new_type intent pgops = (ops, Raise e) /\
    AtomTypeChangeSpec.aborted e.
Proof.
  intros Hin Hb. destruct fuel as [|fuel'].
  - exists pgops, RecursionError. split; [reflexivity | now right].
  - rewrite alter_atom_type_S.
    destruct (opening atom schema new_type intent)
      as [[opened target_type] domain_name1].
    destruct (@children_pass_child fuel' schema (atom_name atom) target_type
                (atoms schema) child Hin Hb
                (pgops ++ opened ++ column_alterations schema atom target_type))
      as (ops' & e & Hrun & He).
    rewrite Hrun. eauto.
Qed.

(** For an atom without child atom the intents 'create' and 'drop'
    return: 'create' adds the domain and then retypes the columns of the
    users, 'drop' retypes them and then drops the domain, and any other
    intent but 'alter' only retypes the columns. *)
Theorem alter_atom_type_leaf fuel atom schema new_type intent pgops :
  Forall (fun c => bases c <> [atom_name atom]) (atoms schema) ->
  intent <> "alter" ->
  let domain_name := atom_name_to_domain_name (atom_name atom) in
  alter_atom_type (S fuel) atom schema new_type intent pgops =
  (pgops
     ++ (if String.eqb intent "create"
         then [CreateDomain domain_name (get_atom_base schema atom)] else [])
     ++ column_alterations schema atom new_type
     ++ (if String.eqb intent "drop" then [DropDomain domain_name] else []),
   Ok tt).
Proof.
  intros Hleaf Hintent domain_name.
  rewrite alter_atom_type_S. unfold opening. fold domain_name.
  assert (Ea : String.eqb intent "alter" = false).
  { destruct (String.eqb_spec intent "alter"); congruence. }
  rewrite Ea.
  destruct (String.eqb intent "create") eqn:Ec;
    rewrite (children_pass_no_child _ _ _ Hleaf);
    destruct (String.eqb intent "drop"); simpl;
    rewrite <- ?app_assoc, ?app_nil_r; reflexivity.
Qed.

(* new_default of alter_atom *)
Definition new_default_of (default_delta : option (list DefaultItem))
    : option string :=
  match default_delta with
  | Some (Literal v :: _) => Some v
  | _ => None
  end.

(** Without a change of the base type, or with in_place=False, alter_atom
    starts no migration and returns: it adds the new default of the
    domain when the updates carry one, and nothing else. *)
Theorem alter_atom_without_migration fuel schema old_atom new_atom in_place
    default_update pgops :
  get_atom_base schema old_atom = get_atom_base schema new_atom \/
  in_place = false ->
  alter_atom fuel schema old_atom new_atom in_place default_update pgops =
  (pgops ++ match default_update with
            | Some default_delta =>
                [AlterDomainAlterDefault
                   (atom_name_to_domain_name (atom_name new_atom))
                   (new_default_of default_delta)]
            | None => []
            end,
   Ok tt).
Proof.
  intros H. unfold AtomTypeChange.alter_atom.
  assert (E : (if String.eqb (get_atom_base schema old_atom)
                             (get_atom_base schema new_atom)
               then None else Some (get_atom_base schema new_atom)) = None \/
              in_place = false).
  { destruct H as [->|H]; [left; now rewrite String.eqb_refl | now right]. }
  destruct (if String.eqb (get_atom_base schema old_atom)
                          (get_atom_base schema new_atom)
            then None else Some (get_atom_base schema new_atom)) as [t|].
  - destruct E as [E| ->]; [discriminate|].
    rewrite andb_false_r.
    destruct default_update; [reflexivity | now rewrite app_nil_r].
  - destruct default_update; [reflexivity | now rewrite app_nil_r].
Qed.

Lemma opening_no_default atom schema new_type intent :
  no_default (fst (fst (opening atom schema new_type intent))).
Proof.
  unfold opening, no_default.
  destruct (String.eqb intent "alter"); [|destruct (String.eqb intent "create")];
    simpl; repeat constructor.
  apply Forall_forall. intros op Hop. apply in_map_iff in Hop.
  now destruct Hop as (c & <- & _).
Qed.

Lemma column_alterations_no_default schema atom target_type :
  no_default (column_alterations schema atom target_type).
Proof.
  apply Forall_forall. intros op Hop. apply in_map_iff in Hop.
  now destruct Hop as (u & <- & _).
Qed.

(* The migration adds no ALTER DOMAIN ... DEFAULT. *)
Lemma alter_atom_type_no_default fuel :
  forall atom schema new_type intent pgops,
  exists added,
    fst (alter_atom_type fuel atom schema new_type intent pgops)
      = pgops ++ added /\ no_default added.
Proof.
  induction fuel as [|fuel' IH]; intros atom schema new_type intent pgops.
  - exists []. simpl. rewrite app_nil_r. split; [reflexivity | constructor].
  - rewrite alter_atom_type_S.
    pose proof (opening_no_default atom schema new_type intent) as Hop.
    destruct (opening atom schema new_type intent)
      as [[opened target_type] domain_name1]. simpl in Hop.
    assert (L : forall children acc,
               (exists added, fst acc = pgops ++ added /\ no_default added) ->
               exists added,
                 fst (children_pass fuel' schema (atom_name atom) target_type
                        children acc) = pgops ++ added /\ no_default added).
    { induction children as [|c children IHc]; intros acc Hacc;
        [exact Hacc|].
      destruct acc as [ops [u|e]]; [destruct u|].
      - rewrite children_pass_cons.
        destruct (names_eqb (bases c) [atom_name atom]);
          [|apply IHc; exact Hacc].
        apply IHc. destruct Hacc as (added & Hf & Hn). simpl in Hf. subst ops.
        destruct (IH c schema target_type "alter" (pgops ++ added))
          as (added' & Hf' & Hn').
        exists (added ++ added'). rewrite Hf', app_assoc.
        split; [reflexivity | now apply Forall_app].
      - rewrite children_pass_raised. exact Hacc. }
    destruct (L (atoms schema)
                (pgops ++ opened ++ column_alterations schema atom target_type,
                 Ok tt)) as (added & Hf & Hn).
    { eexists. split; [reflexivity|]. apply Forall_app. split; [exact Hop|].
      apply column_alterations_no_default. }
    destruct (children_pass fuel' schema (atom_name atom) target_type
                (atoms schema) _) as [pgops3 [u|e]]; simpl in Hf; subst pgops3.
    + destruct (String.eqb intent "drop");
        [|destruct (String.eqb intent "alter")]; simpl.
      * exists (added ++ [DropDomain domain_name1]). rewrite app_assoc.
        split; [reflexivity|]. apply Forall_app. split; [exact Hn|].
        repeat constructor.
      * eauto.
      * eauto.
    + simpl. eauto.
Qed.

(** When the base type changes and the atom is altered in place, the
    call does not return, and the new default that the updates carry is
    never applied: no DROP DOMAIN and no ALTER DOMAIN ... DEFAULT is
    among the operations added. *)
Theorem alter_atom_type_change_loses_default fuel schema old_atom new_atom
    default_update pgops :
  get_atom_base schema old_atom <> get_atom_base schema new_atom ->
  get_atom_base schema new_atom <> "" ->
  exists added e,
    alter_atom fuel schema old_atom new_atom true default_update pgops
      = (pgops ++ added, Raise e) /\
    AtomTypeChangeSpec.aborted e /\
    AtomTypeChangeSpec.no_drop added /\
    no_default added.
Proof.
  intros Hne Hnn. unfold AtomTypeChange.alter_atom.
  destruct (String.eqb_spec (get_atom_base schema old_atom)
                            (get_atom_base schema new_atom)) as [E|_];
    [contradiction|].
  destruct (String.eqb_spec (get_atom_base schema new_atom) "") as [E|_];
    [contradiction|].
  simpl negb. simpl andb.
  set (t := get_atom_base schema new_atom).
  destruct (AtomTypeChangeSpec.alter_intent_aborts atom_name_to_domain_name
              qname get_table_name caos_name_to_pg_name get_atom_base
              fuel new_atom schema t pgops) as (added & Hf & Hnd & Hs).
  destruct (alter_atom_type_no_default fuel new_atom schema t "alter" pgops)
    as (added' & Hf' & Hdf).
  rewrite Hf in Hf'. apply app_inv_head in Hf'. subst added'.
  destruct (alter_atom_type fuel new_atom schema t "alter" pgops)
    as [ops [u|e]]; simpl in *; [discriminate|].
  subst ops. exists added, e. auto.
Qed.
End AlterAtomType.

Lemma alter_atom_type_with_child_raises_witness :
  exists ops e,
    AtomTypeChange.alter_atom_type
      AtomTypeChangeSpec.domain_of AtomTypeChangeSpec.qualified
      AtomTypeChangeSpec.table_of AtomTypeChangeSpec.pg_name
      AtomTypeChangeSpec.atom_base 100 AtomTypeChangeSpec.Age
      AtomTypeChangeSpec.age_schema "int4" "drop" [] = (ops, Raise e) /\
    AtomTypeChangeSpec.aborted e.
Proof.
  apply (@alter_atom_type_with_child_raises
           AtomTypeChangeSpec.domain_of AtomTypeChangeSpec.qualified
           AtomTypeChangeSpec.table_of AtomTypeChangeSpec.pg_name
           AtomTypeChangeSpec.atom_base 100 AtomTypeChangeSpec.Age
           AtomTypeChangeSpec.age_schema "int4" "drop" []
           AtomTypeChangeSpec.PositiveAge).
  - simpl. tauto.
  - reflexivity.
Defined.

Lemma alter_atom_type_leaf_witness :
  AtomTypeChange.alter_atom_type
    AtomTypeChangeSpec.domain_of AtomTypeChangeSpec.qualified
    AtomTypeChangeSpec.table_of AtomTypeChangeSpec.pg_name
    AtomTypeChangeSpec.atom_base 1 AtomTypeChangeSpec.PositiveAge
    AtomTypeChangeSpec.age_schema "int4" "drop" [] =
  ([DropDomain ("caos", "test.PositiveAge_domain")], Ok tt).
Proof.
  apply (@alter_atom_type_leaf
           AtomTypeChangeSpec.domain_of AtomTypeChangeSpec.qualified
           AtomTypeChangeSpec.table_of AtomTypeChangeSpec.pg_name
           AtomTypeChangeSpec.atom_base 0 AtomTypeChangeSpec.PositiveAge
           AtomTypeChangeSpec.age_schema "int4" "drop" []).
  - repeat constructor; discriminate.
  - discriminate.
Defined.

Lemma alter_atom_without_migration_witness :
  AtomTypeChange.alter_atom
    AtomTypeChangeSpec.domain_of AtomTypeChangeSpec.qualified
    AtomTypeChangeSpec.table_of AtomTypeChangeSpec.pg_name
    AtomTypeChangeSpec.atom_base 100 AtomTypeChangeSpec.age_schema
    AtomTypeChangeSpec.old_Age AtomTypeChangeSpec.Age false
    (Some (Some [Literal "18"])) [] =
  ([AlterDomainAlterDefault ("caos", "test.Age_domain") (Some "18")], Ok tt).
Proof.
  apply (@alter_atom_without_migration
           AtomTypeChangeSpec.domain_of AtomTypeChangeSpec.qualified
           AtomTypeChangeSpec.table_of AtomTypeChangeSpec.pg_name
           AtomTypeChangeSpec.atom_base 100 AtomTypeChangeSpec.age_schema
           AtomTypeChangeSpec.old_Age AtomTypeChangeSpec.Age false
           (Some (Some [Literal "18"])) []).
  right. reflexivity.
Defined.

Lemma alter_atom_type_change_loses_default_witness :
  exists added e,
    AtomTypeChange.alter_atom
      AtomTypeChangeSpec.domain_of AtomTypeChangeSpec.qualified
      AtomTypeChangeSpec.table_of AtomTypeChangeSpec.pg_name
      AtomTypeChangeSpec.atom_base 100 AtomTypeChangeSpec.age_schema
      AtomTypeChangeSpec.old_Age AtomTypeChangeSpec.Age true
      (Some (Some [Literal "18"])) [] = ([] ++ added, Raise e) /\
    AtomTypeChangeSpec.aborted e /\
    AtomTypeChangeSpec.no_drop added /\
    no_default added.
Proof.
  apply (@alter_atom_type_change_loses_default
           AtomTypeChangeSpec.domain_of AtomTypeChangeSpec.qualified
           AtomTypeChangeSpec.table_of AtomTypeChangeSpec.pg_name
           AtomTypeChangeSpec.atom_base 100 AtomTypeChangeSpec.age_schema
           AtomTypeChangeSpec.old_Age AtomTypeChangeSpec.Age
           (Some (Some [Literal "18"])) []).
  - discriminate.
  - discriminate.
Defined.

End AtomTypeEdgesSpec.

(** ** Mapping indexes: created and deleted links *)
Module MappingScheduleSpec.
Import MappingIndexes MappingSchedule.
Local Open Scope string_scope.
Local Open Scope list_scope.

Lemma LinkMapping_eqb_eq a b : LinkMapping_eqb a b = true <-> a = b.
Proof. destruct a, b; simpl; split; congruence. Qed.

Lemma process_ops_app ex pre : forall st post,
  process_ops ex st (pre ++ post) =
  match process_ops ex st pre with
  | Ok st' => process_ops ex st' post
  | Raise e => Raise e
  end.
Proof.
  induction pre as [|[op proto] pre IH]; intros st post; simpl;
    [reflexivity|].
  destruct (process_op ex st op proto) as [st'|e]; simpl; [apply IH|].
  reflexivity.
Qed.

(* Every operation that the loop gets through is recorded under the name
   of its link. *)
Lemma process_op_processed ex st op proto st' :
  process_op ex st op proto = Ok st' ->
  processed st' =
  PyDict.set String.eqb (processed st) (name proto) (mapping proto).
Proof.
  unfold process_op.
  destruct op as [|old|].
  - destruct (PyDict.get String.eqb (processed st) (name proto));
      simpl; [discriminate|]. intros [= <-]. reflexivity.
  - destruct (existing_get ex old) as [[|first rest]|]; simpl.
    + destruct (PyDict.get String.eqb (processed st) (name proto)) as [earlier|].
      * destruct (negb (LinkMapping_eqb earlier (mapping proto))).
        -- destruct (list_remove _ _); simpl; [|discriminate].
           intros [= <-]. reflexivity.
        -- simpl. intros [= <-]. reflexivity.
      * simpl. intros [= <-]. reflexivity.
    + destruct (PyDict.get String.eqb ex first) as [exi|]; simpl;
        [|discriminate].
      destruct (PyDict.get String.eqb (processed st) (name proto)) as [earlier|].
      * destruct (negb (LinkMapping_eqb earlier (mapping proto))).
        -- destruct (list_remove _ _); simpl; [|discriminate].
           intros [= <-].
           destruct (negb (LinkMapping_eqb (fst exi) (mapping proto)));
             reflexivity.
        -- simpl. intros [= <-]. reflexivity.
      * simpl. intros [= <-].
        destruct (negb (LinkMapping_eqb (fst exi) (mapping proto)));
          reflexivity.
    + destruct (PyDict.get String.eqb (processed st) (name proto)) as [earlier|].
      * destruct (negb (LinkMapping_eqb earlier (mapping proto))).
        -- destruct (list_remove _ _); simpl; [|discriminate].
           intros [= <-]. reflexivity.
        -- simpl. intros [= <-]. reflexivity.
      * simpl. intros [= <-]. reflexivity.
  - simpl. intros [= <-]. reflexivity.
Qed.

Lemma get_set_not_None (d : PyDict.t string LinkMapping) k v n :
  PyDict.get String.eqb d n <> None \/ n = k ->
  PyDict.get String.eqb (PyDict.set String.eqb d k v) n <> None.
Proof.
  intros H. destruct (string_dec n k) as [->|Hne].
  - rewrite (PyDictFacts.get_set_same _ String.eqb_eq). discriminate.
  - rewrite (PyDictFacts.get_set_other _ String.eqb_eq); [|congruence].
    destruct H; [assumption | contradiction].
Qed.

Lemma process_ops_processed ex ops : forall st st' n,
  process_ops ex st ops = Ok st' ->
  PyDict.get String.eqb (processed st) n <> None \/
  (exists op proto, In (op, proto) ops /\ name proto = n) ->
  PyDict.get String.eqb (processed st') n <> None.
Proof.
  induction ops as [|[op proto] ops IH]; intros st st' n; simpl.
  - intros [= <-] [H|(op & proto & [] & _)]. exact H.
  - destruct (process_op ex st op proto) as [st1|e] eqn:E; simpl;
      [|discriminate].
    intros Hrun H. apply (IH st1 st' n Hrun).
    pose proof (@process_op_processed _ _ _ _ _ E) as Hp.
    destruct H as [H|(op' & proto' & [[= <- <-]|Hin] & Hn)].
    + left. rewrite Hp. apply get_set_not_None. now left.
    + left. rewrite Hp. apply get_set_not_None. now right.
    + right. eauto.
Qed.

(** CreateLink can only happen once, and only first: when the pass has
    got through operations of which one is for the same link name, a
    CreateLink for that name ends it in AssertionError. *)
Theorem create_link_after_same_name_raises table_name existing pre op proto
    proto' post st :
  process_ops (PyDict.of_items String.eqb existing)
              (MappingIndexes.mkState empty_queue empty_queue []) pre = Ok st ->
  In (op, proto) pre -> name proto' = name proto ->
  apply_link table_name existing (pre ++ (CreateLink, proto') :: post)
  = Raise AssertionError.
Proof.
  intros Hrun Hin Hn. unfold apply_link.
  rewrite process_ops_app, Hrun. simpl.
  assert (Hp : PyDict.get String.eqb (processed st) (name proto') <> None).
  { eapply process_ops_processed; [exact Hrun|].
    right. exists op, proto. auto. }
  unfold process_op.
  destruct (PyDict.get String.eqb (processed st) (name proto'));
    [reflexivity | contradiction].
Qed.

Definition owner (m : LinkMapping) : Proto := mkProto "test.owner" m.

Lemma create_link_after_same_name_raises_witness :
  apply_link MappingIndexesSpec.owner_table MappingIndexesSpec.owner_indexes
             ([MappingIndexesSpec.alter_owner OneToOne]
                ++ (CreateLink, owner OneToOne) :: [])
  = Raise AssertionError.
Proof.
  eapply (@create_link_after_same_name_raises
            MappingIndexesSpec.owner_table MappingIndexesSpec.owner_indexes
            [MappingIndexesSpec.alter_owner OneToOne]
            (AlterLink "test.owner") (owner OneToOne) (owner OneToOne) []).
  - vm_compute. reflexivity.
  - simpl. now left.
  - reflexivity.
Defined.

Lemma NoDup_keys_tail (k : string) (v : list (LinkOp * Proto)) (d : Links) :
  NoDup (PyDict.keys ((k, v) :: d)) -> ~ In k (PyDict.keys d) /\ NoDup (PyDict.keys d).
Proof. unfold PyDict.keys. simpl. intros H. now inversion H. Qed.

Lemma get_pop_same (d : Links) k :
  NoDup (PyDict.keys d) -> PyDict.get String.eqb (pop d k) k = None.
Proof.
  induction d as [|[k' v] d IH]; intros Hnd; [reflexivity|].
  apply NoDup_keys_tail in Hnd. destruct Hnd as [Hk Hnd]. simpl.
  destruct (String.eqb_spec k k') as [->|Hne].
  - apply (PyDictFacts.get_None_keys _ String.eqb_eq). exact Hk.
  - simpl. destruct (String.eqb_spec k k'); [contradiction|]. now apply IH.
Qed.

Lemma get_pop_other (d : Links) k n :
  n <> k -> PyDict.get String.eqb (pop d k) n = PyDict.get String.eqb d n.
Proof.
  intros Hne. induction d as [|[k' v] d IH]; [reflexivity|]. simpl.
  destruct (String.eqb_spec k k') as [->|Hk].
  - destruct (String.eqb_spec n k'); [contradiction | reflexivity].
  - simpl. now rewrite IH.
Qed.

(** A deleted link leaves nothing to do for its name: whatever had been
    scheduled under the name is gone, at most the deletion itself is
    queued, and the pass over that entry emits no index command. *)
Theorem deleted_link_emits_no_index_command generic has_table result st
    table_name existing :
  NoDup (PyDict.keys (links st)) ->
  match PyDict.get String.eqb
          (links (DeleteLink_schedule generic has_table result st))
          (name result) with
  | None => True
  | Some ops =>
      ops = [(DeleteLink, result)] /\ apply_link table_name existing ops = Ok []
  end.
Proof.
  intros Hnd. unfold DeleteLink_schedule, schedule_mapping_update,
    cancel_mapping_update.
  destruct (negb generic && negb (LinkMapping_eqb (mapping result) ManyToMany));
    [destruct has_table|]; simpl.
  - rewrite (PyDictFacts.get_set_same _ String.eqb_eq).
    rewrite (@get_pop_same _ _ Hnd). simpl. split; reflexivity.
  - now rewrite (@get_pop_same _ _ Hnd).
  - now rewrite (@get_pop_same _ _ Hnd).
Qed.

(* An alter of the link is scheduled, and then the link is deleted. *)
Lemma deleted_link_emits_no_index_command_witness :
  match PyDict.get String.eqb
          (links (DeleteLink_schedule false true (owner OneToOne)
                    (AlterLink_schedule false true (owner OneToMany)
                       (owner OneToOne) (MappingSchedule.mkState [] []))))
          "test.owner" with
  | None => True
  | Some ops =>
      ops = [(DeleteLink, owner OneToOne)] /\
      apply_link MappingIndexesSpec.owner_table
                 MappingIndexesSpec.owner_indexes ops = Ok []
  end.
Proof.
  apply (@deleted_link_emits_no_index_command false true (owner OneToOne)
           (AlterLink_schedule false true (owner OneToMany) (owner OneToOne)
              (MappingSchedule.mkState [] []))
           MappingIndexesSpec.owner_table MappingIndexesSpec.owner_indexes).
  repeat constructor. simpl. tauto.
Defined.

(* links.get(n) or [] *)
Definition scheduled (st : State) (n : string) : list (LinkOp * Proto) :=
  match PyDict.get String.eqb (links st) n with
  | Some ops => ops
  | None => []
  end.

Lemma scheduled_schedule self link st n :
  scheduled (schedule_mapping_update true self link st) n =
  if String.eqb (name link) n
  then scheduled st n ++ [(self, link)]
  else scheduled st n.
Proof.
  unfold scheduled, schedule_mapping_update. simpl.
  destruct (String.eqb_spec (name link) n) as [<-|Hne].
  - rewrite (PyDictFacts.get_set_same _ String.eqb_eq).
    destruct (PyDict.get String.eqb (links st) (name link)) as [[|x l]|];
      reflexivity.
  - rewrite (PyDictFacts.get_set_other _ String.eqb_eq); [reflexivity|].
    congruence.
Qed.

(** The commands of one link reach the pass in the order in which they
    were scheduled, behind what was scheduled for the name before, and
    the commands of the other links are not among them. *)
Theorem scheduled_in_order (cmds : list (LinkOp * Proto)) :
  forall st n,
    scheduled
      (fold_left (fun st c => schedule_mapping_update true (fst c) (snd c) st)
                 cmds st) n =
    scheduled st n ++
    filter (fun c => String.eqb (name (snd c)) n) cmds.
Proof.
  induction cmds as [|[self link] cmds IH]; intros st n.
  - simpl. now rewrite app_nil_r.
  - cbn [fold_left filter fst snd]. rewrite IH, scheduled_schedule.
    destruct (String.eqb (name link) n); [|reflexivity].
    now rewrite <- app_assoc.
Qed.

End MappingScheduleSpec.

(** ** The executor of a plain command: [MetaCommand.execute] *)
Module MetaCommandSpec.
Import Scheduler.
Local Open Scope list_scope.
Local Open Scope Z_scope.

(* getattr(i, 'priority', 0) *)
Definition priority_or_0 (x : PgOp) : Z :=
  match x with
  | Physical o => priority o
  | Meta _ => 0
  end.

(* The operations that the execution of a command passes to the
   session, in order. *)
Fixpoint run_of (op : PgOp) : list DbOp :=
  match op with
  | Physical o => [o]
  | Meta pgops =>
      List.concat
        (map snd (sorted_by_key_desc
                    (map (fun x => (priority_or_0 x, run_of x)) pgops)))
  end.

Lemma insert_by_key_desc_map A B (f : A -> B) (x : Z * A) l :
  insert_by_key_desc (fst x, f (snd x))
                     (map (fun kv => (fst kv, f (snd kv))) l) =
  map (fun kv => (fst kv, f (snd kv))) (insert_by_key_desc x l).
Proof.
  induction l as [|y l IH]; simpl; [reflexivity|].
  destruct (fst y <=? fst x); simpl; [reflexivity|].
  now rewrite IH.
Qed.

(* Sorting looks at the keys only. *)
Lemma sorted_by_key_desc_map A B (k : A -> Z) (f : A -> B) l :
  sorted_by_key_desc (map (fun x => (k x, f x)) l) =
  map (fun kv => (fst kv, f (snd kv)))
      (sorted_by_key_desc (map (fun x => (k x, x)) l)).
Proof.
  induction l as [|x l IH]; simpl; [reflexivity|].
  unfold sorted_by_key_desc in *. rewrite IH.
  apply (insert_by_key_desc_map f (k x, x)).
Qed.

Lemma insert_by_key_desc_Permutation V (x : Z * V) l :
  Permutation (insert_by_key_desc x l) (x :: l).
Proof.
  induction l as [|y l IH]; simpl; [reflexivity|].
  destruct (fst y <=? fst x); [reflexivity|].
  rewrite IH. apply perm_swap.
Qed.

Lemma sorted_by_key_desc_Permutation V (l : list (Z * V)) :
  Permutation (sorted_by_key_desc l) l.
Proof.
  induction l as [|x l IH]; simpl; [reflexivity|].
  rewrite insert_by_key_desc_Permutation. now constructor.
Qed.

Definition key_ge V (a b : Z * V) : Prop := fst b <= fst a.

Lemma insert_by_key_desc_Sorted V (x : Z * V) l :
  StronglySorted (@key_ge V) l ->
  StronglySorted (@key_ge V) (insert_by_key_desc x l).
Proof.
  induction 1 as [|y l Hs IH Hall]; simpl.
  - repeat constructor.
  - destruct (Z.leb_spec (fst y) (fst x)) as [Hle|Hgt].
    + constructor; [constructor; assumption|].
      constructor; [exact Hle|].
      rewrite Forall_forall in *. intros z Hz. specialize (Hall z Hz).
      unfold key_ge in *. lia.
    + constructor; [exact IH|].
      rewrite Forall_forall in *. intros z Hz.
      eapply Permutation_in in Hz; [|apply insert_by_key_desc_Permutation].
      destruct Hz as [<-|Hz]; [unfold key_ge; lia | now apply Hall].
Qed.

Lemma sorted_by_key_desc_Sorted V (l : list (Z * V)) :
  StronglySorted (@key_ge V) (sorted_by_key_desc l).
Proof.
  induction l; simpl; [constructor | now apply insert_by_key_desc_Sorted].
Qed.

(* Equal keys keep their order. *)
Lemma insert_by_key_desc_stable V (x : Z * V) l p :
  filter (fun kv => fst kv =? p) (insert_by_key_desc x l) =
  filter (fun kv => fst kv =? p) (x :: l).
Proof.
  induction l as [|y l IH]; simpl; [reflexivity|].
  destruct (Z.leb_spec (fst y) (fst x)) as [Hle|Hgt]; [reflexivity|].
  simpl. rewrite IH. simpl.
  destruct (Z.eqb_spec (fst x) p) as [Hx|Hx]; [|reflexivity].
  destruct (Z.eqb_spec (fst y) p) as [Hy|Hy]; [lia | reflexivity].
Qed.

Lemma sorted_by_key_desc_stable V (l : list (Z * V)) p :
  filter (fun kv => fst kv =? p) (sorted_by_key_desc l) =
  filter (fun kv => fst kv =? p) l.
Proof.
  induction l as [|x l IH]; simpl; [reflexivity|].
  rewrite insert_by_key_desc_stable. simpl. now rewrite IH.
Qed.

(* A queued execution and the operations it stands for. *)
Definition runs_as (r : Z * (Context -> Context)) (kv : Z * list DbOp) : Prop :=
  fst r = fst kv /\
  forall ctx, snd r ctx = mkContext (executed ctx ++ snd kv).

Lemma insert_by_key_desc_runs_as r kv l l' :
  runs_as r kv -> Forall2 runs_as l l' ->
  Forall2 runs_as (insert_by_key_desc r l) (insert_by_key_desc kv l').
Proof.
  intros Hr. induction 1 as [|y y' l l' Hy Hl IH]; simpl.
  - constructor; [exact Hr | constructor].
  - destruct Hr as [Hk Hf], Hy as [Hky Hfy]. rewrite Hk, Hky.
    destruct (fst y' <=? fst kv).
    + repeat constructor; assumption.
    + constructor; [split; assumption|]. exact IH.
Qed.

Lemma sorted_by_key_desc_runs_as l l' :
  Forall2 runs_as l l' ->
  Forall2 runs_as (sorted_by_key_desc l) (sorted_by_key_desc l').
Proof.
  induction 1; simpl; [constructor|].
  now apply insert_by_key_desc_runs_as.
Qed.

Lemma fold_runs l l' :
  Forall2 runs_as l l' ->
  forall context,
    fold_left (fun ctx (run : Z * (Context -> Context)) => snd run ctx) l
              context
    = mkContext (executed context ++ List.concat (map snd l')).
Proof.
  induction 1 as [|r kv l l' [_ Hr] _ IH]; intros context; simpl.
  - rewrite app_nil_r. now destruct context.
  - rewrite IH, Hr. simpl. now rewrite app_assoc.
Qed.

Lemma MetaCommand_execute_run_of op :
  forall context,
    MetaCommand_execute op context = mkContext (executed context ++ run_of op).
Proof.
  induction op as [o|pgops IH] using SchedulerSpec.PgOp_nested_ind;
    intros context.
  - reflexivity.
  - cbn [MetaCommand_execute run_of].
    apply fold_runs. apply sorted_by_key_desc_runs_as.
    induction IH as [|x xs Hx _ IHxs]; simpl; constructor.
    + split; [now destruct x | exact Hx].
    + exact IHxs.
Qed.

Lemma Permutation_concat A (l l' : list (list A)) :
  Permutation l l' -> Permutation (List.concat l) (List.concat l').
Proof.
  induction 1; simpl.
  - reflexivity.
  - now apply Permutation_app_head.
  - rewrite !app_assoc. apply Permutation_app_tail, Permutation_app_comm.
  - etransitivity; eassumption.
Qed.

(** The execution of a command runs every physical operation under it,
    whatever the nesting, and each of them once. *)
Theorem MetaCommand_execute_runs_each_once op context :
  exists run,
    executed (MetaCommand_execute op context) = executed context ++ run /\
    Permutation run (discovered op).
Proof.
  exists (run_of op). split; [now rewrite MetaCommand_execute_run_of|].
  induction op as [o|pgops IH] using SchedulerSpec.PgOp_nested_ind.
  - reflexivity.
  - cbn [run_of discovered].
    rewrite (Permutation_concat
               (Permutation_map snd
                  (sorted_by_key_desc_Permutation
                     (map (fun x => (priority_or_0 x, run_of x)) pgops)))).
    rewrite map_map. simpl.
    induction IH as [|x xs Hx _ IHxs]; simpl; [reflexivity|].
    now apply Permutation_app.
Qed.

(** A command that holds physical operations only runs them by
    descending priority, those of equal priority in the order in which
    they were added: the reverse of the order of a realm. *)
Theorem plain_command_runs_by_descending_priority (ops : list DbOp) context :
  exists run,
    executed (MetaCommand_execute (Meta (map Physical ops)) context)
      = executed context ++ run /\
    Permutation run ops /\
    StronglySorted (fun a b => priority b <= priority a) run /\
    (forall p, filter (has_priority p) run = filter (has_priority p) ops).
Proof.
  exists (run_of (Meta (map Physical ops))).
  split; [now rewrite MetaCommand_execute_run_of|].
  cbn [run_of]. rewrite map_map. cbn [priority_or_0 run_of].
  rewrite (sorted_by_key_desc_map priority (fun o => [o])).
  set (s := sorted_by_key_desc (map (fun o => (priority o, o)) ops)).
  assert (P : Permutation s (map (fun o => (priority o, o)) ops))
    by apply sorted_by_key_desc_Permutation.
  assert (K : Forall (fun kv => fst kv = priority (snd kv)) s).
  { rewrite Forall_forall. intros kv Hkv.
    eapply Permutation_in in Hkv; [|exact P].
    apply in_map_iff in Hkv. destruct Hkv as [o [<- _]]. reflexivity. }
  assert (E : List.concat (map snd (map (fun kv => (fst kv, [snd kv])) s))
              = map snd s).
  { clear. induction s as [|kv s IH]; simpl; [reflexivity | now rewrite IH]. }
  rewrite E. split; [|split].
  - rewrite P, map_map. simpl. now rewrite map_id.
  - pose proof (sorted_by_key_desc_Sorted
                  (map (fun o => (priority o, o)) ops)) as Hs.
    fold s in Hs. clearbody s. clear P E.
    induction Hs as [|kv s Hs IH Hall]; simpl; constructor.
    + apply IH. now inversion K.
    + inversion K as [|? ? Hkv K']; subst.
      rewrite Forall_forall in *. intros o Ho.
      apply in_map_iff in Ho. destruct Ho as [kv' [<- Ho]].
      rewrite <- Hkv, <- (K' _ Ho). apply (Hall _ Ho).
  - intros p.
    assert (F : forall l : list (Z * DbOp),
               Forall (fun kv => fst kv = priority (snd kv)) l ->
               filter (has_priority p) (map snd l) =
               map snd (filter (fun kv => fst kv =? p) l)).
    { induction 1 as [|kv l Hkv _ IHl]; simpl; [reflexivity|].
      unfold has_priority at 1. rewrite <- Hkv.
      destruct (fst kv =? p); simpl; now rewrite IHl. }
    rewrite (F s K). unfold s. rewrite sorted_by_key_desc_stable.
    rewrite <- F.
    + rewrite map_map. simpl. now rewrite map_id.
    + rewrite Forall_forall. intros kv Hkv.
      apply in_map_iff in Hkv. destruct Hkv as [o [<- _]]. reflexivity.
Qed.

End MetaCommandSpec.

(** ** The inheritance delta: the missing pointer and the guards *)
Module BaseDeltaEdgesSpec.
Import BaseDelta.
Local Open Scope string_scope.
Local Open Scope list_scope.

Section ApplyBaseDelta.
Variable renamed : Base -> Base.
Variable nameconv : string -> TableName.

Lemma add_inherited_columns_Raise source tn added :
  forall e, add_inherited_columns source tn added = Raise e ->
    e = KeyError /\
    exists p, In p added /\ PyDict.get String.eqb (pointers source) p = None.
Proof.
  induction added as [|p added IH]; simpl; intros e; [discriminate|].
  destruct (PyDict.get String.eqb (pointers source) p) as [ptr|] eqn:G.
  - destruct (add_inherited_columns source tn added) as [more|e']; simpl;
      [discriminate|].
    intros [= <-]. destruct (IH e' eq_refl) as (He & q & Hq & Gq).
    split; [exact He|]. exists q. auto.
  - intros [= <-]. split; [reflexivity|]. exists p. auto.
Qed.

Lemma add_inherited_columns_missing source tn added p :
  In p added -> PyDict.get String.eqb (pointers source) p = None ->
  add_inherited_columns source tn added = Raise KeyError.
Proof.
  intros Hin G. induction added as [|q added IH]; [contradiction|]. simpl.
  destruct (PyDict.get String.eqb (pointers source) q) as [ptr|] eqn:Gq;
    [|reflexivity].
  destruct Hin as [->|Hin]; [congruence|].
  rewrite (IH Hin). reflexivity.
Qed.

(** The engine fails in one way only: with KeyError, when the source
    has a table to alter and one of the inherited pointers that it has
    to add is not among the pointers of the source. *)
Theorem apply_base_delta_raises_KeyError_only orig_source source has_table
    created_ptrs op_table_name :
  let outcome := apply_base_delta renamed nameconv orig_source source
                                  has_table created_ptrs op_table_name in
  (forall e, outcome = Raise e -> e = KeyError) /\
  (outcome = Raise KeyError <->
   is_concept source || has_table = true /\
   exists p, In p (inherited_to_add orig_source source created_ptrs) /\
             PyDict.get String.eqb (pointers source) p = None).
Proof.
  cbv zeta. unfold apply_base_delta.
  destruct (is_concept source || has_table).
  - destruct (add_inherited_columns source op_table_name
                (inherited_to_add orig_source source created_ptrs))
      as [at_|e] eqn:E; simpl.
    + split; [discriminate|]. split; [discriminate|].
      intros (_ & p & Hp & G).
      rewrite (@add_inherited_columns_missing _ op_table_name _ _ Hp G) in E. discriminate.
    + destruct (@add_inherited_columns_Raise _ _ _ _ E) as (-> & p & Hp & G).
      split; [now intros e [= <-]|]. split; [|reflexivity].
      intros _. split; [reflexivity|]. exists p. auto.
  - split; [discriminate|]. split; [discriminate|].
    intros [H _]. discriminate.
Qed.

(* The guard that each kind of operation carries. *)
Definition guarded_as_written (op_table_name this_table : TableName)
    (g : Guarded) : Prop :=
  match g with
  | (AlterTableAddColumn c _ _, conds, negs) =>
      conds = [] /\ negs = [ColumnExists op_table_name c]
  | (AlterTableDropColumn c _ _, conds, negs) =>
      (exists t, conds = [ColumnExists t c]) /\ negs = []
  | (AlterTableDropParent p, conds, negs) =>
      (conds = [] \/ conds = [TableInherits this_table p]) /\ negs = []
  | (AlterTableAddParent p, conds, negs) =>
      conds = [] /\ negs = [TableInherits this_table p]
  end.

Lemma add_inherited_columns_guarded source tn this_table added :
  forall at_, add_inherited_columns source tn added = Ok at_ ->
              Forall (guarded_as_written tn this_table) at_.
Proof.
  induction added as [|p added IH]; simpl; intros at_.
  - intros [= <-]. constructor.
  - destruct (PyDict.get String.eqb (pointers source) p) as [ptr|];
      [|discriminate].
    destruct (add_inherited_columns source tn added) as [more|e];
      simpl; [|discriminate].
    intros [= <-]. apply Forall_app. split; [|now apply IH].
    destruct (is_a_column source ptr); repeat constructor.
Qed.

(** Every operation that the engine issues carries its guard: a column
    is added only where the table does not have it and dropped only
    where its table has it, and a parent is added only where the table
    does not inherit from it. *)
Theorem apply_base_delta_guards orig_source source has_table created_ptrs
    op_table_name out :
  apply_base_delta renamed nameconv orig_source source has_table created_ptrs
                   op_table_name = Ok out ->
  Forall (Forall (guarded_as_written op_table_name (nameconv (name source))))
         out.
Proof.
  unfold apply_base_delta.
  destruct (is_concept source || has_table);
    [|intros [= <-]; repeat constructor].
  destruct (add_inherited_columns source op_table_name
              (inherited_to_add orig_source source created_ptrs))
    as [at_|e] eqn:E; simpl; [|discriminate].
  intros [= <-].
  constructor; [exact (@add_inherited_columns_guarded _ _ (nameconv (name source)) _ _ E)|].
  apply Forall_app. split.
  - destruct (dropped_bases (map renamed (bases orig_source)) source)
      as [|d ds]; [constructor|].
    assert (Hd : forall l,
               Forall (guarded_as_written op_table_name
                                          (nameconv (name source)))
                      (map (fun dropped_base =>
                              (AlterTableDropParent (nameconv dropped_base),
                               @nil Condition, @nil Condition)) l)).
    { intros l. apply Forall_forall. intros g Hg. apply in_map_iff in Hg.
      destruct Hg as (b & <- & _). simpl. auto. }
    destruct (dropped_ptrs orig_source source) as [|q qs] eqn:Eq.
    + constructor; [apply Hd | constructor].
    + assert (Hc : forall l,
                 Forall (guarded_as_written op_table_name
                                            (nameconv (name source)))
                        (flat_map
                           (fun ptr =>
                              if is_a_column source ptr
                              then [(AlterTableDropColumn
                                       (column_name ptr) (column_type ptr)
                                       (required ptr),
                                     [ColumnExists (table_name ptr)
                                                   (column_name ptr)],
                                     @nil Condition)]
                              else []) l)).
      { intros l. apply Forall_forall. intros g Hg. apply in_flat_map in Hg.
        destruct Hg as (ptr & _ & Hg).
        destruct (is_a_column source ptr); [|contradiction].
        destruct Hg as [<-|[]]. simpl. eauto. }
      constructor; [apply Hd|]. constructor; [|constructor].
      apply (Hc (q :: qs)).
  - destruct (skipn _ (map base_name (bases source))) as [|y ys];
      [constructor|].
    constructor; [|constructor; [|constructor]].
    + apply Forall_forall. intros g Hg. apply in_map_iff in Hg.
      destruct Hg as (b & <- & _). simpl. auto.
    + apply Forall_forall. intros g Hg. apply in_map_iff in Hg.
      destruct Hg as (b & <- & _). simpl. auto.
Qed.
End ApplyBaseDelta.

Lemma apply_base_delta_guards_witness :
  Forall (Forall (guarded_as_written
                    ("caos", "test.Person_data")
                    (BaseDeltaSpec.concept_table "test.Person")))
         [[];
          [(AlterTableDropParent ("caos", "test.Named_data"),
            [TableInherits ("caos", "test.Person_data")
                           ("caos", "test.Named_data")], []);
           (AlterTableDropParent ("caos", "test.Owned_data"),
            [TableInherits ("caos", "test.Person_data")
                           ("caos", "test.Owned_data")], [])];
          [(AlterTableAddParent ("caos", "test.Owned_data"), [],
            [TableInherits ("caos", "test.Person_data")
                           ("caos", "test.Owned_data")]);
           (AlterTableAddParent ("caos", "test.Named_data"), [],
            [TableInherits ("caos", "test.Person_data")
                           ("caos", "test.Named_data")])]].
Proof.
  apply (@apply_base_delta_guards BaseDeltaSpec.not_renamed
           BaseDeltaSpec.concept_table BaseDeltaSpec.Person
           (mkSource "test.Person" true
                     [BaseDeltaSpec.Owned; BaseDeltaSpec.Named] [])
           false [] ("caos", "test.Person_data")).
  reflexivity.
Defined.

End BaseDeltaEdgesSpec.

(** ** Renaming the table of a concept or a link *)
Module RenameSpec.
Import Rename.
Local Open Scope string_scope.
Local Open Scope list_scope.

Lemma TableName_eqb_refl t : TableName_eqb t t = true.
Proof. unfold TableName_eqb. now rewrite !String.eqb_refl. Qed.

Section Rename.
Variable link_name_to_table_name : Name -> TableName.
Variable concept_name_to_table_name : Name -> TableName.
Variable str : Name -> string.

Definition table_of (obj_is_link : bool) (n : Name) : TableName :=
  if obj_is_link then link_name_to_table_name n
  else concept_name_to_table_name n.

(** When the schema of a table follows the module of its object and its
    name the name of the object, the operations of a rename take the
    table from its old name to its new one, none of them left out and
    none refused: the move to the new schema comes first, and the
    condition of the renaming names the table where the move has put
    it.  Where the table does not exist, nothing is done and nothing
    fails. *)
Theorem rename_reaches_new_table pgops old_name new_name obj_is_link :
  let old_table_name := table_of obj_is_link old_name in
  let new_table_name := table_of obj_is_link new_name in
  (module old_name = module new_name ->
   fst old_table_name = fst new_table_name) ->
  (name old_name = name new_name ->
   snd old_table_name = snd new_table_name) ->
  let added :=
    skipn (List.length pgops)
          (rename link_name_to_table_name concept_name_to_table_name str
                  pgops old_name new_name obj_is_link) in
  rename link_name_to_table_name concept_name_to_table_name str
         pgops old_name new_name obj_is_link = pgops ++ added /\
  execute added (Some old_table_name) = Ok (Some new_table_name) /\
  execute added None = Ok None.
Proof.
  intros old_table_name new_table_name Hm Hn added.
  unfold added, rename, NamedPrototypeMetaCommand_rename.
  fold (table_of obj_is_link old_name) (table_of obj_is_link new_name).
  fold old_table_name new_table_name.
  destruct (String.eqb_spec (module old_name) (module new_name)) as [Em|Em];
    destruct (String.eqb_spec (name old_name) (name new_name)) as [En|En];
    cbn [negb]; rewrite <- ?app_assoc;
    rewrite skipn_app, skipn_all, Nat.sub_diag; cbn [skipn app];
    (split; [reflexivity|]); unfold execute; cbn [fold_left bind op_execute forallb holds];
    rewrite ?TableName_eqb_refl; cbn [andb fst snd bind forallb holds];
    rewrite ?TableName_eqb_refl; cbn [andb fst snd bind].
  - split; [|reflexivity].
    rewrite (surjective_pairing old_table_name), (Hm Em), (Hn En).
    now rewrite <- surjective_pairing.
  - split; [|reflexivity].
    rewrite (Hm Em). now rewrite <- surjective_pairing.
  - split; [|reflexivity].
    rewrite (Hn En). now rewrite <- surjective_pairing.
  - split; [|reflexivity]. now rewrite <- surjective_pairing.
Qed.
End Rename.

(* caos.<module>_data and caos.<module>_link tables, one schema for each
   module. *)
Definition concept_table (n : Name) : TableName :=
  (module n, (name n ++ "_data")%string).
Definition link_table (n : Name) : TableName :=
  (module n, (name n ++ "_link")%string).
Definition full_name (n : Name) : string :=
  (module n ++ "." ++ name n)%string.

Lemma rename_reaches_new_table_witness :
  rename link_table concept_table full_name []
         (mkName "test" "Person") (mkName "hr" "Employee") false =
  [Update "hr.Employee" "test.Person";
   AlterTableSetSchema ("test", "Person_data") "hr"
                       [TableExists ("test", "Person_data")];
   AlterTableRenameTo ("hr", "Person_data") "Employee_data"
                      [TableExists ("hr", "Person_data")]] /\
  execute
    [Update "hr.Employee" "test.Person";
     AlterTableSetSchema ("test", "Person_data") "hr"
                         [TableExists ("test", "Person_data")];
     AlterTableRenameTo ("hr", "Person_data") "Employee_data"
                        [TableExists ("hr", "Person_data")]]
    (Some ("test", "Person_data")) = Ok (Some ("hr", "Employee_data")) /\
  execute
    [Update "hr.Employee" "test.Person";
     AlterTableSetSchema ("test", "Person_data") "hr"
                         [TableExists ("test", "Person_data")];
     AlterTableRenameTo ("hr", "Person_data") "Employee_data"
                        [TableExists ("hr", "Person_data")]]
    None = Ok None.
Proof.
  apply (@rename_reaches_new_table link_table concept_table full_name []
           (mkName "test" "Person") (mkName "hr" "Employee") false).
  - discriminate.
  - discriminate.
Defined.

End RenameSpec.

(** ** Column defaults: [affirm_pointer_defaults] and
    [alter_pointer_default] share one ALTER TABLE *)
Module DefaultsSpec.
Import Batcher.
Local Open Scope string_scope.
Local Open Scope list_scope.
Local Open Scope Z_scope.

(* No key of the registry is left with an empty list of commands. *)
Definition inhabited (self : Self) : Prop :=
  forall ct tc k l,
    In (ct, tc) (_multicommands self) -> In (k, l) tc -> l <> [].

Definition ready (self : Self) : Prop :=
  BatcherSpec.allocated self /\ inhabited self.

Lemma ready_new_self : ready new_self.
Proof.
  split; [exact BatcherSpec.allocated_new_self|].
  intros ct tc k l [].
Qed.

(* The table that get_alter_table settles on. *)
Definition tabname (self : Self) (ctx_table : option TableName)
    : option TableName :=
  match table_name self with
  | Some t => Some t
  | None => ctx_table
  end.

(* The operations of the ALTER TABLE that a plain request for the table,
   the priority and the containment would return. *)
Definition batch_operations (self : Self) (t : TableName) (priority : Z)
    (contained : bool) : list Operation :=
  match rev (BatcherSpec.registered self "AlterTable"
               (mkKey t priority contained)) with
  | id :: _ => operations (nth id (heap self) no_cmd)
  | [] => []
  end.

Definition with_operation (op : Operation) (c : Cmd) : Cmd :=
  mkCmd (cmd_type c) (cmd_name c) (cmd_priority c) (cmd_contained c)
        (operations c ++ [op]).

Lemma nth_map_indexed (f : nat * Cmd -> Cmd) (l : list Cmd) : forall s j,
  (j < List.length l)%nat ->
  nth j (map f (combine (seq s (List.length l)) l)) no_cmd
  = f ((s + j)%nat, nth j l no_cmd).
Proof.
  induction l as [|c l IH]; intros s j Hj; simpl in *; [lia|].
  destruct j as [|j].
  - now rewrite Nat.add_0_r.
  - rewrite IH by lia. f_equal. f_equal. lia.
Qed.

Lemma length_map_indexed (f : nat * Cmd -> Cmd) (l : list Cmd) s :
  List.length (map f (combine (seq s (List.length l)) l)) = List.length l.
Proof.
  rewrite length_map, length_combine, length_seq. apply Nat.min_id.
Qed.

Lemma heap_add_operation self id op :
  List.length (heap (add_operation self id op)) = List.length (heap self).
Proof. unfold add_operation. simpl. apply length_map_indexed. Qed.

Lemma nth_add_operation self id op :
  (id < List.length (heap self))%nat ->
  nth id (heap (add_operation self id op)) no_cmd
  = with_operation op (nth id (heap self) no_cmd).
Proof.
  intros Hid. unfold add_operation. simpl.
  rewrite nth_map_indexed by exact Hid. simpl.
  now rewrite Nat.eqb_refl.
Qed.

Lemma ready_add_operation self id op :
  ready self -> ready (add_operation self id op).
Proof.
  intros [[A1 A2] I]. split; [split|].
  - intros ct tc k l i B C D. rewrite heap_add_operation.
    exact (A1 ct tc k l i B C D).
  - intros i B. rewrite heap_add_operation. exact (A2 i B).
  - exact I.
Qed.

Lemma rev_last_Ok l x : list_last l = Ok x -> exists r, rev l = x :: r.
Proof.
  unfold list_last. destruct (rev l) as [|y r]; [discriminate|].
  intros [= <-]. eauto.
Qed.

Lemma list_last_inhabited l : l <> [] -> exists x, list_last l = Ok x.
Proof.
  unfold list_last. intros H. destruct (rev l) as [|y r] eqn:E; [|eauto].
  exfalso. apply H. apply (f_equal (@rev nat)) in E.
  now rewrite rev_involutive in E.
Qed.

(* A plain request on a command that is ready: it returns, the command it
   names is the last one registered for the key afterwards, and the
   operations of that command are those that the batch of the key had. *)
Lemma _get_multicommand_batch self name priority kw :
  ready self ->
  exists id self1,
    _get_multicommand self "AlterTable" name priority false false kw
      = Ok (id, self1) /\
    ready self1 /\
    table_name self1 = table_name self /\
    (id < List.length (heap self1))%nat /\
    (exists r, rev (BatcherSpec.registered self1 "AlterTable"
                      (mkKey name priority kw)) = id :: r) /\
    operations (nth id (heap self1) no_cmd) =
    match rev (BatcherSpec.registered self "AlterTable"
                 (mkKey name priority kw)) with
    | id0 :: _ => operations (nth id0 (heap self) no_cmd)
    | [] => []
    end /\
    (List.length (heap self1) <= S (List.length (heap self)))%nat.
Proof.
  intros [[A1 A2] I]. destruct self as [tn mc ops hp].
  unfold BatcherSpec.allocated, BatcherSpec.below, inhabited in *.
  simpl in A1, A2, I.
  unfold _get_multicommand, BatcherSpec.registered. simpl.
  destruct (PyDict.get String.eqb mc "AlterTable") as [tc|] eqn:Gmc.
  - pose proof (BatcherSpec.get_In_str _ _ Gmc) as Imc.
    destruct (PyDict.get Key_eqb tc (mkKey name priority kw)) as [l|] eqn:Gtc;
      simpl.
    + pose proof (BatcherSpec.get_In_key _ _ Gtc) as Itc.
      destruct (list_last_inhabited (I _ _ _ _ Imc Itc)) as [x Hx].
      rewrite Hx. simpl. exists x. eexists. split; [reflexivity|].
      destruct (rev_last_Ok _ Hx) as [r Hr].
      assert (Hin : In x l).
      { apply in_rev. rewrite Hr. now left. }
      split; [split; [split|]; simpl; assumption|].
      split; [reflexivity|]. simpl.
      split; [exact (A1 _ _ _ _ _ Imc Itc Hin)|].
      rewrite Gmc, Gtc, Hr. split; [eauto|]. split; [reflexivity | lia].
    + exists (List.length hp). eexists. split; [reflexivity|]. simpl.
      rewrite (PyDictFacts.get_set_same _ String.eqb_eq).
      rewrite (PyDictFacts.get_set_same _ BatcherSpec.Key_eqb_eq).
      rewrite length_app. simpl.
      split; [split; [split|]; simpl|].
      * intros ct tc' k l' id A B C. rewrite length_app. simpl.
        apply BatcherSpec.In_set in A. destruct A as [->|A].
        -- apply BatcherSpec.In_set in B. destruct B as [->|B].
           ++ destruct C as [<-|[]]. lia.
           ++ specialize (A1 _ _ _ _ _ Imc B C). lia.
        -- specialize (A1 _ _ _ _ _ A B C). lia.
      * intros id A. rewrite length_app. simpl. specialize (A2 id A). lia.
      * intros ct tc' k l' A B.
        apply BatcherSpec.In_set in A. destruct A as [->|A].
        -- apply BatcherSpec.In_set in B. destruct B as [->|B];
             [discriminate | exact (I _ _ _ _ Imc B)].
        -- exact (I _ _ _ _ A B).
      * split; [reflexivity|]. split; [lia|]. split; [simpl; eauto|].
        split; [|lia].
        rewrite app_nth2 by lia. rewrite Nat.sub_diag. reflexivity.
  - exists (List.length hp). eexists. split; [reflexivity|]. simpl.
    rewrite (PyDictFacts.get_set_same _ String.eqb_eq).
    cbn [PyDict.set PyDict.get].
    rewrite (proj2 (BatcherSpec.Key_eqb_eq _ _) eq_refl).
    rewrite length_app. simpl.
    split; [split; [split|]; simpl|].
    + intros ct tc' k l' id A B C. rewrite length_app. simpl.
      apply BatcherSpec.In_set in A. destruct A as [->|A].
      * destruct B as [[= <- <-]|[]]. destruct C as [<-|[]]. lia.
      * apply BatcherSpec.In_set in A. destruct A as [->|A]; [contradiction|].
        specialize (A1 _ _ _ _ _ A B C). lia.
    + intros id A. rewrite length_app. simpl. specialize (A2 id A). lia.
    + intros ct tc' k l' A B.
      apply BatcherSpec.In_set in A. destruct A as [->|A].
      * destruct B as [[= <- <-]|[]]. discriminate.
      * apply BatcherSpec.In_set in A. destruct A as [->|A]; [contradiction|].
        exact (I _ _ _ _ A B).
    + split; [reflexivity|]. split; [lia|]. split; [simpl; eauto|].
      split; [|lia].
      rewrite app_nth2 by lia. rewrite Nat.sub_diag. reflexivity.
Qed.

(* One operation more in the batch of the table. *)
Lemma add_to_alter_table_batch self ctx_table t priority contained op :
  ready self -> tabname self ctx_table = Some t ->
  exists self',
    add_to_alter_table self ctx_table priority contained op = Ok self' /\
    ready self' /\
    table_name self' = Some t /\
    batch_operations self' t priority contained =
    batch_operations self t priority contained ++ [op] /\
    (List.length (heap self') <= S (List.length (heap self)))%nat.
Proof.
  intros Hr Ht. unfold add_to_alter_table, get_alter_table.
  set (self0 := mkSelf (Some t) (_multicommands self) (pgops self) (heap self)).
  assert (Hr0 : ready self0) by exact Hr.
  assert (E : (let* (tabname', self') :=
                 match
                   match @None TableName with
                   | Some t0 => Some t0
                   | None => table_name self
                   end
                 with
                 | Some t0 => Ok (t0, self)
                 | None =>
                     match ctx_table with
                     | Some t0 =>
                         Ok (t0, mkSelf (Some t0) (_multicommands self)
                                        (pgops self) (heap self))
                     | None => Raise AssertionError
                     end
                 end in
               _get_multicommand self' "AlterTable" tabname' priority false
                                 false contained)
              = _get_multicommand self0 "AlterTable" t priority false false
                                  contained).
  { unfold tabname in Ht. unfold self0.
    destruct self as [tn mc ops hp]. simpl in *.
    destruct tn as [t0|]; [injection Ht as ->; reflexivity|].
    subst ctx_table. reflexivity. }
  rewrite E.
  destruct (@_get_multicommand_batch self0 t priority contained Hr0)
    as (id & self1 & Hrun & Hr1 & Htn & Hid & (r & Hlast) & Hops & Hlen).
  rewrite Hrun. simpl bind.
  exists (add_operation self1 id op). split; [reflexivity|].
  split; [now apply ready_add_operation|].
  split; [exact Htn|]. split.
  - unfold batch_operations.
    change (BatcherSpec.registered (add_operation self1 id op))
      with (BatcherSpec.registered self1).
    rewrite Hlast, nth_add_operation by exact Hid.
    simpl. now rewrite Hops.
  - rewrite heap_add_operation. exact Hlen.
Qed.

Section Defaults.
Variable caos_name_to_pg_name : string -> string.

(* The operation that affirm_pointer_defaults adds for a pointer. *)
Definition affirmed (pointer : Pointer) : list Operation :=
  if generic pointer || negb (atomic pointer) || negb (singular pointer)
  then []
  else
    match default pointer with
    | None => []
    | Some d =>
        match literals d with
        | [] => []
        | first :: _ =>
            [AlterTableAlterColumnDefault
               (caos_name_to_pg_name (pointer_name pointer)) (Some first)]
        end
    end.

Lemma affirm_pointer_default_batch self ctx_table t pointer :
  ready self -> tabname self ctx_table = Some t ->
  exists self',
    affirm_pointer_default caos_name_to_pg_name ctx_table self pointer
      = Ok self' /\
    ready self' /\ tabname self' ctx_table = Some t /\
    batch_operations self' t 3 true =
    batch_operations self t 3 true ++ affirmed pointer /\
    (affirmed pointer = [] -> self' = self).
Proof.
  intros Hr Ht. unfold affirm_pointer_default, affirmed.
  destruct (generic pointer || negb (atomic pointer) || negb (singular pointer));
    simpl.
  { exists self. rewrite app_nil_r. auto. }
  destruct (default pointer) as [[|x d]|]; cbv beta iota.
  - exists self. rewrite app_nil_r. auto.
  - destruct (literals (x :: d)) as [|first rest].
    + exists self. rewrite app_nil_r. auto.
    + destruct (@add_to_alter_table_batch self ctx_table t 3 true
                  (AlterTableAlterColumnDefault
                     (caos_name_to_pg_name (pointer_name pointer))
                     (Some first)) Hr Ht)
        as (self' & Hrun & Hr' & Htn & Hops & _).
      exists self'. split; [exact Hrun|]. split; [exact Hr'|].
      split; [unfold tabname; now rewrite Htn|].
      split; [exact Hops | discriminate].
  - exists self. rewrite app_nil_r. auto.
Qed.

(** The defaults that a source affirms go into one ALTER TABLE: for a
    command whose table is known, the call returns, and the batch of the
    table at priority 3 holds what it held and then one operation for
    each pointer that is specific, atomic and singular and has a literal
    among its defaults, with the first literal, in the order of the
    pointers; where no pointer is such, the command is left as it was. *)
Theorem affirm_pointer_defaults_one_batch pointers :
  forall self ctx_table t,
    ready self -> tabname self ctx_table = Some t ->
    exists self',
      affirm_pointer_defaults caos_name_to_pg_name self ctx_table pointers
        = Ok self' /\
      ready self' /\
      batch_operations self' t 3 true =
      batch_operations self t 3 true ++ flat_map affirmed pointers /\
      (flat_map affirmed pointers = [] -> self' = self).
Proof.
  unfold affirm_pointer_defaults.
  induction pointers as [|p pointers IH]; intros self ctx_table t Hr Ht.
  - exists self. simpl. rewrite app_nil_r. auto.
  - cbn [fold_left flat_map].
    destruct (@affirm_pointer_default_batch self ctx_table t p Hr Ht)
      as (self1 & Hrun & Hr1 & Ht1 & Hops & Hsame).
    unfold bind at 2. rewrite Hrun.
    destruct (IH self1 ctx_table t Hr1 Ht1)
      as (self' & Hrun' & Hr' & Hops' & Hsame').
    exists self'. split; [exact Hrun'|]. split; [exact Hr'|]. split.
    + rewrite Hops', Hops. now rewrite app_assoc.
    + intros E. apply app_eq_nil in E. destruct E as [E1 E2].
      rewrite (Hsame' E2). now apply Hsame.
Qed.

(** The default of a new pointer and the affirmed defaults of the source
    meet in one ALTER TABLE.  The command of a pointer runs inside the
    one of its source and sets its default first; the source affirms the
    defaults of its pointers afterwards.  After both calls on the
    command of the source, in that order, the batch of the table at
    priority 3 holds what it held, then the new default, then the
    affirmed defaults of the pointers: a pointer that is among them with
    a literal default has its default set twice. *)
Theorem alter_pointer_default_joins_batch self ctx_table t pointers
    new_default normal_name :
  ready self -> tabname self ctx_table = Some t ->
  exists self1 self2,
    alter_pointer_default caos_name_to_pg_name self ctx_table
                          (Some (Some [AtomTypeChange.Literal new_default]))
                          normal_name = Ok self1 /\
    affirm_pointer_defaults caos_name_to_pg_name self1 ctx_table pointers
      = Ok self2 /\
    batch_operations self2 t 3 true =
    batch_operations self t 3 true ++
    [AlterTableAlterColumnDefault (caos_name_to_pg_name normal_name)
                                  (Some new_default)] ++
    flat_map affirmed pointers.
Proof.
  intros Hr Ht.
  unfold alter_pointer_default. cbn [literals flat_map app].
  destruct (@add_to_alter_table_batch self ctx_table t 3 true
              (AlterTableAlterColumnDefault (caos_name_to_pg_name normal_name)
                                            (Some new_default)) Hr Ht)
    as (self1 & Hrun1 & Hr1 & Htn1 & Hops1 & _).
  assert (Ht1 : tabname self1 ctx_table = Some t)
    by (unfold tabname; now rewrite Htn1).
  exists self1.
  assert (S2 : forall self0, ready self0 -> tabname self0 ctx_table = Some t ->
             exists self2,
               affirm_pointer_defaults caos_name_to_pg_name self0 ctx_table
                                       pointers = Ok self2 /\
               batch_operations self2 t 3 true =
               batch_operations self0 t 3 true ++ flat_map affirmed pointers).
  { clear. unfold affirm_pointer_defaults.
    induction pointers as [|p pointers IH]; intros self Hr Ht.
    - exists self. simpl. rewrite app_nil_r. auto.
    - cbn [fold_left flat_map].
      destruct (@affirm_pointer_default_batch self ctx_table t p Hr Ht)
        as (self1 & Hrun & Hr1 & Ht1 & Hops & _).
      unfold bind at 2. rewrite Hrun.
      destruct (IH self1 Hr1 Ht1) as (self' & Hrun' & Hops').
      exists self'. split; [exact Hrun'|].
      rewrite Hops', Hops. now rewrite app_assoc. }
  destruct (S2 self1 Hr1 Ht1) as (self2 & Hrun2 & Hops2).
  exists self2. split; [exact Hrun1|]. split; [exact Hrun2|].
  rewrite Hops2, Hops1. now rewrite <- app_assoc.
Qed.
End Defaults.

Definition pg_name (n : string) : string := n.

Definition person_pointers : list Pointer :=
  [mkPointer "test.name" false true true
             (Some [AtomTypeChange.Literal "anonymous"]);
   mkPointer "test.friends" false false false None;
   mkPointer "test.age" false true true
             (Some [AtomTypeChange.ExpressionText "random()";
                    AtomTypeChange.Literal "18"])].

Lemma affirm_pointer_defaults_one_batch_witness :
  ready new_self /\
  exists self',
    affirm_pointer_defaults pg_name new_self (Some ("caos", "Person_data"))
                            person_pointers = Ok self' /\
    batch_operations self' ("caos", "Person_data") 3 true =
    [AlterTableAlterColumnDefault "test.name" (Some "anonymous");
     AlterTableAlterColumnDefault "test.age" (Some "18")].
Proof.
  split; [exact ready_new_self|].
  destruct (@affirm_pointer_defaults_one_batch pg_name person_pointers
              new_self (Some ("caos", "Person_data")) ("caos", "Person_data")
              ready_new_self eq_refl)
    as (self' & Hrun & _ & Hops & _).
  exists self'. split; [exact Hrun | exact Hops].
Defined.

(* The pointers of the source once the new pointer is among them. *)
Definition person_pointers_with_nickname : list Pointer :=
  person_pointers ++
  [mkPointer "test.nickname" false true true
             (Some [AtomTypeChange.Literal "unknown"])].

Lemma alter_pointer_default_joins_batch_witness :
  ready new_self /\
  exists self1 self2,
    alter_pointer_default pg_name new_self (Some ("caos", "Person_data"))
                          (Some (Some [AtomTypeChange.Literal "unknown"]))
                          "test.nickname" = Ok self1 /\
    affirm_pointer_defaults pg_name self1 (Some ("caos", "Person_data"))
                            person_pointers_with_nickname = Ok self2 /\
    batch_operations self2 ("caos", "Person_data") 3 true =
    [AlterTableAlterColumnDefault "test.nickname" (Some "unknown");
     AlterTableAlterColumnDefault "test.name" (Some "anonymous");
     AlterTableAlterColumnDefault "test.age" (Some "18");
     AlterTableAlterColumnDefault "test.nickname" (Some "unknown")].
Proof.
  split; [exact ready_new_self|].
  apply (@alter_pointer_default_joins_batch pg_name new_self
           (Some ("caos", "Person_data")) ("caos", "Person_data")
           person_pointers_with_nickname "unknown" "test.nickname"
           ready_new_self eq_refl).
Defined.

End DefaultsSpec.

(** ** Prototype names of types *)
Module TypeNamesSpec.
Import TypeRules TypeInfo TypeNames.
Local Open Scope string_scope.
Local Open Scope list_scope.

Lemma proto_name_of_item_named m typ item n :
  proto_name_of_item m typ item = inr n -> n <> NoName.
Proof.
  unfold proto_name_of_item.
  match goal with
  | |- match ?x with _ => _ end = _ -> _ => destruct x
  end; intros [= <-]; discriminate.
Qed.

Section NormalizeType.
Variable proto_schema_get : ProtoName -> PyObj.

(** normalize_type never raises the SchemaError of its own: the name
    that proto_name_from_type returns is never None, so that
    normalize_type returns whenever proto_name_from_type does, and
    raises only what proto_name_from_type has raised. *)
Theorem normalize_type_raises_only_what_proto_name_raises m type :
  (forall r, proto_name_from_type m type = inr r ->
             exists r', normalize_type proto_schema_get m type = inr r') /\
  (forall e, normalize_type proto_schema_get m type = inl e ->
             proto_name_from_type m type = inl e).
Proof.
  unfold normalize_type, proto_name_from_type.
  destruct type as [item|[|c [|item rest]]].
  - destruct (proto_name_of_item m (Single item) item) as [e|n] eqn:E; simpl.
    + split; [discriminate | now intros ? [= <-]].
    + pose proof (@proto_name_of_item_named _ _ _ _ E) as Hn.
      destruct n; try contradiction; (split; [eauto | discriminate]).
  - split; [discriminate | now intros ? [= <-]].
  - split; [discriminate | now intros ? [= <-]].
  - destruct (proto_name_of_item m (Tuple (c :: item :: rest)) item)
      as [e|n] eqn:E; simpl.
    + split; [discriminate | now intros ? [= <-]].
    + split; [eauto | discriminate].
Qed.

(* (container_type, item_proto) for item_proto; the SchemaError of an
   item without prototype gives way to the TypeError of its message *)
Definition in_container (container_type : Item) (r : raised + Named_ PyObj)
    : raised + Named_ PyObj :=
  match r with
  | inr (Plain item_proto) => inr (Composite container_type item_proto)
  | inl SchemaError => inl (Python TypeError)
  | other => other
  end.

Lemma proto_name_of_item_typ m typ typ' item :
  proto_name_of_item m typ item =
  match proto_name_of_item m typ' item with
  | inr n => inr n
  | inl _ => inl (could_not_find typ)
  end.
Proof.
  unfold proto_name_of_item.
  match goal with
  | |- match ?x with _ => _ end = _ => destruct x
  end; reflexivity.
Qed.

(** A composite type is normalized through its item: the result is the
    container with what the item alone is normalized to, and the
    elements of the tuple after the second are not looked at.  Where the
    item alone has no prototype and raises SchemaError, the tuple raises
    TypeError: the message is formatted with the tuple as its argument
    list, which its single %r cannot take. *)
Theorem normalize_type_of_composite m container_type item_type rest :
  normalize_type proto_schema_get m
                 (Tuple (container_type :: item_type :: rest)) =
  in_container container_type
               (normalize_type proto_schema_get m (Single item_type)).
Proof.
  unfold normalize_type, proto_name_from_type.
  rewrite (proto_name_of_item_typ m (Tuple (container_type :: item_type :: rest))
             (Single item_type) item_type).
  destruct (proto_name_of_item m (Single item_type) item_type) as [e|n] eqn:E.
  - rewrite (proto_name_of_item_typ m (Single item_type) (Single item_type))
      in E.
    destruct (proto_name_of_item m (Single item_type) item_type);
      [injection E as <-; reflexivity | discriminate].
  - pose proof (@proto_name_of_item_named _ _ _ _ E) as Hn.
    destruct n; try contradiction; reflexivity.
Qed.
End NormalizeType.

(** A type that add_mapping has registered under a name is known by
    that name, when no earlier branch takes it: the map is asked for the
    types that are neither None, nor a prototype, nor a pointer, nor a
    prototype class. *)
Theorem proto_name_of_mapped_type m item_type caos_builtin_name :
  kind item_type = IsOther -> caos_builtin_name <> "" ->
  proto_name_from_type (add_mapping m (self item_type) caos_builtin_name)
                       (Single item_type)
  = inr (Plain (Named caos_builtin_name)).
Proof.
  intros Hk Hn. unfold proto_name_from_type, proto_name_of_item.
  rewrite Hk. unfold type_to_caos_builtin, add_mapping. simpl.
  rewrite (PyDictFacts.get_set_same _ TypeRulesSpec.PyObj_eqb_eq). simpl.
  destruct (String.eqb_spec caos_builtin_name "") as [E|_];
    [contradiction | reflexivity].
Qed.

Definition py_int : Item := mkItem IsOther (PyType "int") NoName None.

Lemma proto_name_of_mapped_type_witness :
  proto_name_from_type (add_mapping empty_meta (PyType "int") "std.int")
                       (Single py_int)
  = inr (Plain (Named "std.int")).
Proof.
  apply (@proto_name_of_mapped_type empty_meta py_int "std.int").
  - reflexivity.
  - discriminate.
Defined.

End TypeNamesSpec.

(** ** Indexes grouped by link *)
Module IndexGroupsSpec.
Import MappingIndexes IndexGroups.
Local Open Scope string_scope.
Local Open Scope list_scope.

Definition key_is (k : string) (p : string * string) : bool :=
  String.eqb k (fst p).

Definition name_le (a b : string * string) : Prop :=
  String.leb (fst a) (fst b) = true.

Lemma leb_refl s : String.leb s s = true.
Proof. now destruct (String.leb_total s s). Qed.

Lemma leb_cases a b :
  String.leb a b = true <-> a = b \/ OrderedTypeEx.String_as_OT.lt a b.
Proof.
  unfold String.leb.
  pose proof (OrderedTypeEx.String_as_OT.cmp_eq a b) as He.
  pose proof (OrderedTypeEx.String_as_OT.cmp_lt a b) as Hl.
  pose proof (OrderedTypeEx.String_as_OT.cmp_lt b a) as Hg.
  pose proof (OrderedTypeEx.String_as_OT.cmp_antisym a b) as Ha.
  unfold OrderedTypeEx.String_as_OT.cmp in *.
  destruct (String.compare a b) eqn:E.
  - split; [intros _; left; now apply He | reflexivity].
  - split; [intros _; right; now apply Hl | reflexivity].
  - split; [discriminate|].
    assert (Hba : OrderedTypeEx.String_as_OT.lt b a).
    { apply Hg. rewrite Ha in E. now destruct (String.compare b a). }
    intros [->|Hab].
    + exfalso. exact (OrderedTypeEx.String_as_OT.lt_not_eq _ _ Hba eq_refl).
    + exfalso.
      exact (OrderedTypeEx.String_as_OT.lt_not_eq _ _
               (OrderedTypeEx.String_as_OT.lt_trans _ _ _ Hab Hba) eq_refl).
Qed.

Lemma leb_trans a b c :
  String.leb a b = true -> String.leb b c = true -> String.leb a c = true.
Proof.
  rewrite !leb_cases. intros [->|Hab] [->|Hbc]; auto.
  right. exact (OrderedTypeEx.String_as_OT.lt_trans _ _ _ Hab Hbc).
Qed.

Lemma insert_by_name_In x l y :
  In y (insert_by_name x l) <-> y = x \/ In y l.
Proof.
  induction l as [|z l IH]; simpl; [intuition|].
  destruct (String.leb (fst x) (fst z)); simpl; [intuition|].
  rewrite IH. intuition.
Qed.

Lemma insert_by_name_Sorted x l :
  StronglySorted name_le l -> StronglySorted name_le (insert_by_name x l).
Proof.
  induction 1 as [|y l Hs IH Hall]; simpl.
  - repeat constructor.
  - destruct (String.leb (fst x) (fst y)) eqn:E.
    + constructor; [constructor; assumption|].
      constructor; [exact E|].
      rewrite Forall_forall in *. intros z Hz.
      exact (leb_trans _ _ _ E (Hall z Hz)).
    + constructor; [exact IH|].
      rewrite Forall_forall in *. intros z Hz.
      apply insert_by_name_In in Hz. destruct Hz as [->|Hz];
        [|now apply Hall].
      unfold name_le. destruct (String.leb_total (fst x) (fst y)); congruence.
Qed.

Lemma sorted_by_name_Sorted l : StronglySorted name_le (sorted_by_name l).
Proof.
  induction l; simpl; [constructor | now apply insert_by_name_Sorted].
Qed.

(* The sort keeps the pairs of one link in their order. *)
Lemma insert_by_name_stable k x l :
  filter (key_is k) (insert_by_name x l) = filter (key_is k) (x :: l).
Proof.
  induction l as [|y l IH]; simpl; [reflexivity|].
  destruct (String.leb (fst x) (fst y)) eqn:E; [reflexivity|].
  simpl. rewrite IH. simpl. unfold key_is.
  destruct (String.eqb_spec k (fst x)) as [Hx|Hx]; [|reflexivity].
  destruct (String.eqb_spec k (fst y)) as [Hy|Hy]; [|reflexivity].
  rewrite <- Hx, <- Hy, leb_refl in E. discriminate.
Qed.

Lemma sorted_by_name_stable k l :
  filter (key_is k) (sorted_by_name l) = filter (key_is k) l.
Proof.
  induction l as [|x l IH]; simpl; [reflexivity|].
  rewrite insert_by_name_stable. simpl. now rewrite IH.
Qed.

Lemma groupby_cons x l :
  groupby (x :: l) =
  match groupby l with
  | (k, g) :: rest =>
      if String.eqb (fst x) k then (k, x :: g) :: rest
      else (fst x, [x]) :: (k, g) :: rest
  | [] => [(fst x, [x])]
  end.
Proof. reflexivity. Qed.

Lemma groupby_nil l : groupby l = [] -> l = [].
Proof.
  destruct l as [|x l]; [reflexivity|]. simpl.
  destruct (groupby l) as [|[k g] rest]; [discriminate|].
  destruct (String.eqb (fst x) k); discriminate.
Qed.

(* The first group is that of the first pair. *)
Lemma groupby_head x l :
  exists g rest, groupby (x :: l) = (fst x, g) :: rest.
Proof.
  simpl. destruct (groupby l) as [|[k g] rest]; [eauto|].
  destruct (String.eqb_spec (fst x) k) as [->|_]; eauto.
Qed.

Lemma groupby_keys l k :
  In k (map fst (groupby l)) -> In k (map fst l).
Proof.
  induction l as [|x l IH]; simpl; [tauto|].
  destruct (groupby l) as [|[k' g] rest]; simpl in *.
  - intros [<-|[]]. now left.
  - destruct (String.eqb_spec (fst x) k') as [E|_]; simpl.
    + intros H. right. apply IH. exact H.
    + intros [<-|H]; [now left | right; apply IH; exact H].
Qed.

(* In a sorted list no pair after the first has the key of the first,
   unless the pair next to the first has it. *)
Lemma sorted_key_absent x y l :
  StronglySorted name_le (x :: y :: l) -> fst x <> fst y ->
  ~ In (fst x) (map fst (y :: l)).
Proof.
  intros Hs Hne Hin.
  inversion Hs as [|? ? Hs' Hx]; subst.
  inversion Hs' as [|? ? _ Hy]; subst.
  rewrite Forall_forall in Hx, Hy.
  apply in_map_iff in Hin. destruct Hin as [z [Hz Hin]].
  assert (Hyz : String.leb (fst y) (fst z) = true).
  { destruct Hin as [<-|Hin]; [apply leb_refl | exact (Hy z Hin)]. }
  assert (Hxy : String.leb (fst x) (fst y) = true)
    by (apply (Hx y); now left).
  rewrite Hz in Hyz. apply Hne. now apply String.leb_antisym.
Qed.

Lemma filter_none (A : Type) (f : A -> bool) l :
  (forall z, In z l -> f z = false) -> filter f l = [].
Proof.
  induction l as [|a l IH]; intros H; simpl; [reflexivity|].
  rewrite (H a) by now left. apply IH. intros z Hz. apply H. now right.
Qed.

Lemma groupby_sorted l :
  StronglySorted name_le l ->
  NoDup (map fst (groupby l)) /\
  forall k, PyDict.get String.eqb (groupby l) k =
            match filter (key_is k) l with
            | [] => None
            | g => Some g
            end.
Proof.
  induction l as [|x l IH]; intros Hs.
  - split; [constructor | reflexivity].
  - assert (Hs' : StronglySorted name_le l) by now inversion Hs.
    destruct (IH Hs') as [Hnd Hget]. clear IH.
    destruct l as [|y l'].
    + simpl. split; [repeat constructor; simpl; tauto|].
      intros k. unfold key_is. simpl. now destruct (String.eqb k (fst x)).
    + destruct (groupby_head y l') as (g & rest & Hg).
      rewrite groupby_cons. rewrite Hg in *.
      destruct (String.eqb_spec (fst x) (fst y)) as [E|Hne].
      * split; [exact Hnd|].
        intros k. specialize (Hget k). cbn [PyDict.get] in *.
        change (filter (key_is k) (x :: y :: l'))
          with (if key_is k x then x :: filter (key_is k) (y :: l')
                else filter (key_is k) (y :: l')).
        unfold key_is at 1. rewrite E.
        destruct (String.eqb k (fst y)) eqn:Ek.
        -- destruct (filter (key_is k) (y :: l')) as [|p l0];
             [discriminate|]. now injection Hget as ->.
        -- exact Hget.
      * pose proof (sorted_key_absent Hs Hne) as Habs.
        split.
        -- cbn [map fst]. constructor; [|exact Hnd].
           intros Hin. apply Habs.
           apply (groupby_keys (y :: l')). rewrite Hg.
           exact Hin.
        -- intros k. cbn [PyDict.get fst].
           change (filter (key_is k) (x :: y :: l'))
             with (if key_is k x then x :: filter (key_is k) (y :: l')
                   else filter (key_is k) (y :: l')).
           unfold key_is at 1.
           destruct (String.eqb_spec k (fst x)) as [->|Hk].
           ++ assert (F : filter (key_is (fst x)) (y :: l') = []).
              { apply filter_none. intros z Hz. unfold key_is.
                destruct (String.eqb_spec (fst x) (fst z)) as [Ez|];
                  [|reflexivity].
                exfalso. apply Habs. rewrite Ez. now apply in_map. }
              now rewrite F.
           ++ exact (Hget k).
Qed.

Lemma get_of_items (V : Type) (l : list (string * V)) k : forall d,
  PyDict.get String.eqb
    (fold_left (fun d kv => PyDict.set String.eqb d (fst kv) (snd kv)) l d) k =
  match PyDict.get String.eqb (rev l) k with
  | Some v => Some v
  | None => PyDict.get String.eqb d k
  end.
Proof.
  induction l as [|[k1 v1] l IH]; intros d; simpl; [reflexivity|].
  rewrite IH.
  assert (A : forall (a : list (string * V)),
             PyDict.get String.eqb (a ++ [(k1, v1)]) k =
             match PyDict.get String.eqb a k with
             | Some v => Some v
             | None => if String.eqb k k1 then Some v1 else None
             end).
  { induction a as [|[k2 v2] a IHa]; simpl; [reflexivity|].
    destruct (String.eqb k k2); [reflexivity | exact IHa]. }
  rewrite A.
  destruct (PyDict.get String.eqb (rev l) k); [reflexivity|].
  destruct (String.eqb_spec k k1) as [->|Hne].
  - apply (PyDictFacts.get_set_same _ String.eqb_eq).
  - now apply (PyDictFacts.get_set_other _ String.eqb_eq).
Qed.

Lemma get_map_values (A B : Type) (f : A -> B) (d : list (string * A)) k :
  PyDict.get String.eqb (map (fun kv => (fst kv, f (snd kv))) d) k =
  option_map f (PyDict.get String.eqb d k).
Proof.
  induction d as [|[k1 v1] d IH]; simpl; [reflexivity|].
  destruct (String.eqb k k1); [reflexivity | exact IH].
Qed.

(* The index names that cover a link, from the pairs of _group_indexes. *)
Lemma covering_names indexes link_name :
  flat_map (fun kv => map (fun _ => fst kv)
                          (filter (String.eqb link_name) (snd (snd kv))))
           indexes
  = map snd (filter (key_is link_name) (_group_indexes indexes)).
Proof.
  unfold _group_indexes.
  induction indexes as [|[idx [m links]] indexes IH]; simpl; [reflexivity|].
  rewrite filter_app, map_app, IH. f_equal.
  clear. induction links as [|l links IHl]; simpl; [reflexivity|].
  unfold key_is at 1. simpl.
  destruct (String.eqb link_name l); simpl; now rewrite IHl.
Qed.

(** The dict that apply builds with group_indexes answers for a link
    name with the names of the indexes that cover the link, in the
    order of the indexes, and with nothing for a link that no index
    covers: sorting and grouping the pairs does not depend on how the
    names compare. *)
Theorem existing_gives_covering_indexes existing_by_name link_name :
  PyDict.get String.eqb (existing existing_by_name) link_name =
  existing_get existing_by_name link_name.
Proof.
  unfold existing, PyDict.of_items, group_indexes, existing_get.
  set (s := sorted_by_name (_group_indexes existing_by_name)).
  destruct (groupby_sorted (sorted_by_name_Sorted (_group_indexes existing_by_name)))
    as [Hnd Hget]. fold s in Hnd, Hget.
  rewrite get_of_items. simpl PyDict.get at 2.
  set (G := map (fun kg => (fst kg, map snd (snd kg))) (groupby s)).
  assert (HndG : NoDup (PyDict.keys G)).
  { unfold PyDict.keys, G. rewrite map_map. simpl. exact Hnd. }
  rewrite (PyDictFacts.get_Permutation _ String.eqb_eq link_name HndG
             (Permutation_sym (Permutation_rev G))).
  unfold G.
  rewrite (get_map_values (fun g => map snd g) (groupby s) link_name).
  rewrite Hget. unfold s. rewrite sorted_by_name_stable, covering_names.
  destruct (filter (key_is link_name) (_group_indexes existing_by_name));
    reflexivity.
Qed.

End IndexGroupsSpec.

(** ** Mapping indexes: the queue read at apply time *)
Module LiveLinksSpec.
Import MappingIndexes LiveLinks.
Local Open Scope string_scope.
Local Open Scope list_scope.

Lemma LinkMapping_eqb_true a b : LinkMapping_eqb a b = true <-> a = b.
Proof. destruct a, b; simpl; split; congruence. Qed.


Lemma set_fresh (V : Type) (d : PyDict.t string V) k v :
  PyDict.get String.eqb d k = None ->
  PyDict.set String.eqb d k v = d ++ [(k, v)].
Proof.
  induction d as [|[k' v'] d IH]; simpl; [reflexivity|].
  destruct (String.eqb k k'); [discriminate|].
  intros H. now rewrite IH.
Qed.

Lemma set_known (V : Type) (d : PyDict.t string V) k v :
  PyDict.get String.eqb d k = Some v -> PyDict.set String.eqb d k v = d.
Proof.
  induction d as [|[k' v'] d IH]; simpl; [discriminate|].
  destruct (String.eqb k k').
  - now intros [= ->].
  - intros H. now rewrite IH.
Qed.

(** A created link alone in a pass gets the indexes of its mapping. *)
Lemma apply_link_created table_name existing p :
  apply_link table_name existing [(CreateLink, p)] =
  Ok [CreateMappingIndexes table_name (mapping p) [name p]].
Proof. destruct p as [n m]. destruct m; reflexivity. Qed.

Definition scheduled_on_create (h : Heap) (r : Ref) : bool :=
  negb (LinkMapping_eqb (mapping (h r)) ManyToMany).

Definition create_all (h : Heap) (rs : list Ref) : Realm :=
  fold_left (fun st r => CreateLink_schedule false true r st) rs
            (mkRealm h []).

Lemma create_all_links h rs :
  NoDup (map (fun r => name (h r)) rs) ->
  heap (create_all h rs) = h /\
  links (create_all h rs) =
  map (fun r => (name (h r), [(CreateLink, r)]))
      (filter (scheduled_on_create h) rs).
Proof.
  unfold create_all.
  induction rs as [|r rs IH] using rev_ind; intros Hnd; [now split|].
  rewrite map_app in Hnd. simpl in Hnd.
  assert (Hnd' := NoDup_remove_1 _ _ _ Hnd). rewrite app_nil_r in Hnd'.
  assert (Hr := NoDup_remove_2 _ _ _ Hnd). rewrite app_nil_r in Hr.
  destruct (IH Hnd') as [Hh Hl]. clear IH.
  rewrite fold_left_app. cbn [fold_left].
  set (st0 := fold_left _ rs _) in *.
  unfold CreateLink_schedule, schedule_mapping_update.
  rewrite Hh. rewrite filter_app, map_app. cbn [filter].
  replace (scheduled_on_create h r)
    with (negb (LinkMapping_eqb (mapping (h r)) ManyToMany)) by reflexivity.
  cbn [negb andb].
  destruct (negb (LinkMapping_eqb (mapping (h r)) ManyToMany));
    cbn [heap links map]; rewrite ?Hh, ?app_nil_r; [|now split].
  split; [reflexivity|].
  assert (G : PyDict.get String.eqb (links st0) (name (h r)) = None).
  { apply (PyDictFacts.get_None_keys _ String.eqb_eq).
    rewrite Hl. unfold PyDict.keys. rewrite map_map. simpl.
    intros Hin. apply Hr. apply in_map_iff in Hin.
    destruct Hin as [x [Hx Hin]]. apply filter_In in Hin.
    apply in_map_iff. exists x. tauto. }
  rewrite G. simpl. rewrite (@set_fresh _ _ _ _ G). now rewrite Hl.
Qed.

Section Apply.
Variable link_name_to_table_name : string -> TableName.
Variable indexes : TableName -> list (string * ExIdx).

(** Links that are created get their indexes one by one.  Each link is
    filed under its own name and each name has a pass of its own, over
    the table of the link: for links of different names that are
    created and have a table, the pass adds one CreateMappingIndexes
    for each link whose mapping is not many-to-many, on the table of
    that link and with that link alone, in the order of the commands;
    links of one mapping are not put together, and the indexes that
    exist do not matter. *)
Theorem created_links_indexed_one_by_one h rs :
  NoDup (map (fun r => name (h r)) rs) ->
  apply link_name_to_table_name indexes (create_all h rs) =
  Ok (flat_map
        (fun r =>
           if LinkMapping_eqb (mapping (h r)) ManyToMany then []
           else [CreateMappingIndexes (link_name_to_table_name (name (h r)))
                                      (mapping (h r)) [name (h r)]])
        rs).
Proof.
  intros Hnd. unfold apply.
  destruct (create_all_links h rs Hnd) as [-> ->]. clear Hnd.
  induction rs as [|r rs IH]; [reflexivity|].
  cbn [filter flat_map]. unfold scheduled_on_create at 1.
  destruct (LinkMapping_eqb (mapping (h r)) ManyToMany); cbn [negb];
    [exact IH|].
  cbn [map apply_entries read fst snd].
  rewrite apply_link_created. cbn [bind]. rewrite IH. reflexivity.
Qed.
End Apply.

Section Reconcile.
Variable table_name : TableName.
Variable existing : list (string * ExIdx).

(** What moves the link [n] to the mapping [final], given the indexes
    of its table: nothing when the index that covers the link has that
    mapping; otherwise the indexes of [final] are created for the link,
    and the indexes that covered it are dropped, or made again without
    it when they cover other links as well. *)
Definition reconciled (n : string) (final : LinkMapping) : list IndexCommand :=
  let existing_by_name := PyDict.of_items String.eqb existing in
  match existing_get existing_by_name n with
  | Some (first :: rest) =>
      match PyDict.get String.eqb existing_by_name first with
      | Some (old, covered) =>
          if LinkMapping_eqb old final then []
          else
            [CreateMappingIndexes table_name final [n];
             match filter (fun l => negb (String.eqb l n)) covered with
             | [] => DropMappingIndexes (Some (first :: rest)) table_name final
             | others =>
                 AlterMappingIndexes (Some (first :: rest)) table_name final
                                     others
             end]
      | None => []
      end
  | _ => [CreateMappingIndexes table_name final [n]]
  end.

(** Where the index that covers the link has another mapping, the link
    is put under the indexes of [final] and taken out of those that
    covered it: they are dropped, or made again for links among which
    the link is not. *)
Lemma reconciled_moves_the_link n final first rest old covered :
  existing_get (PyDict.of_items String.eqb existing) n = Some (first :: rest) ->
  PyDict.get String.eqb (PyDict.of_items String.eqb existing) first
    = Some (old, covered) ->
  old <> final ->
  exists removal,
    reconciled n final = [CreateMappingIndexes table_name final [n]; removal] /\
    (removal = DropMappingIndexes (Some (first :: rest)) table_name final \/
     exists others,
       removal = AlterMappingIndexes (Some (first :: rest)) table_name final
                                     others /\
       ~ In n others).
Proof.
  intros E G Hne. unfold reconciled. rewrite E, G.
  destruct (LinkMapping_eqb old final) eqn:Q.
  { apply LinkMapping_eqb_true in Q. contradiction. }
  eexists. split; [reflexivity|].
  destruct (filter (fun l => negb (String.eqb l n)) covered) as [|x others] eqn:F.
  - now left.
  - right. exists (x :: others). split; [reflexivity|].
    rewrite <- F. intros Hin. apply filter_In in Hin. destruct Hin as [_ Hin].
    rewrite String.eqb_refl in Hin. discriminate.
Qed.










End Reconcile.



Definition person_table (link_name : string) : TableName :=
  ("caos", String.append link_name "_link").
Definition no_indexes (_ : TableName) : list (string * ExIdx) := [].

(* Three created links, objects 0, 1 and 2, two of them of mapping 1*. *)
Definition created_heap : Heap :=
  fun r => match r with
           | 0%nat => mkProto "test.owner" OneToMany
           | 1%nat => mkProto "test.spouse" OneToOne
           | _ => mkProto "test.employer" OneToMany
           end.

Lemma created_links_indexed_one_by_one_witness :
  apply person_table no_indexes (create_all created_heap [0; 1; 2]%nat) =
  Ok [CreateMappingIndexes ("caos", "test.owner_link") OneToMany ["test.owner"];
      CreateMappingIndexes ("caos", "test.spouse_link") OneToOne ["test.spouse"];
      CreateMappingIndexes ("caos", "test.employer_link") OneToMany
                           ["test.employer"]].
Proof.
  apply (@created_links_indexed_one_by_one person_table no_indexes
           created_heap [0; 1; 2]%nat).
  repeat constructor; simpl; intuition discriminate.
Defined.

End LiveLinksSpec.
